(** * stty: a shallow embedding of [cerata/ubase/stty.c]

    The terminal-attribute tool of the repository is modelled function by
    function.  C integers are [Z] with the 32-bit complement of [tcflag_t]
    written out, C strings are [string], the [struct termios] working copy is
    a record, the three file-scope counters are threaded explicitly, and the
    calls that leave the program (the terminal driver, libc, [estrtonum] of
    util.h) are gathered in a [platform] record. *)

From Stdlib Require Import ZArith List String Ascii Bool Lia.
From Stdlib Require Import Strings.Byte DecimalString.
Import ListNotations.

Local Open Scope list_scope.
Local Open Scope string_scope.
Local Open Scope Z_scope.

(* ------------------------------------------------------------------ *)
(** ** Constants of [<termios.h>], [<sys/ttydefaults.h>], [<sys/ioctl.h>]

    These come from the system headers of the target (Linux, generic
    architecture), not from the repository; the octal spelling of the
    header is kept next to each value. *)

Definition NCCS : nat := 32.

(* c_iflag *)
Definition IGNBRK    : Z := 0x1.        (* 0000001 *)
Definition BRKINT    : Z := 0x2.        (* 0000002 *)
Definition IGNPAR    : Z := 0x4.        (* 0000004 *)
Definition PARMRK    : Z := 0x8.        (* 0000010 *)
Definition INPCK     : Z := 0x10.       (* 0000020 *)
Definition ISTRIP    : Z := 0x20.       (* 0000040 *)
Definition INLCR     : Z := 0x40.       (* 0000100 *)
Definition IGNCR     : Z := 0x80.       (* 0000200 *)
Definition ICRNL     : Z := 0x100.      (* 0000400 *)
Definition IUCLC     : Z := 0x200.      (* 0001000 *)
Definition IXON      : Z := 0x400.      (* 0002000 *)
Definition IXANY     : Z := 0x800.      (* 0004000 *)
Definition IXOFF     : Z := 0x1000.     (* 0010000 *)
Definition IMAXBEL   : Z := 0x2000.     (* 0020000 *)
Definition IUTF8     : Z := 0x4000.     (* 0040000 *)

(* c_oflag *)
Definition OPOST     : Z := 0x1.        (* 0000001 *)
Definition OLCUC     : Z := 0x2.        (* 0000002 *)
Definition ONLCR     : Z := 0x4.        (* 0000004 *)
Definition OCRNL     : Z := 0x8.        (* 0000010 *)
Definition ONOCR     : Z := 0x10.       (* 0000020 *)
Definition ONLRET    : Z := 0x20.       (* 0000040 *)
Definition OFILL     : Z := 0x40.       (* 0000100 *)
Definition OFDEL     : Z := 0x80.       (* 0000200 *)
Definition NLDLY     : Z := 0x100.      (* 0000400 *)
Definition NL0       : Z := 0x0.
Definition NL1       : Z := 0x100.      (* 0000400 *)
Definition CRDLY     : Z := 0x600.      (* 0003000 *)
Definition CR0       : Z := 0x0.
Definition CR1       : Z := 0x200.      (* 0001000 *)
Definition CR2       : Z := 0x400.      (* 0002000 *)
Definition CR3       : Z := 0x600.      (* 0003000 *)
Definition TABDLY    : Z := 0x1800.     (* 0014000 *)
Definition TAB0      : Z := 0x0.
Definition TAB1      : Z := 0x800.      (* 0004000 *)
Definition TAB2      : Z := 0x1000.     (* 0010000 *)
Definition TAB3      : Z := 0x1800.     (* 0014000 *)
Definition BSDLY     : Z := 0x2000.     (* 0020000 *)
Definition BS0       : Z := 0x0.
Definition BS1       : Z := 0x2000.     (* 0020000 *)
Definition FFDLY     : Z := 0x8000.     (* 0100000 *)
Definition FF0       : Z := 0x0.
Definition FF1       : Z := 0x8000.     (* 0100000 *)
Definition VTDLY     : Z := 0x4000.     (* 0040000 *)
Definition VT0       : Z := 0x0.
Definition VT1       : Z := 0x4000.     (* 0040000 *)

(* c_cflag *)
Definition CSIZE     : Z := 0x30.       (* 0000060 *)
Definition CS5       : Z := 0x0.
Definition CS6       : Z := 0x10.       (* 0000020 *)
Definition CS7       : Z := 0x20.       (* 0000040 *)
Definition CS8       : Z := 0x30.       (* 0000060 *)
Definition CSTOPB    : Z := 0x40.       (* 0000100 *)
Definition CREAD     : Z := 0x80.       (* 0000200 *)
Definition PARENB    : Z := 0x100.      (* 0000400 *)
Definition PARODD    : Z := 0x200.      (* 0001000 *)
Definition HUPCL     : Z := 0x400.      (* 0002000 *)
Definition CLOCAL    : Z := 0x800.      (* 0004000 *)
Definition CMSPAR    : Z := 0x40000000. (* 010000000000 *)
Definition CRTSCTS   : Z := 0x80000000. (* 020000000000 *)

(* c_lflag *)
Definition ISIG      : Z := 0x1.        (* 0000001 *)
Definition ICANON    : Z := 0x2.        (* 0000002 *)
Definition XCASE     : Z := 0x4.        (* 0000004 *)
Definition ECHO      : Z := 0x8.        (* 0000010 *)
Definition ECHOE     : Z := 0x10.       (* 0000020 *)
Definition ECHOK     : Z := 0x20.       (* 0000040 *)
Definition ECHONL    : Z := 0x40.       (* 0000100 *)
Definition NOFLSH    : Z := 0x80.       (* 0000200 *)
Definition TOSTOP    : Z := 0x100.      (* 0000400 *)
Definition ECHOCTL   : Z := 0x200.      (* 0001000 *)
Definition ECHOPRT   : Z := 0x400.      (* 0002000 *)
Definition ECHOKE    : Z := 0x800.      (* 0004000 *)
Definition FLUSHO    : Z := 0x1000.     (* 0010000 *)
Definition IEXTEN    : Z := 0x8000.     (* 0100000 *)
Definition EXTPROC   : Z := 0x10000.    (* 0200000 *)

(* speed_t *)
Definition B0        : Z := 0x0.
Definition B50       : Z := 0x1.
Definition B75       : Z := 0x2.
Definition B110      : Z := 0x3.
Definition B134      : Z := 0x4.
Definition B150      : Z := 0x5.
Definition B200      : Z := 0x6.
Definition B300      : Z := 0x7.
Definition B600      : Z := 0x8.        (* 0000010 *)
Definition B1200     : Z := 0x9.        (* 0000011 *)
Definition B1800     : Z := 0xa.        (* 0000012 *)
Definition B2400     : Z := 0xb.        (* 0000013 *)
Definition B4800     : Z := 0xc.        (* 0000014 *)
Definition B9600     : Z := 0xd.        (* 0000015 *)
Definition B19200    : Z := 0xe.        (* 0000016 *)
Definition B38400    : Z := 0xf.        (* 0000017 *)
Definition B57600    : Z := 0x1001.     (* 0010001 *)
Definition B115200   : Z := 0x1002.     (* 0010002 *)
Definition B230400   : Z := 0x1003.     (* 0010003 *)
Definition B460800   : Z := 0x1004.     (* 0010004 *)
Definition B500000   : Z := 0x1005.     (* 0010005 *)
Definition B576000   : Z := 0x1006.     (* 0010006 *)
Definition B921600   : Z := 0x1007.     (* 0010007 *)
Definition B1000000  : Z := 0x1008.     (* 0010010 *)
Definition B1152000  : Z := 0x1009.     (* 0010011 *)
Definition B1500000  : Z := 0x100a.     (* 0010012 *)
Definition B2000000  : Z := 0x100b.     (* 0010013 *)
Definition B2500000  : Z := 0x100c.     (* 0010014 *)
Definition B3000000  : Z := 0x100d.     (* 0010015 *)
Definition B3500000  : Z := 0x100e.     (* 0010016 *)
Definition B4000000  : Z := 0x100f.     (* 0010017 *)

(* c_cc subscripts *)
Definition VINTR    : nat := 0.
Definition VQUIT    : nat := 1.
Definition VERASE   : nat := 2.
Definition VKILL    : nat := 3.
Definition VEOF     : nat := 4.
Definition VTIME    : nat := 5.
Definition VMIN     : nat := 6.
Definition VSWTC    : nat := 7.
Definition VSTART   : nat := 8.
Definition VSTOP    : nat := 9.
Definition VSUSP    : nat := 10.
Definition VEOL     : nat := 11.
Definition VREPRINT : nat := 12.
Definition VDISCARD : nat := 13.
Definition VWERASE  : nat := 14.
Definition VLNEXT   : nat := 15.
Definition VEOL2    : nat := 16.

(* <sys/ttydefaults.h>: CTRL(x) is x & 037 *)
Definition _POSIX_VDISABLE : Z := 0.
Definition CEOF     : Z := 4.    (* CTRL('d') *)
Definition CEOL     : Z := 0.
Definition CERASE   : Z := 127.  (* 0177 *)
Definition CINTR    : Z := 3.    (* CTRL('c') *)
Definition CKILL    : Z := 21.   (* CTRL('u') *)
Definition CQUIT    : Z := 28.   (* 034 *)
Definition CSUSP    : Z := 26.   (* CTRL('z') *)
Definition CSTART   : Z := 17.   (* CTRL('q') *)
Definition CSTOP    : Z := 19.   (* CTRL('s') *)
Definition CLNEXT   : Z := 22.   (* CTRL('v') *)
Definition CDISCARD : Z := 15.   (* CTRL('o') *)
Definition CWERASE  : Z := 23.   (* CTRL('w') *)
Definition CRPRNT   : Z := 18.   (* CTRL('r') *)

(* line disciplines *)
Definition N_TTY          : Z := 0.
Definition N_SLIP         : Z := 1.
Definition N_MOUSE        : Z := 2.
Definition N_PPP          : Z := 3.
Definition N_STRIP        : Z := 4.
Definition N_AX25         : Z := 5.
Definition N_X25          : Z := 6.
Definition N_6PACK        : Z := 7.
Definition N_MASC         : Z := 8.
Definition N_R3964        : Z := 9.
Definition N_PROFIBUS_FDL : Z := 10.
Definition N_IRDA         : Z := 11.
Definition N_SMSBLOCK     : Z := 12.
Definition N_HDLC         : Z := 13.
Definition N_SYNC_PPP     : Z := 14.
Definition N_HCI          : Z := 15.

Definition USHRT_MAX : Z := 65535.
Definition SIZE_MAX  : Z := 2 ^ 64 - 1.
Definition BUFSIZ    : Z := 1024.

(** stty.c:25 *)
Definition CC_MAX : Z := 255.

(* ------------------------------------------------------------------ *)
(** ** Machine arithmetic *)

(** [~x] at the width of [tcflag_t] (unsigned int, 32 bits). *)
Definition not32 (x : Z) : Z := Z.land (Z.lnot x) (Z.ones 32).

(** Conversion to [cc_t] (unsigned char). *)
Definition to_cc (x : Z) : Z := x mod 256.

Definition char_code (c : ascii) : Z := Z.of_N (N_of_ascii c).

(** C truth value of an integer. *)
Definition nz (x : Z) : bool := negb (x =? 0).

(* ------------------------------------------------------------------ *)
(** ** The working state *)

(** The object [struct termios]: its members, and in [c_pad] the bytes of
    the object that belong to no member.  Member assignments leave those
    bytes as they are; [decodehex] (stty.c:768) writes them and [memcmp]
    (stty.c:790, 796) compares them like every other byte. *)
Record termios := mk_termios {
  c_iflag  : Z;
  c_oflag  : Z;
  c_cflag  : Z;
  c_lflag  : Z;
  c_line   : Z;
  c_cc     : list Z;
  c_ispeed : Z;
  c_ospeed : Z;
  c_pad    : list byte
}.

Definition set_iflag (v : Z) (m : termios) : termios :=
  mk_termios v (c_oflag m) (c_cflag m) (c_lflag m) (c_line m) (c_cc m)
             (c_ispeed m) (c_ospeed m) (c_pad m).
Definition set_oflag (v : Z) (m : termios) : termios :=
  mk_termios (c_iflag m) v (c_cflag m) (c_lflag m) (c_line m) (c_cc m)
             (c_ispeed m) (c_ospeed m) (c_pad m).
Definition set_cflag (v : Z) (m : termios) : termios :=
  mk_termios (c_iflag m) (c_oflag m) v (c_lflag m) (c_line m) (c_cc m)
             (c_ispeed m) (c_ospeed m) (c_pad m).
Definition set_lflag (v : Z) (m : termios) : termios :=
  mk_termios (c_iflag m) (c_oflag m) (c_cflag m) v (c_line m) (c_cc m)
             (c_ispeed m) (c_ospeed m) (c_pad m).
Definition set_line (v : Z) (m : termios) : termios :=
  mk_termios (c_iflag m) (c_oflag m) (c_cflag m) (c_lflag m) v (c_cc m)
             (c_ispeed m) (c_ospeed m) (c_pad m).
Definition set_ccs (v : list Z) (m : termios) : termios :=
  mk_termios (c_iflag m) (c_oflag m) (c_cflag m) (c_lflag m) (c_line m) v
             (c_ispeed m) (c_ospeed m) (c_pad m).

(** [a[i] = v] on an array held as a list; a subscript past the end is
    outside the array and leaves the list as it is (the program only uses
    the constant subscripts above, all below [NCCS]). *)
Fixpoint store (i : nat) (v : Z) (a : list Z) : list Z :=
  match a, i with
  | [], _ => []
  | _ :: t, O => v :: t
  | h :: t, S j => h :: store j v t
  end.

Definition set_pad (v : list byte) (m : termios) : termios :=
  mk_termios (c_iflag m) (c_oflag m) (c_cflag m) (c_lflag m) (c_line m)
             (c_cc m) (c_ispeed m) (c_ospeed m) v.

Definition cc (m : termios) (i : nat) : Z := nth i (c_cc m) 0.
Definition set_cc (i : nat) (v : Z) (m : termios) : termios :=
  set_ccs (store i v (c_cc m)) m.

(** The file-scope counters of stty.c:27-29 together with the working
    copy [mode] of [main]. *)
Record st := mk_st {
  output_size_requested  : Z;
  output_speed_requested : Z;
  drain_requested        : Z;
  mode                   : termios
}.

Definition on_mode (f : termios -> termios) (s : st) : st :=
  mk_st (output_size_requested s) (output_speed_requested s)
        (drain_requested s) (f (mode s)).

Definition b2z (b : bool) : Z := if b then 1 else 0.

Infix ".|" := Z.lor  (at level 50, left associativity).
Infix ".&" := Z.land (at level 40, left associativity).

(* ------------------------------------------------------------------ *)
(** ** Side-effect routines of the mode catalog (stty.c:36-99) *)

(** stty.c:36-49 *)
Definition raw (unset : bool) (m : termios) : termios :=
  if negb unset then
    let m := set_iflag 0 m in
    let m := set_lflag (c_lflag m .& not32 XCASE) m in
    let m := set_cc VMIN 1 m in
    set_cc VTIME 0 m
  else
    set_iflag (c_iflag m .| (BRKINT .| IGNPAR .| ISTRIP .| ICRNL .| IXON)) m.

(** stty.c:51-57; the three statements address [c_oflag]. *)
Definition evenp (unset : bool) (m : termios) : termios :=
  let m := set_oflag (c_oflag m .& not32 CSIZE) m in
  let m := set_oflag (c_oflag m .& not32 (if unset then PARENB else PARODD)) m in
  set_oflag (c_oflag m .| (if unset then CS8 else CS7 .| PARENB)) m.

(** stty.c:60-67 *)
Definition dec (unset : bool) (m : termios) : termios :=
  let m := set_cc VINTR CINTR m in
  let m := set_cc VKILL CKILL m in
  set_cc VERASE CERASE m.

(** stty.c:69-75 *)
Definition ek (unset : bool) (m : termios) : termios :=
  let m := set_cc VKILL CKILL m in
  set_cc VERASE CERASE m.

(** stty.c:77-84 *)
Definition nl (unset : bool) (m : termios) : termios :=
  if unset then
    let m := set_iflag (c_iflag m .& not32 (INLCR .| IGNCR)) m in
    set_oflag (c_oflag m .& not32 (OCRNL .| ONLRET)) m
  else m.

(** stty.c:86-92; the three statements address [c_oflag]. *)
Definition oddp (unset : bool) (m : termios) : termios :=
  let m := set_oflag (c_oflag m .& not32 CSIZE) m in
  let m := set_oflag (c_oflag m .& not32 (if unset then PARENB else 0)) m in
  set_oflag (c_oflag m .| (if unset then CS8 else CS7 .| PARODD .| PARENB)) m.

(** stty.c:94 *)
Definition drain (unset : bool) (s : st) : st :=
  mk_st (output_size_requested s) (output_speed_requested s)
        (b2z (negb unset)) (mode s).

(** stty.c:95 *)
Definition cooked (unset : bool) (m : termios) : termios := raw (negb unset) m.

(** stty.c:96 *)
Definition pass8 (unset : bool) (m : termios) : termios :=
  let m := set_cflag (c_cflag m .& not32 CSIZE) m in
  set_cflag (c_cflag m .| (if unset then CS7 else CS8)) m.

(** stty.c:97 *)
Definition size (unset : bool) (s : st) : st :=
  mk_st 1 (output_speed_requested s) (drain_requested s) (mode s).

(** stty.c:98 *)
Definition speed (unset : bool) (s : st) : st :=
  mk_st (output_size_requested s) 1 (drain_requested s) (mode s).

(** stty.c:99 *)
Definition tabs (unset : bool) (m : termios) : termios :=
  let m := set_oflag (c_oflag m .& not32 TABDLY) m in
  set_oflag (c_oflag m .| (if unset then TAB3 else TAB0)) m.

(* ------------------------------------------------------------------ *)
(** ** Catalogs (stty.c:105-320)

    C keeps struct tags in a name space of their own; here the structs are
    [struct_mode], [struct_key], [struct_speed], [struct_line], and their
    members carry a one-letter prefix.  The target defines CMSPAR and XCASE,
    so the two entries under [#ifdef] are part of the mode catalog. *)

Inductive type := CTRL | IN | OUT | LOCAL | COMB | SPEC.

Definition BOOL    : Z := 1.
Definition DUP     : Z := 2.
Definition SANE    : Z := 4.
Definition INSANE  : Z := 8.
Definition CBREAK  : Z := 16.
Definition DECCTLQ : Z := 32.
Definition LCASE   : Z := 64.
Definition PASS8   : Z := 128.
Definition LITOUT  : Z := 256.
Definition CRT     : Z := 1024.
Definition DEC     : Z := 2048.
Definition NL      : Z := 4096.
Definition COOKED  : Z := 8192.
Definition DEF     : Z := 16384.

(** The routines a catalog entry may point to, as a closed enumeration of
    the function pointers of the table. *)
Inductive modefun :=
| fn_cooked | fn_dec | fn_ek | fn_evenp | fn_pass8 | fn_nl | fn_oddp
| fn_raw | fn_sane | fn_tabs | fn_size | fn_speed | fn_drain.

Record struct_mode := mk_mode {
  m_op    : string;
  m_type  : type;
  m_set   : Z;
  m_clear : Z;
  m_fun   : option modefun;
  m_flags : Z
}.

Record struct_key := mk_key {
  k_op        : string;
  k_index     : nat;
  k_sanevalue : Z
}.

Record struct_speed := mk_speed {
  s_str   : string;
  s_speed : Z
}.

Record struct_line := mk_line {
  l_str   : string;
  l_value : Z
}.

Definition modes : list struct_mode := [
  mk_mode "clocal"   CTRL  CLOCAL  0       None (BOOL);
  mk_mode "cmspar"   CTRL  CMSPAR  0       None (BOOL);
  mk_mode "cread"    CTRL  CREAD   0       None (BOOL .| SANE);
  mk_mode "crtscts"  CTRL  CRTSCTS 0       None (BOOL);
  mk_mode "cs5"      CTRL  CS5     CSIZE   None 0;
  mk_mode "cs6"      CTRL  CS6     CSIZE   None 0;
  mk_mode "cs7"      CTRL  CS7     CSIZE   None 0;
  mk_mode "cs8"      CTRL  CS8     CSIZE   None (DEF);
  mk_mode "cstopb"   CTRL  CSTOPB  0       None (BOOL);
  mk_mode "hup"      CTRL  HUPCL   0       None (BOOL .| DUP);
  mk_mode "hupcl"    CTRL  HUPCL   0       None (BOOL .| DEF);
  mk_mode "parenb"   CTRL  PARENB  0       None (BOOL .| PASS8 .| LITOUT);
  mk_mode "parodd"   CTRL  PARODD  0       None (BOOL);

  mk_mode "brkint"   IN    BRKINT  0       None (BOOL .| SANE);
  mk_mode "icrnl"    IN    ICRNL   0       None (BOOL .| SANE .| NL);
  mk_mode "ignbrk"   IN    IGNBRK  0       None (BOOL .| INSANE);
  mk_mode "igncr"    IN    IGNCR   0       None (BOOL .| INSANE);
  mk_mode "ignpar"   IN    IGNPAR  0       None (BOOL);
  mk_mode "imaxbel"  IN    IMAXBEL 0       None (BOOL .| SANE);
  mk_mode "inlcr"    IN    INLCR   0       None (BOOL .| INSANE);
  mk_mode "inpck"    IN    INPCK   0       None (BOOL);
  mk_mode "istrip"   IN    ISTRIP  0       None (BOOL .| PASS8 .| LITOUT);
  mk_mode "iuclc"    IN    IUCLC   0       None (BOOL .| INSANE .| LCASE);
  mk_mode "iutf8"    IN    IUTF8   0       None (BOOL .| SANE);
  mk_mode "ixany"    IN    IXANY   0       None (BOOL .| INSANE .| DECCTLQ);
  mk_mode "ixoff"    IN    IXOFF   0       None (BOOL .| INSANE);
  mk_mode "ixon"     IN    IXON    0       None (BOOL .| DEF);
  mk_mode "parmrk"   IN    PARMRK  0       None (BOOL);
  mk_mode "tandem"   IN    IXOFF   0       None (BOOL .| DUP);

  mk_mode "bs0"      OUT   BS0     BSDLY   None (SANE);
  mk_mode "bs1"      OUT   BS1     BSDLY   None (INSANE);
  mk_mode "cr0"      OUT   CR0     CRDLY   None (SANE);
  mk_mode "cr1"      OUT   CR1     CRDLY   None (INSANE);
  mk_mode "cr2"      OUT   CR2     CRDLY   None (INSANE);
  mk_mode "cr3"      OUT   CR3     CRDLY   None (INSANE);
  mk_mode "ff0"      OUT   FF0     FFDLY   None (SANE);
  mk_mode "ff1"      OUT   FF1     FFDLY   None (INSANE);
  mk_mode "nl0"      OUT   NL0     NLDLY   None (SANE);
  mk_mode "nl1"      OUT   NL1     NLDLY   None (INSANE);
  mk_mode "ocrnl"    OUT   OCRNL   0       None (BOOL .| INSANE);
  mk_mode "ofdel"    OUT   OFDEL   0       None (BOOL .| INSANE);
  mk_mode "ofill"    OUT   OFILL   0       None (BOOL .| INSANE);
  mk_mode "olcuc"    OUT   OLCUC   0       None (BOOL .| INSANE .| LCASE);
  mk_mode "onlcr"    OUT   ONLCR   0       None (BOOL .| SANE .| NL);
  mk_mode "onlret"   OUT   ONLRET  0       None (BOOL .| INSANE);
  mk_mode "onocr"    OUT   ONOCR   0       None (BOOL .| INSANE);
  mk_mode "opost"    OUT   OPOST   0       None (BOOL .| SANE .| LITOUT .| COOKED);
  mk_mode "tab0"     OUT   TAB0    TABDLY  None (SANE);
  mk_mode "tab1"     OUT   TAB1    TABDLY  None (INSANE);
  mk_mode "tab2"     OUT   TAB2    TABDLY  None (INSANE);
  mk_mode "tab3"     OUT   TAB3    TABDLY  None (INSANE);
  mk_mode "vt0"      OUT   VT0     VTDLY   None (SANE);
  mk_mode "vt1"      OUT   VT1     VTDLY   None (INSANE);

  mk_mode "crterase" LOCAL ECHOE   0       None (BOOL .| DUP);
  mk_mode "crtkill"  LOCAL ECHOKE  0       None (BOOL .| DUP);
  mk_mode "ctlecho"  LOCAL ECHOCTL 0       None (BOOL .| DUP);
  mk_mode "echo"     LOCAL ECHO    0       None (BOOL .| SANE);
  mk_mode "echoctl"  LOCAL ECHOCTL 0       None (BOOL .| SANE .| CRT .| DEC);
  mk_mode "echoe"    LOCAL ECHOE   0       None (BOOL .| SANE .| CRT .| DEC);
  mk_mode "echok"    LOCAL ECHOK   0       None (BOOL .| SANE);
  mk_mode "echoke"   LOCAL ECHOKE  0       None (BOOL .| SANE .| CRT .| DEC);
  mk_mode "echonl"   LOCAL ECHONL  0       None (BOOL .| INSANE);
  mk_mode "echoprt"  LOCAL ECHOPRT 0       None (BOOL .| INSANE);
  mk_mode "extproc"  LOCAL EXTPROC 0       None (BOOL .| INSANE);
  mk_mode "flusho"   LOCAL FLUSHO  0       None (BOOL .| INSANE);
  mk_mode "icanon"   LOCAL ICANON  0       None (BOOL .| SANE .| CBREAK .| COOKED);
  mk_mode "iexten"   LOCAL IEXTEN  0       None (BOOL .| SANE);
  mk_mode "isig"     LOCAL ISIG    0       None (BOOL .| SANE .| COOKED);
  mk_mode "noflsh"   LOCAL NOFLSH  0       None (BOOL .| INSANE);
  mk_mode "prterase" LOCAL ECHOPRT 0       None (BOOL .| DUP);
  mk_mode "tostop"   LOCAL TOSTOP  0       None (BOOL .| INSANE);
  mk_mode "xcase"    LOCAL XCASE   0       None (BOOL .| INSANE .| LCASE);

  mk_mode "cbreak"   COMB  0       CBREAK  None             (BOOL .| DUP);
  mk_mode "cooked"   COMB  COOKED  0       (Some fn_cooked) (BOOL .| DUP);
  mk_mode "crt"      COMB  CRT     0       None             (DUP);
  mk_mode "dec"      COMB  DEC     DECCTLQ (Some fn_dec)    (DUP);
  mk_mode "decctlq"  COMB  0       DECCTLQ None             (BOOL .| DUP);
  mk_mode "ek"       COMB  0       0       (Some fn_ek)     (DUP);
  mk_mode "evenp"    COMB  0       0       (Some fn_evenp)  (BOOL .| DUP);
  mk_mode "LCASE"    COMB  LCASE   0       None             (BOOL .| DUP);
  mk_mode "lcase"    COMB  LCASE   0       None             (BOOL .| DUP);
  mk_mode "litout"   COMB  0       LITOUT  (Some fn_pass8)  (BOOL .| DUP);
  mk_mode "nl"       COMB  0       NL      (Some fn_nl)     (BOOL .| DUP);
  mk_mode "oddp"     COMB  0       0       (Some fn_oddp)   (BOOL .| DUP);
  mk_mode "parity"   COMB  0       0       (Some fn_evenp)  (BOOL .| DUP);
  mk_mode "pass8"    COMB  0       PASS8   (Some fn_pass8)  (BOOL .| DUP);
  mk_mode "raw"      COMB  0       COOKED  (Some fn_raw)    (BOOL .| DUP);
  mk_mode "sane"     COMB  SANE    INSANE  (Some fn_sane)   (DUP);
  mk_mode "tabs"     COMB  0       0       (Some fn_tabs)   (BOOL .| DUP);

  mk_mode "size"     SPEC  0       0       (Some fn_size)   (DUP);
  mk_mode "speed"    SPEC  0       0       (Some fn_speed)  (DUP);
  mk_mode "drain"    SPEC  0       0       (Some fn_drain)  (BOOL .| DUP)
].

Definition keys : list struct_key := [
  mk_key "discard" VDISCARD CDISCARD;
  mk_key "eof"     VEOF     CEOF;
  mk_key "eol"     VEOL     CEOL;
  mk_key "eol2"    VEOL2    _POSIX_VDISABLE;
  mk_key "erase"   VERASE   CERASE;
  mk_key "intr"    VINTR    CINTR;
  mk_key "kill"    VKILL    CKILL;
  mk_key "lnext"   VLNEXT   CLNEXT;
  mk_key "quit"    VQUIT    CQUIT;
  mk_key "rprnt"   VREPRINT CRPRNT;
  mk_key "start"   VSTART   CSTART;
  mk_key "stop"    VSTOP    CSTOP;
  mk_key "susp"    VSUSP    CSUSP;
  mk_key "swtch"   VSWTC    _POSIX_VDISABLE;
  mk_key "werase"  VWERASE  CWERASE
].

Definition speeds : list struct_speed := [
  mk_speed "0" B0;             mk_speed "50" B50;
  mk_speed "75" B75;           mk_speed "110" B110;
  mk_speed "134" B134;         mk_speed "150" B150;
  mk_speed "200" B200;         mk_speed "300" B300;
  mk_speed "600" B600;         mk_speed "1200" B1200;
  mk_speed "1800" B1800;       mk_speed "2400" B2400;
  mk_speed "4800" B4800;       mk_speed "9600" B9600;
  mk_speed "19200" B19200;     mk_speed "38400" B38400;
  mk_speed "57600" B57600;     mk_speed "115200" B115200;
  mk_speed "230400" B230400;   mk_speed "460800" B460800;
  mk_speed "500000" B500000;   mk_speed "576000" B576000;
  mk_speed "921600" B921600;   mk_speed "1000000" B1000000;
  mk_speed "1152000" B1152000; mk_speed "1500000" B1500000;
  mk_speed "2000000" B2000000; mk_speed "2500000" B2500000;
  mk_speed "3000000" B3000000; mk_speed "3500000" B3500000;
  mk_speed "4000000" B4000000;
  mk_speed "134.5" B134;
  mk_speed "exta"  B19200;
  mk_speed "extb"  B38400
].

Definition lines : list struct_line := [
  mk_line "tty"      N_TTY;
  mk_line "slip"     N_SLIP;
  mk_line "mouse"    N_MOUSE;
  mk_line "ppp"      N_PPP;
  mk_line "strip"    N_STRIP;
  mk_line "ax25"     N_AX25;
  mk_line "x25"      N_X25;
  mk_line "6pack"    N_6PACK;
  mk_line "masc"     N_MASC;
  mk_line "r3964"    N_R3964;
  mk_line "profibus" N_PROFIBUS_FDL;
  mk_line "irda"     N_IRDA;
  mk_line "smsblock" N_SMSBLOCK;
  mk_line "hdlc"     N_HDLC;
  mk_line "syncppp"  N_SYNC_PPP;
  mk_line "hci"      N_HCI
].

(** stty.c:322-331 *)
Definition sane (unset : bool) (m : termios) : termios :=
  let m := fold_left (fun m op => set_cc (k_index op) (k_sanevalue op) m) keys m in
  let m := set_cc VMIN 1 m in
  set_cc VTIME 0 m.

(** A call through the [fun] pointer of a catalog entry. *)
Definition call (f : modefun) (unset : bool) (s : st) : st :=
  match f with
  | fn_cooked => on_mode (cooked unset) s
  | fn_dec    => on_mode (dec unset) s
  | fn_ek     => on_mode (ek unset) s
  | fn_evenp  => on_mode (evenp unset) s
  | fn_pass8  => on_mode (pass8 unset) s
  | fn_nl     => on_mode (nl unset) s
  | fn_oddp   => on_mode (oddp unset) s
  | fn_raw    => on_mode (raw unset) s
  | fn_sane   => on_mode (sane unset) s
  | fn_tabs   => on_mode (tabs unset) s
  | fn_size   => size unset s
  | fn_speed  => speed unset s
  | fn_drain  => drain unset s
  end.

(* ------------------------------------------------------------------ *)
(** ** C strings *)

(** [s[0]], with the terminating NUL for the empty string. *)
Definition char0 (s : string) : ascii :=
  match s with
  | EmptyString => zero
  | String c _ => c
  end.

(** [s[i]]; positions from the terminator on read as NUL. *)
Definition char_at (s : string) (i : nat) : ascii :=
  match String.get i s with
  | Some c => c
  | None => zero
  end.

(** [s + 1] for a non-empty [s]. *)
Definition next (s : string) : string :=
  match s with
  | EmptyString => EmptyString
  | String _ t => t
  end.

(** [isdigit] and [isxdigit] of the C locale. *)
Definition isdigit (c : ascii) : bool :=
  let n := char_code c in (48 <=? n) && (n <=? 57).

Definition isxdigit (c : ascii) : bool :=
  let n := char_code c in
  ((48 <=? n) && (n <=? 57)) || ((65 <=? n) && (n <=? 70))
  || ((97 <=? n) && (n <=? 102)).

(** [strlen] as a C integer. *)
Definition strlen (s : string) : Z := Z.of_nat (String.length s).

(* ------------------------------------------------------------------ *)
(** ** State codec (stty.c:333-354 and 800-806) *)

(** stty.c:333-342 *)
Fixpoint all_xdigit (str : string) : bool :=
  match str with
  | EmptyString => true
  | String c t => if negb (isxdigit c) then false else all_xdigit t
  end.

Definition isxnumber (str : string) : bool :=
  match str with
  | EmptyString => false
  | _ => all_xdigit str
  end.

(** The value stty.c:350-352 computes from one pair of characters, as the
    [char] that is stored. *)
Definition hexval (c : ascii) : Z :=
  (char_code c .& 15) + 9 * b2z (negb (isdigit c)).

Definition byte_of_Z (x : Z) : byte :=
  match Byte.of_N (Z.to_N (x mod 256)) with
  | Some b => b
  | None => x00
  end.

Definition Z_of_byte (b : byte) : Z := Z.of_N (Byte.to_N b).

(** stty.c:344-354.  The bytes are written from the start of [dest]; what
    lies behind the written part is kept.  A source of odd length makes the
    loop step over the terminator, and writing more than [dest] holds leaves
    the object: both are [None]. *)
Fixpoint decodehex (dest : list byte) (src : string) : option (list byte) :=
  match src with
  | EmptyString => Some dest
  | String hi (String lo rest) =>
      match dest with
      | [] => None
      | _ :: dest' =>
          match decodehex dest' rest with
          | Some t =>
              Some (byte_of_Z (Z.shiftl (hexval hi) 4 .| hexval lo) :: t)
          | None => None
          end
      end
  | String _ EmptyString => None
  end.

(** [printf("%02x", b)] for an [unsigned char]. *)
Definition hexdigit (n : Z) : ascii :=
  char_at "0123456789abcdef" (Z.to_nat n).

Definition printf_02x (b : byte) : string :=
  String (hexdigit (Z_of_byte b / 16))
         (String (hexdigit (Z_of_byte b mod 16)) EmptyString).

(** The loop of stty.c:803-804 over the object representation. *)
Fixpoint encodehex (buf : list byte) : string :=
  match buf with
  | [] => EmptyString
  | b :: t => printf_02x b ++ encodehex t
  end.

(** The guard and the call of stty.c:765-768 on the text after [=]:
    [n] is [sizeof(mode)], [dest] the object representation of [mode]. *)
Definition literal_ok (n : Z) (p : string) : bool :=
  negb (negb (strlen p =? n * 2) || negb (isxnumber p)).

Definition decode_literal (n : Z) (dest : list byte) (p : string)
  : option (list byte) :=
  if literal_ok n p then decodehex dest p else None.

(* ------------------------------------------------------------------ *)
(** ** Mode operands (stty.c:370-445) *)

(** The four members [bitsp] can point to. *)
Inductive flagword := w_cflag | w_iflag | w_oflag | w_lflag.

Definition load (w : flagword) (m : termios) : Z :=
  match w with
  | w_cflag => c_cflag m
  | w_iflag => c_iflag m
  | w_oflag => c_oflag m
  | w_lflag => c_lflag m
  end.

Definition save (w : flagword) (v : Z) (m : termios) : termios :=
  match w with
  | w_cflag => set_cflag v m
  | w_iflag => set_iflag v m
  | w_oflag => set_oflag v m
  | w_lflag => set_lflag v m
  end.

(** The switch of stty.c:375-382: [Some (Some w)] is a pointer to a flag
    word, [Some None] the null pointer left by [SPEC], [None] is
    [abort()]. *)
Definition bitsp_of (t : type) : option (option flagword) :=
  match t with
  | CTRL  => Some (Some w_cflag)
  | IN    => Some (Some w_iflag)
  | OUT   => Some (Some w_oflag)
  | LOCAL => Some (Some w_lflag)
  | SPEC  => Some None
  | COMB  => None
  end.

(** stty.c:384-390 on the addressed word. *)
Definition mutate (unset : bool) (op : struct_mode) (bits : Z) : Z :=
  let bits := bits .& not32 (m_clear op) in
  if negb unset then bits .| m_set op else bits .& not32 (m_set op).

(** stty.c:370-394; [None] is [abort()]. *)
Definition setoperand_mode (unset : bool) (op : struct_mode) (s : st)
  : option st :=
  match bitsp_of (m_type op) with
  | None => None
  | Some bitsp =>
      let s :=
        match bitsp with
        | Some w => on_mode (fun m => save w (mutate unset op (load w m)) m) s
        | None => s
        end in
      Some (match m_fun op with
            | Some f => call f unset s
            | None => s
            end)
  end.

(** What an operand parser reports: [Applied] is return value 0 with the
    new state, [NoMatch] is return value -1, [Aborted] is [abort()]. *)
Inductive parsed (A : Type) :=
| Applied (a : A)
| NoMatch
| Aborted.
Arguments Applied {A} a.
Arguments NoMatch {A}.
Arguments Aborted {A}.

(** [while (op->op && strcmp(arg, op->op)) op++] over a catalog. *)
Definition lookup {E : Type} (name : E -> string) (table : list E)
  (arg : string) : option E :=
  find (fun e => String.eqb arg (name e)) table.

Definition is_minus (arg : string) : bool :=
  Ascii.eqb (char0 arg) "-"%char.

(** One turn of the loop of stty.c:431-438. *)
Definition propagate (unset : bool) (flags_set flags_unset : Z)
  (acc : option st) (op : struct_mode) : option st :=
  match acc with
  | None => None
  | Some s =>
      match m_type op with
      | COMB => Some s
      | _ =>
          let r :=
            if nz flags_unset && nz (m_flags op .& flags_unset)
            then setoperand_mode (negb unset) op s else Some s in
          match r with
          | None => None
          | Some s =>
              if nz flags_set && nz (m_flags op .& flags_set)
              then setoperand_mode unset op s else Some s
          end
      end
  end.

(** stty.c:396-445 *)
Definition parseoperand_mode (arg : string) (s : st) : parsed st :=
  let unset := is_minus arg in
  let arg := if unset then next arg else arg in
  match lookup m_op modes arg with
  | None => NoMatch
  | Some op =>
      if unset && negb (nz (m_flags op .& BOOL)) then NoMatch
      else
        match m_type op with
        | COMB =>
            let flags_set := m_set op in
            let flags_unset := m_clear op in
            let r :=
              if nz flags_unset || nz flags_set
              then fold_left (propagate unset flags_set flags_unset)
                             modes (Some s)
              else Some s in
            match r with
            | None => Aborted
            | Some s =>
                Applied (match m_fun op with
                         | Some f => call f unset s
                         | None => s
                         end)
            end
        | _ =>
            match setoperand_mode unset op s with
            | Some s => Applied s
            | None => Aborted
            end
        end
  end.

(* ------------------------------------------------------------------ *)
(** ** Name lookups (stty.c:509-549) *)

(** stty.c:509-516 *)
Definition baudtostr (baud : Z) : string :=
  match find (fun sp => s_speed sp =? baud) speeds with
  | Some sp => s_str sp
  | None => "0"
  end.

(** stty.c:518-525; [None] is the null pointer. *)
Definition linetostr (value : Z) : option string :=
  match find (fun ln => l_value ln =? value) lines with
  | Some ln => Some (l_str ln)
  | None => None
  end.

(** stty.c:539-549; [None] is return value -1. *)
Definition parsespeed (arg : string) : option struct_speed :=
  lookup s_str speeds arg.

(* ------------------------------------------------------------------ *)
(** ** Display helpers (stty.c:619-649 and the loop bodies of 692-716) *)

Definition chr (z : Z) : ascii := ascii_of_N (Z.to_N (z mod 256)).

Definition str1 (c : ascii) : string := String c EmptyString.

(** The line feed of the C strings. *)
Definition LF : string := str1 (chr 10).

(** [printf("%u", n)]. *)
Definition utoa (n : Z) : string := NilZero.string_of_uint (N.to_uint (Z.to_N n)).

(** stty.c:619-641; [None] stands for the [eprintf("snprintf:")] of the
    length guard on the five-byte buffer. *)
Definition keytostr (key : Z) : option string :=
  if key =? _POSIX_VDISABLE then Some "undef"
  else
    let r :=
      if key <? char_code " " then "^" ++ str1 (chr (key + char_code "@"))
      else if key <? 127 then str1 (chr key)
      else if key =? 127 then "^?"
      else if key <? 128 + char_code " "
           then "M-^" ++ str1 (chr (key - 128 + char_code "@"))
      else if key =? 128 + 127 then "M-^?"
      else "M-" ++ str1 (chr (key - 128)) in
    if strlen r >=? 5 then None else Some r.

(** stty.c:643-649, as a truth value. *)
Definition isdefault (flags : Z) : bool :=
  if nz (flags .& (SANE .| INSANE))
  then nz (flags .& SANE) || negb (nz (flags .& INSANE))
  else nz (flags .& DEF).

(** The tokens one turn of the loop of stty.c:697-716 hands to
    [printtoken]. *)
Definition display_mode (m : termios) (all : bool) (md : struct_mode)
  : list string :=
  let bitsp :=
    match m_type md with
    | CTRL  => Some w_cflag
    | IN    => Some w_iflag
    | OUT   => Some w_oflag
    | LOCAL => Some w_lflag
    | _     => None
    end in
  match bitsp with
  | None => []
  | Some w =>
      if nz (m_flags md .& DUP) then []
      else
        let mask := if nz (m_clear md) then m_clear md else m_set md in
        if (load w m .& mask) =? m_set md then
          if all || negb (isdefault (m_flags md)) then [m_op md] else []
        else if nz (m_flags md .& BOOL) then
          if all || isdefault (m_flags md) then ["-" ++ m_op md] else []
        else []
  end.

(** All tokens of the mode section, in catalog order. *)
Definition display_modes (m : termios) (all : bool) : list string :=
  flat_map (display_mode m all) modes.

(* ------------------------------------------------------------------ *)
(** ** The world outside the program

    The terminal driver and libc are not part of the repository; they are
    the fields of a [platform].  [Dev] is whatever the operating system
    keeps for the terminal on standard input and standard output. *)

Record winsize := mk_winsize {
  ws_row    : Z;
  ws_col    : Z;
  ws_xpixel : Z;
  ws_ypixel : Z
}.

(** What [strtoll(numstr, &ep, base)] leaves behind: the value, the offset
    of [ep] from [numstr], and whether [errno] is [ERANGE]. *)
Record strtoll_t := mk_strtoll {
  sl_value  : Z;
  sl_ep     : nat;
  sl_erange : bool
}.

Definition STDIN_FILENO  : Z := 0.
Definition STDOUT_FILENO : Z := 1.
Definition TCSANOW   : Z := 0.
Definition TCSADRAIN : Z := 1.
Definition LLONG_MAX : Z := 2 ^ 63 - 1.
Definition LLONG_MIN : Z := - 2 ^ 63.

Record platform := mk_platform {
  Dev : Type;
  (** [tcgetattr(STDIN_FILENO, &t)] into a zeroed [t]; [None] is failure. *)
  tcgetattr : Dev -> option termios;
  (** [tcsetattr(STDIN_FILENO, actions, &t)]. *)
  tcsetattr : Z -> termios -> Dev -> option Dev;
  (** [ioctl(fd, TIOCGWINSZ, &ws)]. *)
  tiocgwinsz : Z -> Dev -> option winsize;
  (** [ioctl(STDIN_FILENO, TIOCSWINSZ, &ws)]. *)
  tiocswinsz : winsize -> Dev -> option Dev;
  cfsetispeed : termios -> Z -> option termios;
  cfsetospeed : termios -> Z -> option termios;
  cfgetispeed : termios -> Z;
  cfgetospeed : termios -> Z;
  strtoll : string -> Z -> strtoll_t;
  (** [estrtonum(numstr, minval, maxval)] of util.h: the number, or the
      diagnostic it terminates the process with. *)
  estrtonum : string -> Z -> Z -> Z + string;
  (** [sizeof(struct termios)] and the object representation: the bytes
      of an object, and the object that [sizeof_termios] bytes are, with
      the bytes outside the members in [c_pad]. *)
  sizeof_termios : Z;
  to_bytes : termios -> list byte;
  of_bytes : list byte -> termios
}.

(** Calls that change the device, in the order they are made. *)
Inductive event :=
| ev_tcsetattr (actions : Z) (t : termios)
| ev_tiocswinsz (ws : winsize).

(** How a computation ends. *)
Inductive result (A : Type) :=
| Ret (a : A)
| Exit (status : Z)
| Abort
| Undefined.
Arguments Ret {A} a.
Arguments Exit {A} status.
Arguments Abort {A}.
Arguments Undefined {A}.

Section Program.

Variable P : platform.

(** The device, both output streams, the device-changing calls made so
    far, and the two static counters of [printtoken] (stty.c:579-580). *)
Record world := mk_world {
  dev    : Dev P;
  out    : string;
  err    : string;
  log    : list event;
  width  : Z;
  pos    : Z
}.

Definition M (A : Type) : Type := world -> result A * world.

Definition ret {A : Type} (a : A) : M A := fun w => (Ret a, w).

Definition bind {A B : Type} (c : M A) (k : A -> M B) : M B :=
  fun w =>
    match c w with
    | (Ret a, w') => k a w'
    | (Exit n, w') => (Exit n, w')
    | (Abort, w') => (Abort, w')
    | (Undefined, w') => (Undefined, w')
    end.

Notation "x <- c ;; k" := (bind c (fun x => k))
  (at level 61, c at next level, right associativity).
Notation "c ;;; k" := (bind c (fun _ => k))
  (at level 61, right associativity).

Definition printf (s : string) : M unit :=
  fun w => (Ret tt, mk_world (dev w) (out w ++ s) (err w) (log w)
                             (width w) (pos w)).

(** Modelled from the spec: [eprintf] of util.h is not among the sources.
    Every error of sections 6 and 7 ([InvalidOperand], [MissingArgument],
    a failed device call, [CommitVerificationFailed]) is "a single
    descriptive line written to standard error before exit" with a
    non-zero status; the line is the formatted message, the status is 1.
    (For a format that ends in a colon the text the C library has for
    [errno] is not modelled.)  The usage diagnostic, which the spec sets
    apart from these, is [usage] below. *)
Definition eprintf {A : Type} (msg : string) : M A :=
  fun w => (Exit 1, mk_world (dev w) (out w) (err w ++ msg) (log w)
                             (width w) (pos w)).

Definition abort {A : Type} : M A := fun w => (Abort, w).
Definition undefined {A : Type} : M A := fun w => (Undefined, w).

Definition get_dev : M (Dev P) := fun w => (Ret (dev w), w).

Definition note (e : event) : M unit :=
  fun w => (Ret tt, mk_world (dev w) (out w) (err w) ((log w) ++ [e])%list
                             (width w) (pos w)).

Definition get_width : M Z := fun w => (Ret (width w), w).
Definition get_pos : M Z := fun w => (Ret (pos w), w).
Definition set_width (v : Z) : M unit :=
  fun w => (Ret tt, mk_world (dev w) (out w) (err w) (log w) v (pos w)).
Definition set_pos (v : Z) : M unit :=
  fun w => (Ret tt, mk_world (dev w) (out w) (err w) (log w) (width w) v).

(** stty.c:356-368 *)
Definition setwinsize (y x : Z) : M unit :=
  d <- get_dev ;;
  match tiocgwinsz P STDIN_FILENO d with
  | None => eprintf "TIOCGWINSZ <stdin>:"
  | Some ws =>
      let ws := if y >=? 0
                then mk_winsize (y mod 65536) (ws_col ws)
                                (ws_xpixel ws) (ws_ypixel ws)
                else ws in
      let ws := if x >=? 0
                then mk_winsize (ws_row ws) (x mod 65536)
                                (ws_xpixel ws) (ws_ypixel ws)
                else ws in
      note (ev_tiocswinsz ws) ;;;
      match tiocswinsz P ws d with
      | None => eprintf "TIOCSWINSZ <stdin>:"
      | Some d' => fun w => (Ret tt, mk_world d' (out w) (err w) (log w)
                                              (width w) (pos w))
      end
  end.

(** [estrtonum] with its fatal branch routed through [eprintf]. *)
Definition e_strtonum (arg : string) (lo hi : Z) : M Z :=
  match estrtonum P arg lo hi with
  | inl n => ret n
  | inr msg => eprintf msg
  end.

(** stty.c:447-461 *)
Definition estrtonum_anyradix (numstr : string) (minval maxval : Z) : M Z :=
  let r := strtoll P numstr 0 in
  let ll := sl_value r in
  if (sl_ep r =? 0)%nat
     || negb (Ascii.eqb (char_at numstr (sl_ep r)) zero)
  then eprintf ("strtoll " ++ numstr ++ ": invalid" ++ LF)
  else if ((ll =? LLONG_MIN) && sl_erange r) || (ll <? minval)
  then eprintf ("strtoll " ++ numstr ++ ": too small" ++ LF)
  else if ((ll =? LLONG_MAX) && sl_erange r) || (ll >? maxval)
  then eprintf ("strtoll " ++ numstr ++ ": too large" ++ LF)
  else ret ll.

(** stty.c:463-490; [None] is return value -1. *)
Definition parseoperand_key (arg0 : string) (arg1 : option string)
  (m : termios) : M (option termios) :=
  match lookup k_op keys arg0 with
  | None => ret None
  | Some op =>
      match arg1 with
      | None => eprintf ("missing argument for operand: " ++ arg0 ++ LF)
      | Some arg1 =>
          value <-
            (if String.eqb arg1 "^-" || String.eqb arg1 "undef"
             then ret _POSIX_VDISABLE
             else if String.eqb arg1 "^?" then ret 127
             else if Ascii.eqb (char_at arg1 0) zero
                     || Ascii.eqb (char_at arg1 1) zero
             then ret (to_cc (char_code (char_at arg1 0)))
             else if Ascii.eqb (char_at arg1 0) "^"
             then ret (to_cc (char_code (char_at arg1 1) .& Z.lnot 0x60))
             else v <- estrtonum_anyradix arg1 0 CC_MAX ;; ret (to_cc v)) ;;
          ret (Some (set_cc (k_index op) value m))
      end
  end.

(** stty.c:100-103 *)
Definition cols (arg : string) (m : termios) : M termios :=
  n <- e_strtonum arg 0 USHRT_MAX ;; setwinsize (-1) n ;;; ret m.

Definition min (arg : string) (m : termios) : M termios :=
  n <- e_strtonum arg 0 CC_MAX ;; ret (set_cc VMIN (to_cc n) m).

Definition rows (arg : string) (m : termios) : M termios :=
  n <- e_strtonum arg 0 USHRT_MAX ;; setwinsize n (-1) ;;; ret m.

Definition stime (arg : string) (m : termios) : M termios :=
  n <- e_strtonum arg 0 CC_MAX ;; ret (set_cc VTIME (to_cc n) m).

(** stty.c:551-556 *)
Definition eparsespeed (arg : string) : M struct_speed :=
  match parsespeed arg with
  | None => eprintf ("invalid speed parameter: " ++ arg ++ LF)
  | Some sp => ret sp
  end.

(** stty.c:558-565 *)
Definition ispeed (arg : string) (m : termios) : M termios :=
  sp <- eparsespeed arg ;;
  match cfsetispeed P m (s_speed sp) with
  | None => eprintf ("cfsetispeed " ++ s_str sp ++ ":")
  | Some m' => ret m'
  end.

(** stty.c:567-574 *)
Definition ospeed (arg : string) (m : termios) : M termios :=
  sp <- eparsespeed arg ;;
  match cfsetospeed P m (s_speed sp) with
  | None => eprintf ("cfsetospeed " ++ s_str sp ++ ":")
  | Some m' => ret m'
  end.

(** stty.c:278-287; the setters are named by an enumeration. *)
Inductive intfun := fi_cols | fi_min | fi_rows | fi_stime | fi_ispeed | fi_ospeed.

Record struct_intvalued := mk_intvalued {
  i_op  : string;
  i_fun : intfun
}.

Definition ints : list struct_intvalued := [
  mk_intvalued "cols"    fi_cols;
  mk_intvalued "columns" fi_cols;
  mk_intvalued "min"     fi_min;
  mk_intvalued "rows"    fi_rows;
  mk_intvalued "time"    fi_stime;
  mk_intvalued "ispeed"  fi_ispeed;
  mk_intvalued "ospeed"  fi_ospeed
].

Definition call_int (f : intfun) (arg : string) (m : termios) : M termios :=
  match f with
  | fi_cols   => cols arg m
  | fi_min    => min arg m
  | fi_rows   => rows arg m
  | fi_stime  => stime arg m
  | fi_ispeed => ispeed arg m
  | fi_ospeed => ospeed arg m
  end.

(** stty.c:492-507 *)
Definition parseoperand_int (arg0 : string) (arg1 : option string)
  (m : termios) : M (option termios) :=
  match lookup i_op ints arg0 with
  | None => ret None
  | Some op =>
      match arg1 with
      | None => eprintf ("missing argument for operand: " ++ arg0 ++ LF)
      | Some arg1 => m' <- call_int (i_fun op) arg1 m ;; ret (Some m')
      end
  end.

(** stty.c:527-537; [c_line] is an unsigned char. *)
Definition line (arg : string) (m : termios) : M termios :=
  match lookup l_str lines arg with
  | Some ln => ret (set_line (l_value ln) m)
  | None => n <- e_strtonum arg 0 255 ;; ret (set_line (to_cc n) m)
  end.

(** [size_t] arithmetic. *)
Definition wrap_size (x : Z) : Z := x mod 2 ^ 64.

(** stty.c:585-592 *)
Definition printtoken_width : M unit :=
  wd <- get_width ;;
  if nz wd then ret tt
  else
    d <- get_dev ;;
    let wd := match tiocgwinsz P STDOUT_FILENO d with
              | Some ws => if ws_col ws >? 40 then ws_col ws else wd
              | None => wd
              end in
    set_width (if nz wd then wd else SIZE_MAX).

(** [printtoken("\n")], stty.c:585-599. *)
Definition printtoken_break : M unit :=
  printtoken_width ;;;
  p <- get_pos ;;
  (if nz p then printf LF else ret tt) ;;;
  set_pos 0.

(** [printtoken] with any other format; [tok] is the formatted text
    (stty.c:585-592 and 601-616). *)
Definition printtoken (tok : string) : M unit :=
  printtoken_width ;;;
  let len := strlen tok in
  if (len <? 0) || (len >=? BUFSIZ) then eprintf "vsnprintf:"
  else
    p <- get_pos ;;
    wd <- get_width ;;
    (if wrap_size (p + b2z (nz p) + len) >? wd
     then printf LF ;;; set_pos 0
     else if nz p then printf " " ;;; set_pos (wrap_size (p + 1))
     else ret tt) ;;;
    printf tok ;;;
    p <- get_pos ;;
    set_pos (wrap_size (p + len)).

Fixpoint for_each {A : Type} (f : A -> M unit) (l : list A) : M unit :=
  match l with
  | [] => ret tt
  | a :: t => f a ;;; for_each f t
  end.

(** The body of the loop of stty.c:692-694. *)
Definition display_key (m : termios) (all : bool) (kbd : struct_key) : M unit :=
  if all || negb (cc m (k_index kbd) =? k_sanevalue kbd) then
    match keytostr (cc m (k_index kbd)) with
    | None => eprintf "snprintf:"
    | Some str => printtoken (k_op kbd ++ " = " ++ str ++ ";")
    end
  else ret tt.

(** stty.c:651-718 *)
Definition displaysettings (m : termios) (all : bool) : M unit :=
  let in_ := cfgetispeed P m in
  let out_ := cfgetospeed P m in
  (if negb (nz in_) || (in_ =? out_) then
     if all || negb (out_ =? B38400)
     then printtoken ("speed " ++ baudtostr out_ ++ " baud;")
     else ret tt
   else
     printtoken ("ispeed " ++ baudtostr in_ ++ " baud;") ;;;
     printtoken ("ospeed " ++ baudtostr out_ ++ " baud;")) ;;;
  (if all then
     d <- get_dev ;;
     match tiocgwinsz P STDIN_FILENO d with
     | None => eprintf "TIOCGWINSZ <stdin>:"
     | Some ws =>
         printtoken ("rows " ++ utoa (ws_row ws) ++ ";") ;;;
         printtoken ("columns " ++ utoa (ws_col ws) ++ ";")
     end
   else ret tt) ;;;
  printtoken_break ;;;
  (if all || nz (c_line m) then
     match linetostr (c_line m) with
     | Some linestr => printtoken ("line = " ++ linestr ++ ";")
     | None => printtoken ("line = " ++ utoa (c_line m) ++ ";")
     end
   else ret tt) ;;;
  (if all || (negb (cc m VMIN =? 1) && negb (nz (c_lflag m .& ICANON)))
   then printtoken ("min = " ++ utoa (cc m VMIN) ++ ";") else ret tt) ;;;
  (if all || (negb (cc m VTIME =? 0) && negb (nz (c_lflag m .& ICANON)))
   then printtoken ("time = " ++ utoa (cc m VTIME) ++ ";") else ret tt) ;;;
  printtoken_break ;;;
  for_each (display_key m all) keys ;;;
  printtoken_break ;;;
  for_each printtoken (display_modes m all) ;;;
  printtoken_break.

(* ------------------------------------------------------------------ *)
(** ** [main] (stty.c:720-830) *)

(** Modelled from the spec: [usage] (stty.c:720-724) is one call of the
    [eprintf] of util.h, which is not among the sources.  Of this call
    section 6 says that it is "a usage error to standard error" which
    "does not itself abort", and section 9 that the program "continues
    executing rather than aborting immediately": the line is written to
    standard error and the call returns. *)
Definition usage (argv0 : string) : M unit :=
  fun w => (Ret tt,
            mk_world (dev w) (out w)
                     (err w ++ "usage: " ++ argv0
                            ++ " [-a | -g] [operand ...]" ++ LF)
                     (log w) (width w) (pos w)).

(** The flag loop of stty.c:740-753 over [argv + 1]: the two flags and the
    operands that remain ([argc] is their number). *)
Fixpoint flags (argv : list string) (aflag gflag : Z) : Z * Z * list string :=
  match argv with
  | [] => (aflag, gflag, [])
  | a :: rest =>
      if String.eqb a "-ag" || String.eqb a "-ga" then flags rest 1 1
      else if String.eqb a "-g" then flags rest aflag 1
      else if String.eqb a "-a" then flags rest 1 gflag
      else if String.eqb a "--" then (aflag, gflag, rest)
      else (aflag, gflag, argv)
  end.

Definition with_mode (m : termios) (s : st) : st := on_mode (fun _ => m) s.

(** The label [invalid] of stty.c:828-829. *)
Definition invalid {A : Type} (arg : string) : M A :=
  eprintf ("invalid operand: " ++ arg ++ LF).

(** The body of the loop of stty.c:763-788 at [argv[0] = a],
    [argv[1] = arg1]; the flag of the result tells whether the body advanced
    [argv] once more.  A raw literal overwrites the whole object
    (stty.c:768): the working copy becomes the object the decoded bytes
    are, padding included. *)
Definition operand (a : string) (arg1 : option string) (s : st)
  : M (st * bool) :=
  if Ascii.eqb (char0 a) "=" then
    let p := next a in
    if negb (strlen p =? sizeof_termios P * 2) || negb (isxnumber p)
    then invalid a
    else
      match decodehex (to_bytes P (mode s)) p with
      | Some img => ret (with_mode (of_bytes P img) s, false)
      | None => undefined
      end
  else
    match parseoperand_mode a s with
    | Applied s' => ret (s', false)
    | Aborted => abort
    | NoMatch =>
        r <- parseoperand_key a arg1 (mode s) ;;
        match r with
        | Some m' => ret (with_mode m' s, true)
        | None =>
            r <- parseoperand_int a arg1 (mode s) ;;
            match r with
            | Some m' => ret (with_mode m' s, true)
            | None =>
                if String.eqb a "line" then
                  match arg1 with
                  | None =>
                      eprintf ("missing argument for operand: " ++ a ++ LF)
                  | Some b =>
                      m' <- line b (mode s) ;; ret (with_mode m' s, true)
                  end
                else
                  match parsespeed a with
                  | Some sp =>
                      match cfsetispeed P (mode s) (s_speed sp) with
                      | None => eprintf ("cfsetispeed " ++ s_str sp ++ ":")
                      | Some m1 =>
                          match cfsetospeed P m1 (s_speed sp) with
                          | None =>
                              eprintf ("cfsetospeed " ++ s_str sp ++ ":")
                          | Some m2 => ret (with_mode m2 s, false)
                          end
                      end
                  | None => invalid a
                  end
            end
        end
    end.

(** The loop of stty.c:763-788.  A body that advanced [argv] with nothing
    behind it would leave the argument vector; it never does, because a
    missing value ends the process first. *)
Fixpoint operands (argv : list string) (s : st) : M st :=
  match argv with
  | [] => ret s
  | a :: rest =>
      r <- operand a (hd_error rest) s ;;
      match r with
      | (s', false) => operands rest s'
      | (s', true) =>
          match rest with
          | _ :: rest' => operands rest' s'
          | [] => undefined
          end
      end
  end.

(** [memcmp(a, b, n) != 0] on two object representations. *)
Fixpoint differ (a b : list byte) : bool :=
  match a, b with
  | [], [] => false
  | x :: a', y :: b' => negb (Byte.eqb x y) || differ a' b'
  | _, _ => true
  end.

(** stty.c:790-798 *)
Definition commit (s : st) (mode2 : termios) : M unit :=
  if differ (to_bytes P (mode s)) (to_bytes P mode2) then
    let actions := if nz (drain_requested s) then TCSADRAIN else TCSANOW in
    d <- get_dev ;;
    note (ev_tcsetattr actions (mode s)) ;;;
    match tcsetattr P actions (mode s) d with
    | None => eprintf "tcsetattr <stdin>:"
    | Some d' =>
        (fun w => (Ret tt, mk_world d' (out w) (err w) (log w)
                                    (width w) (pos w))) ;;;
        match tcgetattr P d' with
        | None => eprintf "tcgetattr <stdin>:"
        | Some mode2 =>
            if differ (to_bytes P (mode s)) (to_bytes P mode2)
            then eprintf ("tcsetattr <stdin>: unable to apply all operands"
                          ++ LF)
            else ret tt
        end
    end
  else ret tt.

(** stty.c:726-830; [argv0] is [argv[0]], [args] the rest of the vector,
    the result is the value [main] returns. *)
Definition main (argv0 : string) (args : list string) : M Z :=
  let '(aflag, gflag, argv) := flags args 0 0 in
  (if nz aflag && nz gflag then usage argv0 else ret tt) ;;;
  d <- get_dev ;;
  match tcgetattr P d with
  | None => eprintf "tcgetattr <stdin>:"
  | Some mode0 =>
      s <- operands argv (mk_st 0 0 1 mode0) ;;
      commit s mode0 ;;;
      (if nz gflag
       then printf "=" ;;; printf (encodehex (to_bytes P (mode s))) ;;;
            printf LF
       else ret tt) ;;;
      (if nz (output_size_requested s) then
         d <- get_dev ;;
         match tiocgwinsz P STDIN_FILENO d with
         | None => eprintf "TIOCGWINSZ <stdin>:"
         | Some ws =>
             printf (utoa (ws_row ws) ++ " " ++ utoa (ws_col ws) ++ LF)
         end
       else ret tt) ;;;
      (if nz (output_speed_requested s) then
         let in_ := cfgetispeed P (mode s) in
         let out_ := cfgetospeed P (mode s) in
         if negb (nz in_) || (in_ =? out_)
         then printf (baudtostr out_ ++ LF)
         else printf (baudtostr in_ ++ " " ++ baudtostr out_ ++ LF)
       else ret tt) ;;;
      (if (nz aflag || (Z.of_nat (List.length argv) =? 0)) && negb (nz gflag)
       then displaysettings (mode s) (nz aflag)
       else ret tt) ;;;
      ret 0
  end.

End Program.

Arguments ret {P A} a.
Arguments bind {P A B} c k.
Arguments eprintf {P A} msg.
Arguments mk_world {P}.
Arguments dev {P}.
Arguments out {P}.
Arguments err {P}.
Arguments log {P}.
Arguments width {P}.
Arguments pos {P}.

(* ------------------------------------------------------------------ *)
(** ** A simulated terminal

    One instance of [platform] on which the program can be run: a driver
    that stores the members it is given (the padding of the caller's object
    does not reach it), two independent speed fields, the Linux layout of
    [struct termios] (four 32-bit words, the line byte, [NCCS] control
    characters, three bytes of padding, two 32-bit speeds, little endian),
    and a [strtoll] for C integer literals. *)

Record tty := mk_tty {
  tty_termios : termios;
  tty_winsize : winsize
}.

Definition le32 (x : Z) : list byte :=
  [byte_of_Z x; byte_of_Z (Z.shiftr x 8); byte_of_Z (Z.shiftr x 16);
   byte_of_Z (Z.shiftr x 24)].

Fixpoint un_le (bs : list byte) : Z :=
  match bs with
  | [] => 0
  | b :: t => Z_of_byte b + 256 * un_le t
  end.

Definition pad_cc (l : list Z) : list Z :=
  firstn NCCS (l ++ repeat 0 NCCS)%list.

Definition pad3 (l : list byte) : list byte :=
  firstn 3 (l ++ [x00; x00; x00])%list.

Definition sim_to_bytes (m : termios) : list byte :=
  (le32 (c_iflag m) ++ le32 (c_oflag m) ++ le32 (c_cflag m)
   ++ le32 (c_lflag m) ++ [byte_of_Z (c_line m)]
   ++ map byte_of_Z (pad_cc (c_cc m)) ++ pad3 (c_pad m)
   ++ le32 (c_ispeed m) ++ le32 (c_ospeed m))%list.

Definition slice (from len : nat) (bs : list byte) : list byte :=
  firstn len (skipn from bs).

Definition sim_of_bytes (bs : list byte) : termios :=
  mk_termios (un_le (slice 0 4 bs)) (un_le (slice 4 4 bs))
             (un_le (slice 8 4 bs)) (un_le (slice 12 4 bs))
             (un_le (slice 16 1 bs)) (map Z_of_byte (slice 17 32 bs))
             (un_le (slice 52 4 bs)) (un_le (slice 56 4 bs))
             (slice 49 3 bs).

Definition isspace (c : ascii) : bool :=
  let n := char_code c in (n =? 32) || ((9 <=? n) && (n <=? 13)).

Definition digit_value (c : ascii) : Z :=
  let n := char_code c in
  if (48 <=? n) && (n <=? 57) then n - 48
  else if (97 <=? n) && (n <=? 122) then n - 97 + 10
  else if (65 <=? n) && (n <=? 90) then n - 65 + 10
  else 99.

(** Digits of [s] in [base], from offset [off]: the value and the offset
    behind the last digit. *)
Fixpoint scan_digits (base : Z) (s : string) (acc : Z) (off : nat) : Z * nat :=
  match s with
  | EmptyString => (acc, off)
  | String c t =>
      if digit_value c <? base
      then scan_digits base t (acc * base + digit_value c) (S off)
      else (acc, off)
  end.

Fixpoint skip_space (s : string) (off : nat) : string * nat :=
  match s with
  | String c t => if isspace c then skip_space t (S off) else (s, off)
  | EmptyString => (s, off)
  end.

Definition clamp_ll (v : Z) : strtoll_t -> strtoll_t :=
  fun r =>
    if v >? LLONG_MAX then mk_strtoll LLONG_MAX (sl_ep r) true
    else if v <? LLONG_MIN then mk_strtoll LLONG_MIN (sl_ep r) true
    else r.

Definition sim_strtoll (numstr : string) (base : Z) : strtoll_t :=
  let '(s, off) := skip_space numstr 0 in
  let '(neg, s, off) :=
    if Ascii.eqb (char0 s) "-" then (true, next s, S off)
    else if Ascii.eqb (char0 s) "+" then (false, next s, S off)
    else (false, s, off) in
  let hex := Ascii.eqb (char0 s) "0"
             && (Ascii.eqb (char_at s 1) "x" || Ascii.eqb (char_at s 1) "X")
             && (digit_value (char_at s 2) <? 16)
             && ((base =? 0) || (base =? 16)) in
  let '(base, s, off0) :=
    if hex then (16, next (next s), S (S off))
    else if (base =? 0) && Ascii.eqb (char0 s) "0" then (8, s, off)
    else if base =? 0 then (10, s, off)
    else (base, s, off) in
  let '(v, ep) := scan_digits base s 0 off0 in
  if (ep =? off0)%nat then mk_strtoll 0 0 false
  else
    let v := if neg then - v else v in
    clamp_ll v (mk_strtoll v ep false).

Definition sim_estrtonum (numstr : string) (minval maxval : Z) : Z + string :=
  let r := sim_strtoll numstr 10 in
  if (sl_ep r =? 0)%nat || negb (Ascii.eqb (char_at numstr (sl_ep r)) zero)
  then inr ("strtonum " ++ numstr ++ ": invalid" ++ LF)
  else if sl_value r <? minval
  then inr ("strtonum " ++ numstr ++ ": too small" ++ LF)
  else if sl_value r >? maxval
  then inr ("strtonum " ++ numstr ++ ": too large" ++ LF)
  else inl (sl_value r).

Definition sim : platform :=
  mk_platform tty
    (fun d => Some (tty_termios d))
    (fun _ t d => Some (mk_tty (set_pad [] t) (tty_winsize d)))
    (fun _ d => Some (tty_winsize d))
    (fun ws d => Some (mk_tty (tty_termios d) ws))
    (fun m sp => Some (mk_termios (c_iflag m) (c_oflag m) (c_cflag m)
                                  (c_lflag m) (c_line m) (c_cc m)
                                  sp (c_ospeed m) (c_pad m)))
    (fun m sp => Some (mk_termios (c_iflag m) (c_oflag m) (c_cflag m)
                                  (c_lflag m) (c_line m) (c_cc m)
                                  (c_ispeed m) sp (c_pad m)))
    c_ispeed
    c_ospeed
    sim_strtoll
    sim_estrtonum
    60
    sim_to_bytes
    sim_of_bytes.

(** A terminal with every flag word clear and every control character
    NUL (an object of zero bytes), 24 rows by 80 columns, and the process
    streams still empty. *)
Definition zero_termios : termios :=
  mk_termios 0 0 0 0 0 (repeat 0 NCCS) 0 0 [].

Definition zero_st : st := mk_st 0 0 1 zero_termios.

Definition sim_world (m : termios) : world sim :=
  mk_world (P := sim) (mk_tty m (mk_winsize 24 80 0 0)) "" "" [] 0 0.

(* ------------------------------------------------------------------ *)
(** ** Vocabulary of the statements *)

(** The operand classes of the resolver, as predicates on one token. *)
Definition mode_class (a : string) : bool :=
  let unset := is_minus a in
  match lookup m_op modes (if unset then next a else a) with
  | None => false
  | Some op => negb (unset && negb (nz (m_flags op .& BOOL)))
  end.

Definition is_some {A : Type} (o : option A) : bool :=
  match o with Some _ => true | None => false end.

(** A token of no class: not a raw state literal, not a mode, key or
    integer-valued operand, not [line], not a speed. *)
Definition no_class (a : string) : bool :=
  negb (Ascii.eqb (char0 a) "=")
  && negb (mode_class a)
  && negb (is_some (lookup k_op keys a))
  && negb (is_some (lookup i_op ints a))
  && negb (String.eqb a "line")
  && negb (is_some (parsespeed a)).

(** A call that commits attributes to the device. *)
Definition is_commit (e : event) : bool :=
  match e with
  | ev_tcsetattr _ _ => true
  | ev_tiocswinsz _ => false
  end.

(** A catalog entry that addresses one of the four flag words. *)
Definition flag_entry (op : struct_mode) : bool :=
  match m_type op with
  | CTRL | IN | OUT | LOCAL => true
  | COMB | SPEC => false
  end.

Definition tagged (tag : Z) (op : struct_mode) : bool := nz (m_flags op .& tag).

(** An entry is mentioned in a list of display tokens under its name or
    under its hyphenated name. *)
Definition mentioned (op : struct_mode) (toks : list string) : Prop :=
  In (m_op op) toks \/ In ("-" ++ m_op op) toks.

(** The last entry of the speed catalog that denotes [baud]. *)
Definition last_listed (baud : Z) : option string :=
  match find (fun sp => s_speed sp =? baud) (rev speeds) with
  | Some sp => Some (s_str sp)
  | None => None
  end.

(** The flag mutation as section 4.4 words it: clear the clear-bits, then
    OR in the set-bits for the set polarity or AND them out for the unset
    polarity. *)
Definition spec_mutation (unset : bool) (set_bits clear_bits bits : Z) : Z :=
  let cleared := bits .& not32 clear_bits in
  if unset then cleared .& not32 set_bits else cleared .| set_bits.

(** A 32-bit flag word. *)
Definition word32 (x : Z) : Prop := 0 <= x < 2 ^ 32.

(** The calls of [setoperand_mode] that one turn of the propagation loop
    makes, as (polarity, entry) pairs, and the loop run from such a list. *)
Definition plan_step (unset : bool) (flags_set flags_unset : Z)
  (op : struct_mode) : list (bool * struct_mode) :=
  match m_type op with
  | COMB => []
  | _ =>
      ((if nz flags_unset && nz (m_flags op .& flags_unset)
        then [(negb unset, op)] else [])
       ++ (if nz flags_set && nz (m_flags op .& flags_set)
           then [(unset, op)] else []))%list
  end.

Definition run_plan (acc : option st) (p : bool * struct_mode) : option st :=
  match acc with
  | None => None
  | Some s => setoperand_mode (fst p) (snd p) s
  end.

(** The test of stty.c:707-708 on the word an entry addresses. *)
Definition holds (m : termios) (op : struct_mode) : bool :=
  match bitsp_of (m_type op) with
  | Some (Some w) =>
      (load w m .& (if nz (m_clear op) then m_clear op else m_set op))
      =? m_set op
  | _ => false
  end.

(** From [w] to [w1] nothing was written to either stream, the counters of
    [printtoken] are as they were, and the calls made on the way commit no
    attributes. *)
Definition quiet {P : platform} (w w1 : world P) : Prop :=
  out w1 = out w /\ err w1 = err w
  /\ width w1 = width w /\ pos w1 = pos w
  /\ exists evs, log w1 = (log w ++ evs)%list
                 /\ forallb (fun e => negb (is_commit e)) evs = true.

(* ------------------------------------------------------------------ *)
(** ** Vocabulary of the further properties *)

(** The control characters of a [struct termios]: [NCCS] bytes. *)
Definition cc_ok (l : list Z) : Prop :=
  List.length l = NCCS /\ Forall (fun v => 0 <= v < 256) l.

(** A working copy whose members fit their C types. *)
Definition wf_termios (m : termios) : Prop :=
  word32 (c_iflag m) /\ word32 (c_oflag m) /\ word32 (c_cflag m)
  /\ word32 (c_lflag m) /\ cc_ok (c_cc m).

(** The effect of one planned call on the working copy, for an entry
    without a routine. *)
Definition plain_step (p : bool * struct_mode) (m : termios) : termios :=
  match bitsp_of (m_type (snd p)) with
  | Some (Some w) =>
      save w (spec_mutation (fst p) (m_set (snd p)) (m_clear (snd p))
                            (load w m)) m
  | _ => m
  end.

Definition apply_plan (p : list (bool * struct_mode)) (m : termios) : termios :=
  fold_left (fun m e => plain_step e m) p m.

(** A plan made of catalog entries that address a flag word (they carry
    no routine). *)
Definition plain_plan (p : list (bool * struct_mode)) : Prop :=
  Forall (fun e => In (snd e) modes /\ flag_entry (snd e) = true) p.

(** What a plan does to the word [w], as a pair (keep, force): the word
    [b] becomes [(b & keep) | force]. *)
Definition kt_step (w : flagword) (kt : Z * Z) (p : bool * struct_mode)
  : Z * Z :=
  match bitsp_of (m_type (snd p)) with
  | Some (Some w') =>
      if match w, w' with
         | w_cflag, w_cflag | w_iflag, w_iflag
         | w_oflag, w_oflag | w_lflag, w_lflag => true
         | _, _ => false
         end
      then
        let a := if fst p
                 then not32 (m_clear (snd p)) .& not32 (m_set (snd p))
                 else not32 (m_clear (snd p)) in
        let b := if fst p then 0 else m_set (snd p) in
        (fst kt .& a, (snd kt .& a) .| b)
      else kt
  | _ => kt
  end.

Definition summary (w : flagword) (p : list (bool * struct_mode)) : Z * Z :=
  fold_left (kt_step w) p (-1, 0).

Definition apply_kt (kt : Z * Z) (b : Z) : Z := (b .& fst kt) .| snd kt.

(** The plan of the [sane] combination. *)
Definition sane_plan : list (bool * struct_mode) :=
  flat_map (plan_step false SANE INSANE) modes.

(** The mask of stty.c:707. *)
Definition display_mask (op : struct_mode) : Z :=
  if nz (m_clear op) then m_clear op else m_set op.

(** For one catalog entry and the (keep, force) pair of its word: the
    masked word does not depend on the state before, and what it is makes
    the default display print nothing for the entry. *)
Definition silent_after (kt : flagword -> Z * Z) (op : struct_mode) : bool :=
  match bitsp_of (m_type op) with
  | Some (Some w) =>
      let k := fst (kt w) in
      let t := snd (kt w) in
      ((k .& Z.lnot t .& display_mask op) =? 0)
      && (if (t .& display_mask op) =? m_set op
          then isdefault (m_flags op)
          else negb (tagged BOOL op && isdefault (m_flags op)))
  | _ => true
  end.

(** The tokens the flag loop of [main] consumes. *)
Definition sets_a (t : string) : bool :=
  String.eqb t "-a" || String.eqb t "-ag" || String.eqb t "-ga".

Definition sets_g (t : string) : bool :=
  String.eqb t "-g" || String.eqb t "-ag" || String.eqb t "-ga".

Definition flag_token (t : string) : bool := sets_a t || sets_g t.

(** A computation keeps the relation [R] between the world it starts in
    and the world it ends in, however it ends. *)
Definition always {P : platform} {A : Type}
  (R : world P -> world P -> Prop) (c : M P A) : Prop :=
  forall w, R w (snd (c w)).

(** The device and the record of device-changing calls are as before. *)
Definition untouched {P : platform} (w w' : world P) : Prop :=
  dev w' = dev w /\ log w' = log w.

(** The calls made in between commit no attributes. *)
Definition calm {P : platform} (w w' : world P) : Prop :=
  exists evs, log w' = (log w ++ evs)%list
              /\ forallb (fun e => negb (is_commit e)) evs = true.

(** The part of [main] behind the commit, stty.c:800-826, under a name of
    its own. *)
Definition report (P : platform) (aflag gflag : Z) (argv : list string)
  (s : st) : M P Z :=
  bind (if nz gflag
        then bind (printf P "=")
               (fun _ => bind (printf P (encodehex (to_bytes P (mode s))))
                           (fun _ => printf P LF))
        else ret tt)
    (fun _ =>
       bind (if nz (output_size_requested s)
             then bind (get_dev P)
                    (fun d =>
                       match tiocgwinsz P STDIN_FILENO d with
                       | None => eprintf "TIOCGWINSZ <stdin>:"
                       | Some ws =>
                           printf P (utoa (ws_row ws) ++ " "
                                     ++ utoa (ws_col ws) ++ LF)
                       end)
             else ret tt)
         (fun _ =>
            bind (if nz (output_speed_requested s)
                  then
                    if negb (nz (cfgetispeed P (mode s)))
                       || (cfgetispeed P (mode s) =? cfgetospeed P (mode s))
                    then printf P (baudtostr (cfgetospeed P (mode s)) ++ LF)
                    else printf P (baudtostr (cfgetispeed P (mode s)) ++ " "
                                   ++ baudtostr (cfgetospeed P (mode s))
                                   ++ LF)
                  else ret tt)
              (fun _ =>
                 bind (if (nz aflag || (Z.of_nat (List.length argv) =? 0))
                          && negb (nz gflag)
                       then displaysettings P (mode s) (nz aflag)
                       else ret tt)
                   (fun _ => ret 0)))).

(** A terminal whose driver accepts every [tcsetattr] and changes
    nothing. *)
Definition sim_rigid : platform :=
  mk_platform tty
    (tcgetattr sim)
    (fun _ _ d => Some d)
    (tiocgwinsz sim) (tiocswinsz sim)
    (cfsetispeed sim) (cfsetospeed sim) (cfgetispeed sim) (cfgetospeed sim)
    (strtoll sim) (estrtonum sim)
    (sizeof_termios sim) (to_bytes sim) (of_bytes sim).

Definition rigid_world (m : termios) : world sim_rigid :=
  mk_world (P := sim_rigid) (mk_tty m (mk_winsize 24 80 0 0)) "" "" [] 0 0.

(** ASCII lower case of a letter, as [tolower] in the C locale. *)
Definition lower (c : ascii) : ascii :=
  let n := char_code c in
  if (65 <=? n) && (n <=? 90) then chr (n + 32) else c.

Fixpoint lower_string (s : string) : string :=
  match s with
  | EmptyString => EmptyString
  | String c t => String (lower c) (lower_string t)
  end.

(** Reading a text from the left with the pair (length of the line being
    written, length of the longest line already ended). *)
Fixpoint scan (s : string) (acc : Z * Z) : Z * Z :=
  match s with
  | EmptyString => acc
  | String c t =>
      if Ascii.eqb c (chr 10)
      then scan t (0, Z.max (snd acc) (fst acc))
      else scan t (fst acc + 1, snd acc)
  end.

(** No line of the text is longer than [W], and [p] is the length of its
    last line. *)
Definition within (W p : Z) (text : string) : Prop :=
  fst (scan text (0, 0)) = p /\ p <= W /\ snd (scan text (0, 0)) <= W.

Fixpoint no_break (s : string) : bool :=
  match s with
  | EmptyString => true
  | String c t => negb (Ascii.eqb c (chr 10)) && no_break t
  end.

(** A token [printtoken] can place on a line of width [W]. *)
Definition fits (W : Z) (tok : string) : bool :=
  no_break tok && (strlen tok <=? W) && (strlen tok <? BUFSIZ).

(** The output requests made in [s] are still made in [s'], and, when [D]
    holds, so is the request to drain. *)
Definition held (D : Prop) (s s' : st) : Prop :=
  (output_size_requested s = 1 -> output_size_requested s' = 1)
  /\ (output_speed_requested s = 1 -> output_speed_requested s' = 1)
  /\ (D -> drain_requested s = 1 -> drain_requested s' = 1).

Definition is_drain (op : struct_mode) : bool :=
  match m_fun op with
  | Some fn_drain => true
  | _ => false
  end.

(** What a mode operand may change: the four flag words and the control
    characters, within their C types; nothing else of the working copy. *)
Definition kept (m m' : termios) : Prop :=
  (wf_termios m -> wf_termios m')
  /\ List.length (c_cc m') = List.length (c_cc m)
  /\ c_line m' = c_line m
  /\ c_ispeed m' = c_ispeed m
  /\ c_ospeed m' = c_ospeed m.

(** The control characters after [sane] (stty.c:322-331). *)
Definition sane_cc (a : list Z) : list Z :=
  store VTIME 0
    (store VMIN 1
       (fold_left (fun a op => store (k_index op) (k_sanevalue op) a) keys a)).

(** The tokens of [toks] one after the other, each behind its separator
    of [seps]. *)
Fixpoint joined (seps toks : list string) : string :=
  match seps, toks with
  | sep :: seps', tok :: toks' => sep ++ tok ++ joined seps' toks'
  | _, _ => EmptyString
  end.

(** What [printtoken] puts before a token: nothing, one space or one line
    feed. *)
Definition is_sep (s : string) : bool :=
  String.eqb s "" || String.eqb s " " || String.eqb s LF.

(** The object representation of the platform is exact: an object has
    [sizeof(struct termios)] bytes, and an object read from that many bytes
    has those bytes, the ones outside every member included. *)
Definition exact_layout (P : platform) : Prop :=
  (forall m, Z.of_nat (List.length (to_bytes P m)) = sizeof_termios P)
  /\ (forall img, Z.of_nat (List.length img) = sizeof_termios P ->
                  to_bytes P (of_bytes P img) = img).

(** A literal for the simulated terminal: every member zero, the first
    byte of padding (byte 49 of the object) 01. *)
Definition padded_literal : string :=
  "=" ++ encodehex (repeat x00 49 ++ [x01] ++ repeat x00 10)%list.

(** Setting the window size leaves the attributes of the device as they
    are. *)
Definition winsize_apart (P : platform) : Prop :=
  forall ws d d', tiocswinsz P ws d = Some d' -> tcgetattr P d' = tcgetattr P d.

(** The device reports the same attributes in both worlds. *)
Definition same_attrs {P : platform} (w w' : world P) : Prop :=
  tcgetattr P (dev w') = tcgetattr P (dev w).

(* ------------------------------------------------------------------ *)
(** * Properties *)

(** ** Bit-level facts *)

Lemma not32_spec (x i : Z) :
  Z.testbit (not32 x) i = (0 <=? i) && (i <? 32) && negb (Z.testbit x i).
Proof.
  unfold not32.
  destruct (Z.leb_spec 0 i) as [Hi | Hi].
  - rewrite Z.land_spec, Z.lnot_spec by assumption.
    destruct (Z.ltb_spec i 32) as [Hlt | Hge].
    + rewrite Z.ones_spec_low by lia. simpl. now rewrite andb_true_r.
    + rewrite Z.ones_spec_high by lia. simpl. now rewrite andb_false_r.
  - now rewrite Z.testbit_neg_r by assumption.
Qed.

Lemma testbit_neg_false (x i : Z) : i < 0 -> Z.testbit x i = false.
Proof. intros. now apply Z.testbit_neg_r. Qed.

(** Clearing a mask after setting it is clearing it. *)
Lemma set_then_clear (b s : Z) : (b .| s) .& not32 s = b .& not32 s.
Proof.
  apply Z.bits_inj'. intros i _.
  rewrite !Z.land_spec, Z.lor_spec, not32_spec.
  destruct (Z.testbit b i), (Z.testbit s i), (0 <=? i), (i <? 32); reflexivity.
Qed.

Lemma clear_nothing (b : Z) : word32 b -> b .& not32 0 = b.
Proof.
  intros [Hlo Hhi]. apply Z.bits_inj'. intros i Hi.
  rewrite Z.land_spec, not32_spec, Z.bits_0.
  destruct (Z.ltb_spec i 32) as [Hlt | Hge].
  - replace (0 <=? i) with true by (symmetry; now apply Z.leb_le).
    simpl. now rewrite andb_true_r.
  - rewrite andb_false_r. simpl. rewrite andb_false_r.
    symmetry. apply (Z.bits_above_log2 b i); [lia |].
    destruct (Z.eq_dec b 0) as [-> | Hnz]; [simpl; lia |].
    assert (Z.log2 b < 32) by (apply Z.log2_lt_pow2; lia). lia.
Qed.

Lemma word32_high (b i : Z) : word32 b -> 32 <= i -> Z.testbit b i = false.
Proof.
  intros [Hlo Hhi] Hi.
  destruct (Z.eq_dec b 0) as [-> | Hnz]; [apply Z.bits_0 |].
  apply Z.bits_above_log2; [lia |].
  assert (Z.log2 b < 32) by (apply Z.log2_lt_pow2; lia). lia.
Qed.

(** On a 32-bit word, clearing a mask changes nothing exactly when the
    mask was clear. *)
Lemma clear_is_identity_iff (b s : Z) :
  word32 b -> (b .& not32 s = b <-> b .& s = 0).
Proof.
  intros Hb. split; intros H.
  - apply Z.bits_inj'. intros i Hi. rewrite Z.land_spec, Z.bits_0.
    assert (Hbit : Z.testbit (b .& not32 s) i = Z.testbit b i) by now rewrite H.
    rewrite Z.land_spec, not32_spec in Hbit.
    destruct (Z.testbit b i), (Z.testbit s i); try reflexivity.
    now rewrite andb_false_r in Hbit.
  - apply Z.bits_inj'. intros i Hi. rewrite Z.land_spec, not32_spec.
    assert (Hbit : Z.testbit (b .& s) i = false) by (rewrite H; apply Z.bits_0).
    rewrite Z.land_spec in Hbit.
    destruct (Z.ltb_spec i 32) as [Hlt | Hge].
    + replace (0 <=? i) with true by (symmetry; now apply Z.leb_le).
      destruct (Z.testbit b i), (Z.testbit s i); try reflexivity; discriminate.
    + rewrite (word32_high b i Hb Hge). reflexivity.
Qed.

(** ** Record plumbing *)

Lemma load_save (w : flagword) (v : Z) (m : termios) : load w (save w v m) = v.
Proof. destruct w; reflexivity. Qed.

Lemma save_load (w : flagword) (m : termios) : save w (load w m) m = m.
Proof. destruct w, m; reflexivity. Qed.

Lemma save_save (w : flagword) (u v : Z) (m : termios) :
  save w u (save w v m) = save w u m.
Proof. destruct w; reflexivity. Qed.

Lemma load_save_other (w w' : flagword) (v : Z) (m : termios) :
  w <> w' -> load w' (save w v m) = load w' m.
Proof. destruct w, w'; intros H; try reflexivity; now elim H. Qed.

Lemma c_cc_save (w : flagword) (v : Z) (m : termios) : c_cc (save w v m) = c_cc m.
Proof. destruct w; reflexivity. Qed.

Lemma on_mode_id (s : st) : on_mode (fun m => m) s = s.
Proof. destruct s; reflexivity. Qed.

Lemma store_length (i : nat) (v : Z) (a : list Z) :
  List.length (store i v a) = List.length a.
Proof.
  revert i. induction a as [| h t IH]; intros [| j]; simpl; auto.
Qed.

Lemma nth_store_same (i : nat) (v : Z) (a : list Z) :
  (i < List.length a)%nat -> nth i (store i v a) 0 = v.
Proof.
  revert i. induction a as [| h t IH]; intros [| j] H; simpl in *; try lia.
  apply IH. lia.
Qed.

Lemma nth_store_other (i j : nat) (v : Z) (a : list Z) :
  i <> j -> nth j (store i v a) 0 = nth j a 0.
Proof.
  revert i j. induction a as [| h t IH]; intros [| i] [| j] H; simpl;
    try reflexivity; try congruence.
  apply IH. congruence.
Qed.

(** ** Catalog facts *)

(** Membership of a given entry in a catalog. *)
Ltac pick_entry := simpl; repeat (first [left; reflexivity | right]).

(** Every name of the mode catalog finds its own entry: the names are
    pairwise different. *)
Lemma lookup_modes_self (op : struct_mode) :
  In op modes -> lookup m_op modes (m_op op) = Some op.
Proof.
  intros H.
  repeat (destruct H as [<- | H]; [reflexivity |]).
  destruct H.
Qed.

Lemma cc_set_cc_same (i : nat) (v : Z) (m : termios) :
  (i < List.length (c_cc m))%nat -> cc (set_cc i v m) i = v.
Proof. intros H. unfold cc, set_cc, set_ccs. cbn [c_cc]. now apply nth_store_same. Qed.

Lemma cc_set_cc_other (i j : nat) (v : Z) (m : termios) :
  i <> j -> cc (set_cc i v m) j = cc m j.
Proof. intros H. unfold cc, set_cc, set_ccs. cbn [c_cc]. now apply nth_store_other. Qed.

(** Every key of the catalog addresses a control character of the array. *)
Lemma keys_in_range (op : struct_key) :
  In op keys -> (k_index op < NCCS)%nat.
Proof.
  intros H.
  assert (Hall : forallb (fun op => (k_index op <? NCCS)%nat) keys = true)
    by reflexivity.
  apply Nat.ltb_lt. exact (proj1 (forallb_forall _ _) Hall op H).
Qed.

Lemma lookup_keys_self (op : struct_key) :
  In op keys -> lookup k_op keys (k_op op) = Some op.
Proof.
  intros H.
  repeat (destruct H as [<- | H]; [reflexivity |]).
  destruct H.
Qed.

Lemma modes_name_plain (op : struct_mode) :
  In op modes -> is_minus (m_op op) = false.
Proof.
  intros H. revert op H. apply Forall_forall.
  repeat (constructor; [reflexivity |]). constructor.
Qed.

(** An entry that addresses a flag word has no side-effect routine, and
    if it is negatable it has no clear-bits. *)
Lemma flag_entry_plain (op : struct_mode) :
  In op modes -> flag_entry op = true ->
  m_fun op = None /\ (tagged BOOL op = true -> m_clear op = 0).
Proof.
  intros H. revert op H.
  apply (proj1 (Forall_forall
                  (fun op => flag_entry op = true ->
                             m_fun op = None
                             /\ (tagged BOOL op = true -> m_clear op = 0))
                  modes)).
  repeat (constructor;
          [intros Hf; first [discriminate Hf
                            | split; [reflexivity | intros Hb; first [discriminate Hb | reflexivity]]] |]).
  constructor.
Qed.

(** ** Flag mutation *)

Lemma spec_mutation_bits (unset : bool) (set_bits clear_bits bits i : Z) :
  Z.testbit (spec_mutation unset set_bits clear_bits bits) i =
  if unset
  then Z.testbit bits i && (i <? 32) && negb (Z.testbit clear_bits i)
       && negb (Z.testbit set_bits i)
  else (Z.testbit bits i && (i <? 32) && negb (Z.testbit clear_bits i))
       || Z.testbit set_bits i.
Proof.
  unfold spec_mutation.
  destruct (Z.leb_spec 0 i) as [Hi | Hi].
  - destruct unset; rewrite ?Z.land_spec, ?Z.lor_spec, ?Z.land_spec, !not32_spec;
      replace (0 <=? i) with true by (symmetry; now apply Z.leb_le);
      destruct (Z.testbit bits i), (i <? 32), (Z.testbit clear_bits i),
               (Z.testbit set_bits i); reflexivity.
  - destruct unset; rewrite !(testbit_neg_false _ i Hi); reflexivity.
Qed.

Lemma mode_on_mode (f : termios -> termios) (s : st) :
  mode (on_mode f s) = f (mode s).
Proof. reflexivity. Qed.

Lemma on_mode_save_twice (w : flagword) (u v : Z) (s : st) :
  on_mode (save w u) (on_mode (save w v) s) = on_mode (save w u) s.
Proof. destruct s, w; reflexivity. Qed.

Lemma mutate_is_spec (unset : bool) (op : struct_mode) (bits : Z) :
  mutate unset op bits = spec_mutation unset (m_set op) (m_clear op) bits.
Proof. unfold mutate, spec_mutation. now destruct unset. Qed.

Lemma setoperand_mode_flag (unset : bool) (op : struct_mode) (w : flagword) (s : st) :
  bitsp_of (m_type op) = Some (Some w) -> m_fun op = None ->
  setoperand_mode unset op s
  = Some (on_mode (save w (spec_mutation unset (m_set op) (m_clear op)
                                         (load w (mode s)))) s).
Proof.
  intros Hw Hf. unfold setoperand_mode. rewrite Hw, Hf.
  unfold on_mode. now rewrite mutate_is_spec.
Qed.

Lemma bitsp_flag_entry (op : struct_mode) (w : flagword) :
  bitsp_of (m_type op) = Some (Some w) -> flag_entry op = true.
Proof. unfold flag_entry. destruct (m_type op); simpl; congruence. Qed.

(** C9: for every catalog entry that addresses a flag word, the mutation
    primitive clears the entry's clear-bits first and only then ORs in the
    set-bits (set polarity) or ANDs them out (unset polarity); bit by bit,
    and inside the clear-mask the set polarity leaves exactly the set-bits
    (so cs5..cs8 never keep a stale size bit). *)
Theorem flag_mutation_clears_first
  (op : struct_mode) (w : flagword) (unset : bool) (s : st) :
  In op modes ->
  bitsp_of (m_type op) = Some (Some w) ->
  exists s',
    setoperand_mode unset op s = Some s'
    /\ s' = on_mode (save w (spec_mutation unset (m_set op) (m_clear op)
                                          (load w (mode s)))) s
    /\ (forall i,
          Z.testbit (load w (mode s')) i =
          if unset
          then Z.testbit (load w (mode s)) i && (i <? 32)
               && negb (Z.testbit (m_clear op) i)
               && negb (Z.testbit (m_set op) i)
          else (Z.testbit (load w (mode s)) i && (i <? 32)
                && negb (Z.testbit (m_clear op) i))
               || Z.testbit (m_set op) i)
    /\ (unset = false ->
        load w (mode s') .& m_clear op = m_set op .& m_clear op).
Proof.
  intros Hin Hw.
  destruct (flag_entry_plain op Hin (bitsp_flag_entry op w Hw)) as [Hf _].
  eexists. split; [apply (setoperand_mode_flag unset op w s Hw Hf) |].
  split; [reflexivity |].
  split.
  - intros i. rewrite mode_on_mode, load_save. apply spec_mutation_bits.
  - intros ->. rewrite mode_on_mode, load_save.
    apply Z.bits_inj'. intros i Hi.
    rewrite !Z.land_spec, spec_mutation_bits.
    destruct (Z.testbit (load w (mode s)) i), (i <? 32),
             (Z.testbit (m_clear op) i), (Z.testbit (m_set op) i); reflexivity.
Qed.

Lemma flag_mutation_clears_first_witness :
  exists s',
    setoperand_mode false (mk_mode "cs7" CTRL CS7 CSIZE None 0)
                    (on_mode (set_cflag CS8) zero_st) = Some s'
    /\ c_cflag (mode s') = CS7.
Proof.
  destruct (flag_mutation_clears_first
              (mk_mode "cs7" CTRL CS7 CSIZE None 0) w_cflag false
              (on_mode (set_cflag CS8) zero_st))
    as [s' [H1 [H2 _]]].
  - pick_entry.
  - reflexivity.
  - exists s'. split; [exact H1 |]. rewrite H2. reflexivity.
Defined.

(** ** Negation of a boolean operand *)

Lemma parseoperand_mode_flag (op : struct_mode) (w : flagword) (s : st) :
  In op modes -> bitsp_of (m_type op) = Some (Some w) ->
  parseoperand_mode (m_op op) s
  = Applied (on_mode (save w (spec_mutation false (m_set op) (m_clear op)
                                            (load w (mode s)))) s).
Proof.
  intros Hin Hw.
  destruct (flag_entry_plain op Hin (bitsp_flag_entry op w Hw)) as [Hf _].
  unfold parseoperand_mode.
  rewrite (modes_name_plain op Hin), (lookup_modes_self op Hin).
  cbn [andb negb].
  pose proof (setoperand_mode_flag false op w s Hw Hf) as E.
  destruct (m_type op); simpl in Hw; try discriminate; now rewrite E.
Qed.

Lemma parseoperand_mode_flag_neg (op : struct_mode) (w : flagword) (s : st) :
  In op modes -> bitsp_of (m_type op) = Some (Some w) ->
  tagged BOOL op = true ->
  parseoperand_mode ("-" ++ m_op op) s
  = Applied (on_mode (save w (spec_mutation true (m_set op) (m_clear op)
                                            (load w (mode s)))) s).
Proof.
  intros Hin Hw Hb.
  destruct (flag_entry_plain op Hin (bitsp_flag_entry op w Hw)) as [Hf _].
  unfold parseoperand_mode.
  change (is_minus ("-" ++ m_op op)) with true.
  change (next ("-" ++ m_op op)) with (m_op op).
  cbv iota. rewrite (lookup_modes_self op Hin).
  unfold tagged in Hb. rewrite Hb. cbn [andb negb].
  pose proof (setoperand_mode_flag true op w s Hw Hf) as E.
  destruct (m_type op); simpl in Hw; try discriminate; now rewrite E.
Qed.

Lemma unset_after_set (s b : Z) :
  spec_mutation true s 0 (spec_mutation false s 0 b) = b .& not32 s.
Proof.
  apply Z.bits_inj'. intros i Hi.
  rewrite !spec_mutation_bits, Z.land_spec, not32_spec, Z.bits_0.
  replace (0 <=? i) with true by (symmetry; now apply Z.leb_le).
  destruct (Z.testbit b i), (i <? 32), (Z.testbit s i); reflexivity.
Qed.

Lemma unset_alone (s b : Z) : spec_mutation true s 0 b = b .& not32 s.
Proof.
  apply Z.bits_inj'. intros i Hi.
  rewrite !spec_mutation_bits, Z.land_spec, not32_spec, Z.bits_0.
  replace (0 <=? i) with true by (symmetry; now apply Z.leb_le).
  destruct (Z.testbit b i), (i <? 32), (Z.testbit s i); reflexivity.
Qed.

(** C3, as the code has it: for a BOOL-tagged operand x that addresses one
    flag word, x followed by -x is -x alone: the word is its pre-x pattern
    with the bits of x cleared and nothing else changes; on a 32-bit word
    this is the pre-x pattern exactly when the bits of x were clear before
    x. *)
Theorem bool_operand_then_negation
  (op : struct_mode) (w : flagword) (s : st) :
  In op modes ->
  tagged BOOL op = true ->
  bitsp_of (m_type op) = Some (Some w) ->
  let cleared := on_mode (save w (load w (mode s) .& not32 (m_set op))) s in
  exists s1,
    parseoperand_mode (m_op op) s = Applied s1
    /\ parseoperand_mode ("-" ++ m_op op) s1 = Applied cleared
    /\ parseoperand_mode ("-" ++ m_op op) s = Applied cleared
    /\ (word32 (load w (mode s)) ->
        (load w (mode cleared) = load w (mode s)
         <-> load w (mode s) .& m_set op = 0)).
Proof.
  intros Hin Hb Hw cleared.
  destruct (flag_entry_plain op Hin (bitsp_flag_entry op w Hw)) as [_ Hc].
  specialize (Hc Hb).
  eexists. split; [apply (parseoperand_mode_flag op w s Hin Hw) |].
  rewrite !(parseoperand_mode_flag_neg op w _ Hin Hw Hb).
  rewrite Hc, mode_on_mode, load_save, on_mode_save_twice.
  rewrite unset_after_set, unset_alone.
  split; [reflexivity |]. split; [reflexivity |].
  intros Hword. unfold cleared. rewrite mode_on_mode, load_save.
  now apply clear_is_identity_iff.
Qed.

Lemma bool_operand_then_negation_witness :
  exists s1,
    parseoperand_mode "echo" zero_st = Applied s1
    /\ parseoperand_mode "-echo" s1 = Applied zero_st.
Proof.
  destruct (bool_operand_then_negation
              (mk_mode "echo" LOCAL ECHO 0 None (BOOL .| SANE)) w_lflag zero_st)
    as [s1 [H1 [H2 _]]].
  - pick_entry.
  - reflexivity.
  - reflexivity.
  - exists s1. split; [exact H1 | exact H2].
Defined.

(** C3, as stated, fails: with ECHO set beforehand, [echo] then [-echo]
    leaves the local word without ECHO. *)
Lemma negation_symmetry_counterexample :
  let s := on_mode (set_lflag ECHO) zero_st in
  exists s1 s2,
    parseoperand_mode "echo" s = Applied s1
    /\ parseoperand_mode "-echo" s1 = Applied s2
    /\ c_lflag (mode s) = ECHO
    /\ c_lflag (mode s2) = 0
    /\ c_lflag (mode s2) <> c_lflag (mode s).
Proof.
  simpl. eexists. eexists.
  split; [reflexivity |].
  split; [reflexivity |].
  repeat split. discriminate.
Qed.

(** ** Combination operands *)

Lemma run_plan_none (l : list (bool * struct_mode)) :
  fold_left run_plan l None = None.
Proof. induction l; simpl; auto. Qed.

Lemma propagate_none (unset : bool) (fs fu : Z) (l : list struct_mode) :
  fold_left (propagate unset fs fu) l None = None.
Proof. induction l; simpl; auto. Qed.

Lemma run_plan_some (s : st) (p : bool * struct_mode) :
  run_plan (Some s) p = setoperand_mode (fst p) (snd p) s.
Proof. reflexivity. Qed.

(** The propagation loop is the run of its plan. *)
Lemma propagate_plan (unset : bool) (fs fu : Z) (l : list struct_mode)
  (acc : option st) :
  fold_left (propagate unset fs fu) l acc
  = fold_left run_plan (flat_map (plan_step unset fs fu) l) acc.
Proof.
  revert acc. induction l as [| op l IH]; intros acc; [reflexivity |].
  cbn [fold_left flat_map]. rewrite fold_left_app, IH. f_equal.
  destruct acc as [s |].
  - unfold propagate, plan_step.
    destruct (m_type op); try reflexivity;
      destruct (nz fu && nz (m_flags op .& fu));
      destruct (nz fs && nz (m_flags op .& fs));
      cbn [fold_left app run_plan fst snd]; try reflexivity;
      destruct (setoperand_mode (negb unset) op s); reflexivity.
  - cbn [propagate]. now rewrite run_plan_none.
Qed.

(** What [raw] and [-raw] switch before their routine runs: the three
    COOKED-tagged entries, with the opposite polarity. *)
Lemma raw_plan (unset : bool) :
  flat_map (plan_step unset 0 COOKED) modes
  = [(negb unset, mk_mode "opost" OUT OPOST 0 None
                          (BOOL .| SANE .| LITOUT .| COOKED));
     (negb unset, mk_mode "icanon" LOCAL ICANON 0 None
                          (BOOL .| SANE .| CBREAK .| COOKED));
     (negb unset, mk_mode "isig" LOCAL ISIG 0 None
                          (BOOL .| SANE .| COOKED))].
Proof. destruct unset; reflexivity. Qed.

Lemma parse_raw (unset : bool) (s : st) :
  exists s3,
    parseoperand_mode ((if unset then "-" else "") ++ "raw") s
    = Applied (on_mode (raw unset) s3)
    /\ c_iflag (mode s3) = c_iflag (mode s)
    /\ c_cc (mode s3) = c_cc (mode s).
Proof.
  assert (E : parseoperand_mode ((if unset then "-" else "") ++ "raw") s
              = match fold_left (propagate unset 0 COOKED) modes (Some s) with
                | Some s3 => Applied (on_mode (raw unset) s3)
                | None => Aborted
                end) by (destruct unset; reflexivity).
  rewrite E, propagate_plan, raw_plan.
  cbn [fold_left].
  rewrite run_plan_some; cbn [fst snd].
  rewrite (setoperand_mode_flag _ _ w_oflag) by reflexivity.
  rewrite run_plan_some; cbn [fst snd].
  rewrite (setoperand_mode_flag _ _ w_lflag) by reflexivity.
  rewrite run_plan_some; cbn [fst snd].
  rewrite (setoperand_mode_flag _ _ w_lflag) by reflexivity.
  eexists. split; [reflexivity |].
  destruct s as [a b c m]. destruct m. split; reflexivity.
Qed.

(** C8: whatever the state, [raw] leaves the input word empty, VMIN at 1
    and VTIME at 0, and [-raw] ORs BRKINT, IGNPAR, ISTRIP, ICRNL and IXON
    into the input word. *)
Theorem raw_combination (s : st) :
  List.length (c_cc (mode s)) = NCCS ->
  (exists s',
      parseoperand_mode "raw" s = Applied s'
      /\ c_iflag (mode s') = 0
      /\ cc (mode s') VMIN = 1
      /\ cc (mode s') VTIME = 0)
  /\ (exists s',
         parseoperand_mode "-raw" s = Applied s'
         /\ c_iflag (mode s')
            = c_iflag (mode s)
              .| (BRKINT .| IGNPAR .| ISTRIP .| ICRNL .| IXON)).
Proof.
  intros Hlen. split.
  - destruct (parse_raw false s) as [s3 [E [_ Hcc]]].
    exists (on_mode (raw false) s3). split; [exact E |].
    rewrite mode_on_mode. unfold raw, cc. cbn [negb].
    split; [reflexivity |].
    assert (Hl : List.length (c_cc (mode s3)) = NCCS) by now rewrite Hcc.
    cbn [c_cc set_cc set_ccs set_lflag set_iflag].
    split.
    + rewrite nth_store_other by (unfold VTIME, VMIN; lia).
      apply nth_store_same. rewrite Hl. unfold VMIN, NCCS. lia.
    + apply nth_store_same. rewrite store_length, Hl. unfold VTIME, NCCS. lia.
  - destruct (parse_raw true s) as [s3 [E [Hi _]]].
    exists (on_mode (raw true) s3). split; [exact E |].
    rewrite mode_on_mode. unfold raw. cbn [negb c_iflag set_iflag].
    now rewrite Hi.
Qed.

Lemma raw_combination_witness :
  exists s',
    parseoperand_mode "raw" (on_mode (set_iflag (ICRNL .| IXON)) zero_st)
    = Applied s'
    /\ c_iflag (mode s') = 0 /\ cc (mode s') VMIN = 1 /\ cc (mode s') VTIME = 0.
Proof.
  destruct (raw_combination (on_mode (set_iflag (ICRNL .| IXON)) zero_st))
    as [H _].
  - reflexivity.
  - exact H.
Defined.

(** ** Parity operands *)

(** C1, on the code: [evenp], [parity] and [oddp] leave the control word
    (and the input and local words) as they are and rewrite the output
    word; from the all-clear state, [evenp] ends with the control word
    still 0 and the output word CS7 | PARENB, which in the output word are
    the bits of ONLRET and NL1. *)
Theorem parity_operands_write_output_word :
  (forall unset m,
      c_cflag (evenp unset m) = c_cflag m
      /\ c_iflag (evenp unset m) = c_iflag m
      /\ c_lflag (evenp unset m) = c_lflag m
      /\ c_cflag (oddp unset m) = c_cflag m
      /\ c_iflag (oddp unset m) = c_iflag m
      /\ c_lflag (oddp unset m) = c_lflag m)
  /\ (forall s,
         parseoperand_mode "evenp" s = Applied (on_mode (evenp false) s)
         /\ parseoperand_mode "parity" s = Applied (on_mode (evenp false) s)
         /\ parseoperand_mode "oddp" s = Applied (on_mode (oddp false) s)
         /\ parseoperand_mode "-evenp" s = Applied (on_mode (evenp true) s)
         /\ parseoperand_mode "-oddp" s = Applied (on_mode (oddp true) s))
  /\ c_cflag (evenp false zero_termios) = 0
  /\ c_oflag (evenp false zero_termios) = CS7 .| PARENB
  /\ c_oflag (evenp false zero_termios) = ONLRET .| NL1
  /\ c_cflag (oddp false zero_termios) = 0
  /\ c_oflag (oddp false zero_termios) = CS7 .| PARODD .| PARENB
  /\ c_cflag (pass8 false zero_termios) = CS8.
Proof.
  split; [intros unset m; repeat split |].
  split; [intros s; repeat split |].
  repeat split.
Qed.

(** ** Key operands *)

(** C10: an empty value token after a key operand is accepted, and the
    control character the operand addresses then reads as 0, whatever it
    was before; the other control characters are as they were. *)
Theorem key_empty_value_is_nul
  (P : platform) (op : struct_key) (m : termios) (w : world P) :
  In op keys ->
  List.length (c_cc m) = NCCS ->
  exists m',
    parseoperand_key P (k_op op) (Some "") m w = (Ret (Some m'), w)
    /\ cc m' (k_index op) = 0
    /\ (forall j, j <> k_index op -> cc m' j = cc m j).
Proof.
  intros Hin Hlen. exists (set_cc (k_index op) 0 m).
  split; [| split].
  - unfold parseoperand_key. rewrite (lookup_keys_self op Hin). reflexivity.
  - apply cc_set_cc_same. rewrite Hlen. now apply keys_in_range.
  - intros j Hj. apply cc_set_cc_other. congruence.
Qed.

Lemma key_empty_value_is_nul_witness :
  cc (set_cc VERASE CERASE zero_termios) VERASE = 127
  /\ exists m',
       parseoperand_key sim "erase" (Some "")
                        (set_cc VERASE CERASE zero_termios)
                        (sim_world zero_termios)
       = (Ret (Some m'), sim_world zero_termios)
       /\ cc m' VERASE = 0
       /\ cc m' VKILL = cc (set_cc VERASE CERASE zero_termios) VKILL.
Proof.
  split; [reflexivity |].
  destruct (key_empty_value_is_nul sim (mk_key "erase" VERASE CERASE)
              (set_cc VERASE CERASE zero_termios) (sim_world zero_termios))
    as (m' & Hrun & Hnul & Hrest).
  - pick_entry.
  - reflexivity.
  - exists m'. split; [exact Hrun |]. split; [exact Hnul |].
    apply Hrest. discriminate.
Defined.

(** ** Speed names *)

Lemma find_first_match {A : Type} (f : A -> bool) (l1 l2 : list A) (x : A) :
  (forall e, In e l1 -> f e = false) -> f x = true ->
  find f (l1 ++ x :: l2)%list = Some x.
Proof.
  intros Hpre Hx. induction l1 as [| a l1 IH]; simpl.
  - now rewrite Hx.
  - rewrite (Hpre a (or_introl eq_refl)). apply IH.
    intros e He. apply Hpre. now right.
Qed.

(** C5, as the code has it: [baudtostr] returns the name of the first
    entry of the speed catalog that denotes the value; for the values with
    two names these are "134", "19200" and "38400". *)
Theorem baudtostr_first_listed
  (l1 l2 : list struct_speed) (sp : struct_speed) :
  speeds = (l1 ++ sp :: l2)%list ->
  (forall e, In e l1 -> s_speed e <> s_speed sp) ->
  baudtostr (s_speed sp) = s_str sp
  /\ baudtostr B134 = "134"
  /\ baudtostr B19200 = "19200"
  /\ baudtostr B38400 = "38400".
Proof.
  intros Hsplit Hpre. split; [| repeat split].
  unfold baudtostr. rewrite Hsplit.
  rewrite (find_first_match _ l1 l2 sp); [reflexivity | | apply Z.eqb_refl].
  intros e He. apply Z.eqb_neq. now apply Hpre.
Qed.

Lemma baudtostr_first_listed_witness : baudtostr B134 = "134".
Proof.
  apply (baudtostr_first_listed
           [mk_speed "0" B0; mk_speed "50" B50; mk_speed "75" B75;
            mk_speed "110" B110]
           (skipn 5 speeds) (mk_speed "134" B134)).
  - reflexivity.
  - intros e He. simpl in He.
    repeat (destruct He as [<- | He]; [discriminate |]). destruct He.
Defined.

(** C5, as stated, fails: the last entry listed for B134 is "134.5", and
    [baudtostr] answers "134". *)
Lemma baudtostr_last_listed_counterexample :
  last_listed B134 = Some "134.5"
  /\ baudtostr B134 = "134"
  /\ Some (baudtostr B134) <> last_listed B134.
Proof. repeat split. discriminate. Qed.

(** ** State codec *)

Lemma hex_pair_roundtrip (b : byte) :
  byte_of_Z (Z.shiftl (hexval (hexdigit (Z_of_byte b / 16))) 4
             .| hexval (hexdigit (Z_of_byte b mod 16))) = b.
Proof. destruct b; reflexivity. Qed.

Lemma hex_pair_xdigits (b : byte) :
  isxdigit (hexdigit (Z_of_byte b / 16)) = true
  /\ isxdigit (hexdigit (Z_of_byte b mod 16)) = true.
Proof. destruct b; split; reflexivity. Qed.

Lemma encodehex_cons (b : byte) (t : list byte) :
  encodehex (b :: t)
  = String (hexdigit (Z_of_byte b / 16))
           (String (hexdigit (Z_of_byte b mod 16)) (encodehex t)).
Proof. reflexivity. Qed.

Lemma encodehex_length (img : list byte) :
  String.length (encodehex img) = (2 * List.length img)%nat.
Proof.
  induction img as [| b t IH]; [reflexivity |].
  rewrite encodehex_cons. cbn [String.length List.length]. lia.
Qed.

Lemma encodehex_all_xdigit (img : list byte) : all_xdigit (encodehex img) = true.
Proof.
  induction img as [| b t IH]; [reflexivity |].
  rewrite encodehex_cons. cbn [all_xdigit].
  destruct (hex_pair_xdigits b) as [-> ->]. exact IH.
Qed.

Lemma isxnumber_encodehex (img : list byte) :
  img <> [] -> isxnumber (encodehex img) = true.
Proof.
  destruct img as [| b t]; intros Hne; [now elim Hne |].
  pose proof (encodehex_all_xdigit (b :: t)) as H.
  rewrite encodehex_cons in *. exact H.
Qed.

Lemma decodehex_encodehex (img dest : list byte) :
  List.length dest = List.length img ->
  decodehex dest (encodehex img) = Some img.
Proof.
  revert dest. induction img as [| b t IH]; intros dest Hlen.
  - destruct dest; [reflexivity | discriminate].
  - destruct dest as [| d dest]; [discriminate |].
    rewrite encodehex_cons. cbn [decodehex].
    rewrite IH by (simpl in Hlen; lia).
    now rewrite hex_pair_roundtrip.
Qed.

Lemma literal_ok_encodehex (img : list byte) :
  img <> [] ->
  literal_ok (Z.of_nat (List.length img)) (encodehex img) = true.
Proof.
  intros Hne. unfold literal_ok, strlen.
  rewrite (isxnumber_encodehex img Hne), encodehex_length.
  replace (Z.of_nat (2 * List.length img) =? Z.of_nat (List.length img) * 2)
    with true by (symmetry; apply Z.eqb_eq; lia).
  reflexivity.
Qed.

(** C4: decoding the hex text that encodes an object representation, into
    an object of the same size, passes the length and digit guard and
    yields the same bytes. *)
Theorem state_codec_roundtrip (img dest : list byte) :
  img <> [] ->
  List.length dest = List.length img ->
  literal_ok (Z.of_nat (List.length img)) (encodehex img) = true
  /\ decode_literal (Z.of_nat (List.length img)) dest (encodehex img)
     = Some img.
Proof.
  intros Hne Hlen.
  pose proof (literal_ok_encodehex img Hne) as Hok.
  split; [exact Hok |].
  unfold decode_literal. rewrite Hok.
  revert dest Hlen. clear Hne Hok.
  induction img as [| b t IH]; intros dest Hlen.
  - destruct dest; [reflexivity | discriminate].
  - destruct dest as [| d dest]; [discriminate |].
    rewrite encodehex_cons. cbn [decodehex].
    rewrite IH by (simpl in Hlen; lia).
    now rewrite hex_pair_roundtrip.
Qed.

Lemma state_codec_roundtrip_witness :
  decode_literal 60 (sim_to_bytes zero_termios)
                 (encodehex (sim_to_bytes (set_lflag ECHO zero_termios)))
  = Some (sim_to_bytes (set_lflag ECHO zero_termios)).
Proof.
  apply (state_codec_roundtrip (sim_to_bytes (set_lflag ECHO zero_termios))
                               (sim_to_bytes zero_termios)).
  - discriminate.
  - reflexivity.
Defined.

(** The same through the loop body of [main]: the text that -g prints for
    a state, given back as an [=] operand, is accepted and overwrites the
    working copy with exactly the bytes it encodes. *)
Lemma literal_operand_accepts
  (P : platform) (m : termios) (arg1 : option string) (s : st) (w : world P) :
  to_bytes P m <> [] ->
  Z.of_nat (List.length (to_bytes P m)) = sizeof_termios P ->
  List.length (to_bytes P (mode s)) = List.length (to_bytes P m) ->
  operand P ("=" ++ encodehex (to_bytes P m)) arg1 s w
  = (Ret (with_mode (of_bytes P (to_bytes P m)) s, false), w).
Proof.
  intros Hne Hsize Hlen.
  pose proof (literal_ok_encodehex (to_bytes P m) Hne) as Hok.
  pose proof (decodehex_encodehex (to_bytes P m) (to_bytes P (mode s)) Hlen)
    as Hdec.
  unfold operand.
  change (char0 ("=" ++ encodehex (to_bytes P m))) with "="%char.
  change (next ("=" ++ encodehex (to_bytes P m)))
    with (encodehex (to_bytes P m)).
  cbn [Ascii.eqb Bool.eqb andb].
  unfold literal_ok in Hok. rewrite Hsize in Hok.
  apply negb_true_iff in Hok. rewrite Hok.
  now rewrite Hdec.
Qed.

(** ** The mode section of the display *)

Lemma modes_name_inj (a b : struct_mode) :
  In a modes -> In b modes -> m_op a = m_op b -> a = b.
Proof.
  intros Ha Hb E.
  pose proof (lookup_modes_self a Ha) as La.
  pose proof (lookup_modes_self b Hb) as Lb.
  rewrite E in La. congruence.
Qed.

(** One turn of the display loop in "all" mode, by cases. *)
Lemma display_mode_all (m : termios) (op : struct_mode) :
  display_mode m true op
  = if flag_entry op && negb (tagged DUP op)
    then if holds m op then [m_op op]
         else if tagged BOOL op then ["-" ++ m_op op] else []
    else [].
Proof.
  unfold display_mode, flag_entry, holds, tagged.
  destruct (m_type op); cbn [bitsp_of andb]; try reflexivity;
    destruct (nz (m_flags op .& DUP)); cbn [negb orb]; try reflexivity;
    match goal with
    | |- context [if ?c then [m_op op] else _] => destruct c; reflexivity
    end.
Qed.

Lemma minus_name_differs (a b : struct_mode) :
  In a modes -> m_op a <> "-" ++ m_op b.
Proof.
  intros Ha E. pose proof (modes_name_plain a Ha) as H.
  rewrite E in H. discriminate H.
Qed.

(** C6, as the code has it: in "all" mode the mode section mentions a
    catalog entry exactly when the entry addresses a flag word, is not
    DUP-tagged, and is either BOOL-tagged or currently holds; it appears
    bare when it holds and hyphenated when it is BOOL-tagged and does not.
    DUP-tagged aliases, combinations and special operands never appear. *)
Theorem display_all_modes (m : termios) (op : struct_mode) :
  In op modes ->
  (In (m_op op) (display_modes m true)
   <-> flag_entry op && negb (tagged DUP op) && holds m op = true)
  /\ (In ("-" ++ m_op op) (display_modes m true)
      <-> flag_entry op && negb (tagged DUP op) && tagged BOOL op
          && negb (holds m op) = true)
  /\ (tagged DUP op = true \/ flag_entry op = false ->
      ~ mentioned op (display_modes m true)).
Proof.
  intros Hin.
  assert (Hbare : In (m_op op) (display_modes m true)
                  <-> flag_entry op && negb (tagged DUP op) && holds m op = true).
  { unfold display_modes. rewrite in_flat_map. split.
    - intros [op' [Hin' Htok]]. rewrite display_mode_all in Htok.
      destruct (flag_entry op' && negb (tagged DUP op')) eqn:Hshow;
        [| destruct Htok].
      destruct (holds m op') eqn:Hh.
      + destruct Htok as [E | []].
        assert (op' = op) by (apply modes_name_inj; auto). subst op'.
        now rewrite Hshow, Hh.
      + destruct (tagged BOOL op'); [| destruct Htok].
        destruct Htok as [E | []].
        elim (minus_name_differs op op' Hin). now symmetry.
    - intros H. exists op. split; [exact Hin |]. rewrite display_mode_all.
      apply andb_true_iff in H. destruct H as [-> ->]. now left. }
  assert (Hneg : In ("-" ++ m_op op) (display_modes m true)
                 <-> flag_entry op && negb (tagged DUP op) && tagged BOOL op
                     && negb (holds m op) = true).
  { unfold display_modes. rewrite in_flat_map. split.
    - intros [op' [Hin' Htok]]. rewrite display_mode_all in Htok.
      destruct (flag_entry op' && negb (tagged DUP op')) eqn:Hshow;
        [| destruct Htok].
      destruct (holds m op') eqn:Hh.
      + destruct Htok as [E | []].
        elim (minus_name_differs op' op Hin'). exact E.
      + destruct (tagged BOOL op') eqn:Hb; [| destruct Htok].
        destruct Htok as [E | []].
        assert (op' = op).
        { apply modes_name_inj; auto. now injection E. }
        subst op'. now rewrite Hshow, Hb, Hh.
    - intros H. exists op. split; [exact Hin |]. rewrite display_mode_all.
      apply andb_true_iff in H. destruct H as [H Hh].
      apply andb_true_iff in H. destruct H as [-> ->].
      apply negb_true_iff in Hh. rewrite Hh. now left. }
  split; [exact Hbare |]. split; [exact Hneg |].
  intros Hhidden [H | H].
  - apply Hbare in H.
    destruct Hhidden as [Hd | Hf];
      [rewrite Hd in H; cbn [negb] in H; rewrite andb_false_r in H
      | rewrite Hf in H]; discriminate H.
  - apply Hneg in H.
    destruct Hhidden as [Hd | Hf];
      [rewrite Hd in H; cbn [negb] in H; rewrite andb_false_r in H
      | rewrite Hf in H]; discriminate H.
Qed.

Lemma display_all_modes_witness :
  In "-echo" (display_modes zero_termios true)
  /\ ~ In "echo" (display_modes zero_termios true).
Proof.
  destruct (display_all_modes zero_termios
              (mk_mode "echo" LOCAL ECHO 0 None (BOOL .| SANE)))
    as [Hbare [Hneg _]].
  - pick_entry.
  - split.
    + apply Hneg. reflexivity.
    + intros H. apply Hbare in H. discriminate H.
Defined.

(** C6, as stated, fails: the DUP-tagged alias [hup] is in the catalog,
    and the "all" dump of the all-clear state mentions neither [hup] nor
    [-hup] (its twin [hupcl] is shown instead). *)
Lemma display_all_counterexample :
  In (mk_mode "hup" CTRL HUPCL 0 None (BOOL .| DUP)) modes
  /\ ~ In "hup" (display_modes zero_termios true)
  /\ ~ In "-hup" (display_modes zero_termios true)
  /\ In "-hupcl" (display_modes zero_termios true).
Proof.
  split; [pick_entry |].
  split; [| split].
  - intros H. vm_compute in H.
    repeat (destruct H as [H | H]; [discriminate H |]). exact H.
  - intros H. vm_compute in H.
    repeat (destruct H as [H | H]; [discriminate H |]). exact H.
  - vm_compute. do 6 right. left. reflexivity.
Qed.

(** ** The operand loop *)

Section Loop.

Variable P : platform.

Lemma bind_Ret {A B : Type} (c : M P A) (k : A -> M P B) (w w2 : world P) (b : B) :
  bind c k w = (Ret b, w2) ->
  exists a w1, c w = (Ret a, w1) /\ k a w1 = (Ret b, w2).
Proof.
  unfold bind. destruct (c w) as [[a | n | |] w1]; intros H;
    try discriminate H. now exists a, w1.
Qed.

Lemma quiet_refl (w : world P) : quiet w w.
Proof.
  repeat split. exists []. split; [now rewrite app_nil_r | reflexivity].
Qed.

Lemma quiet_trans (w w1 w2 : world P) : quiet w w1 -> quiet w1 w2 -> quiet w w2.
Proof.
  intros (Ho & He & Hw & Hp & evs & Hl & Hc)
         (Ho' & He' & Hw' & Hp' & evs' & Hl' & Hc').
  repeat split; try congruence.
  exists (evs ++ evs')%list. split.
  - now rewrite Hl', Hl, app_assoc.
  - rewrite forallb_app, Hc, Hc'. reflexivity.
Qed.

Lemma eprintf_not_Ret {A : Type} (msg : string) (w w1 : world P) (a : A) :
  eprintf msg w <> (Ret a, w1).
Proof. unfold eprintf. discriminate. Qed.

Lemma setwinsize_quiet (y x : Z) (w w1 : world P) (u : unit) :
  setwinsize P y x w = (Ret u, w1) -> quiet w w1.
Proof.
  unfold setwinsize, bind, get_dev, note.
  destruct (tiocgwinsz P STDIN_FILENO (dev w)) as [ws |];
    [| intros H; now apply eprintf_not_Ret in H].
  match goal with
  | |- context [tiocswinsz P ?v (dev w)] =>
      destruct (tiocswinsz P v (dev w)) as [d' |]; cbn [dev]
  end.
  - intros H. injection H as _ <-. repeat split.
    eexists. split; [reflexivity | reflexivity].
  - intros H. now apply eprintf_not_Ret in H.
Qed.

Lemma e_strtonum_same (arg : string) (lo hi n : Z) (w w1 : world P) :
  e_strtonum P arg lo hi w = (Ret n, w1) -> w1 = w.
Proof.
  unfold e_strtonum. destruct (estrtonum P arg lo hi).
  - unfold ret. congruence.
  - intros H. now apply eprintf_not_Ret in H.
Qed.

Lemma estrtonum_anyradix_same (arg : string) (lo hi n : Z) (w w1 : world P) :
  estrtonum_anyradix P arg lo hi w = (Ret n, w1) -> w1 = w.
Proof.
  unfold estrtonum_anyradix.
  repeat match goal with
         | |- context [if ?c then _ else _] => destruct c
         end;
    try (intros H; now apply eprintf_not_Ret in H).
  unfold ret. congruence.
Qed.

Lemma parseoperand_key_same (arg0 : string) (arg1 : option string)
  (m : termios) (r : option termios) (w w1 : world P) :
  parseoperand_key P arg0 arg1 m w = (Ret r, w1) -> w1 = w.
Proof.
  unfold parseoperand_key.
  destruct (lookup k_op keys arg0) as [op |]; [| unfold ret; congruence].
  destruct arg1 as [arg1 |]; [| intros H; now apply eprintf_not_Ret in H].
  intros H. apply bind_Ret in H. destruct H as (v & w' & Hv & Hr).
  unfold ret in Hr. injection Hr as _ <-.
  repeat match type of Hv with
         | (if ?c then _ else _) _ = _ => destruct c
         end;
    try (unfold ret in Hv; congruence).
  apply bind_Ret in Hv. destruct Hv as (v' & w'' & Hv & Hr).
  apply estrtonum_anyradix_same in Hv. unfold ret in Hr. congruence.
Qed.

Lemma call_int_quiet (f : intfun) (arg : string) (m m' : termios)
  (w w1 : world P) :
  call_int P f arg m w = (Ret m', w1) -> quiet w w1.
Proof.
  destruct f; cbn [call_int]; unfold cols, min, rows, stime, ispeed, ospeed,
    eparsespeed; intros H; apply bind_Ret in H;
    destruct H as (n & w' & Hn & Hr).
  - apply e_strtonum_same in Hn. subst w'.
    apply bind_Ret in Hr. destruct Hr as (u & w'' & Hs & Hr).
    apply setwinsize_quiet in Hs. unfold ret in Hr. congruence.
  - apply e_strtonum_same in Hn. unfold ret in Hr.
    replace w1 with w by congruence. apply quiet_refl.
  - apply e_strtonum_same in Hn. subst w'.
    apply bind_Ret in Hr. destruct Hr as (u & w'' & Hs & Hr).
    apply setwinsize_quiet in Hs. unfold ret in Hr. congruence.
  - apply e_strtonum_same in Hn. unfold ret in Hr.
    replace w1 with w by congruence. apply quiet_refl.
  - destruct (parsespeed arg);
      [| now apply eprintf_not_Ret in Hn].
    unfold ret in Hn. injection Hn as <- <-.
    destruct (cfsetispeed P m (s_speed s));
      [| now apply eprintf_not_Ret in Hr].
    unfold ret in Hr. replace w1 with w by congruence. apply quiet_refl.
  - destruct (parsespeed arg);
      [| now apply eprintf_not_Ret in Hn].
    unfold ret in Hn. injection Hn as <- <-.
    destruct (cfsetospeed P m (s_speed s));
      [| now apply eprintf_not_Ret in Hr].
    unfold ret in Hr. replace w1 with w by congruence. apply quiet_refl.
Qed.

Lemma parseoperand_int_quiet (arg0 : string) (arg1 : option string)
  (m : termios) (r : option termios) (w w1 : world P) :
  parseoperand_int P arg0 arg1 m w = (Ret r, w1) -> quiet w w1.
Proof.
  unfold parseoperand_int.
  destruct (lookup i_op ints arg0) as [op |].
  - destruct arg1 as [arg1 |]; [| intros H; now apply eprintf_not_Ret in H].
    intros H. apply bind_Ret in H. destruct H as (m' & w' & Hc & Hr).
    apply call_int_quiet in Hc. unfold ret in Hr. congruence.
  - unfold ret. intros H. replace w1 with w by congruence. apply quiet_refl.
Qed.

Lemma line_same (arg : string) (m m' : termios) (w w1 : world P) :
  line P arg m w = (Ret m', w1) -> w1 = w.
Proof.
  unfold line. destruct (lookup l_str lines arg).
  - unfold ret. congruence.
  - intros H. apply bind_Ret in H. destruct H as (n & w' & Hn & Hr).
    apply e_strtonum_same in Hn. unfold ret in Hr. congruence.
Qed.

Lemma operand_quiet (a : string) (arg1 : option string) (s : st)
  (r : st * bool) (w w1 : world P) :
  operand P a arg1 s w = (Ret r, w1) -> quiet w w1.
Proof.
  unfold operand, invalid.
  destruct (Ascii.eqb (char0 a) "=").
  - destruct (negb (strlen (next a) =? sizeof_termios P * 2)
              || negb (isxnumber (next a)));
      [intros H; now apply eprintf_not_Ret in H |].
    destruct (decodehex (to_bytes P (mode s)) (next a));
      [| discriminate].
    unfold ret. intros H. replace w1 with w by congruence. apply quiet_refl.
  - destruct (parseoperand_mode a s); [| | discriminate].
    + unfold ret. intros H. replace w1 with w by congruence. apply quiet_refl.
    + intros H. apply bind_Ret in H. destruct H as (rk & wk & Hk & H).
      apply parseoperand_key_same in Hk. subst wk.
      destruct rk as [m' |].
      { unfold ret in H. replace w1 with w by congruence. apply quiet_refl. }
      apply bind_Ret in H. destruct H as (ri & wi & Hi & H).
      apply parseoperand_int_quiet in Hi.
      destruct ri as [m' |].
      { unfold ret in H. replace w1 with wi by congruence. exact Hi. }
      apply (quiet_trans _ _ _ Hi).
      destruct (String.eqb a "line").
      * destruct arg1 as [b |]; [| now apply eprintf_not_Ret in H].
        apply bind_Ret in H. destruct H as (m' & wl & Hl & H).
        apply line_same in Hl. unfold ret in H.
        replace w1 with wi by congruence. apply quiet_refl.
      * destruct (parsespeed a) as [sp |]; [| now apply eprintf_not_Ret in H].
        destruct (cfsetispeed P (mode s) (s_speed sp)) as [m1 |];
          [| now apply eprintf_not_Ret in H].
        destruct (cfsetospeed P m1 (s_speed sp)) as [m2 |];
          [| now apply eprintf_not_Ret in H].
        unfold ret in H. replace w1 with wi by congruence. apply quiet_refl.
Qed.

(** A body that succeeds with nothing behind its token used no value
    token: it advanced [argv] by one and does the same whatever follows. *)
Lemma operand_lookahead (a : string) (s : st) (r : st * bool) (w w1 : world P) :
  operand P a None s w = (Ret r, w1) ->
  snd r = false /\ forall arg1, operand P a arg1 s w = (Ret r, w1).
Proof.
  unfold operand, invalid.
  destruct (Ascii.eqb (char0 a) "=").
  - destruct (negb (strlen (next a) =? sizeof_termios P * 2)
              || negb (isxnumber (next a)));
      [intros H; now apply eprintf_not_Ret in H |].
    destruct (decodehex (to_bytes P (mode s)) (next a)); [| discriminate].
    unfold ret. intros H. injection H as <- <-. now split.
  - destruct (parseoperand_mode a s); [| | discriminate].
    + unfold ret. intros H. injection H as <- <-. now split.
    + unfold parseoperand_key, parseoperand_int, bind, ret, eprintf.
      destruct (lookup k_op keys a); [discriminate |].
      destruct (lookup i_op ints a); [discriminate |].
      destruct (String.eqb a "line"); [discriminate |].
      destruct (parsespeed a) as [sp |]; [| discriminate].
      destruct (cfsetispeed P (mode s) (s_speed sp)) as [m1 |];
        [| discriminate].
      destruct (cfsetospeed P m1 (s_speed sp)) as [m2 |]; [| discriminate].
      intros H. injection H as <- <-. now split.
Qed.

Lemma parseoperand_mode_no_class (a : string) (s : st) :
  mode_class a = false -> parseoperand_mode a s = NoMatch.
Proof.
  unfold mode_class, parseoperand_mode.
  destruct (lookup m_op modes (if is_minus a then next a else a)) as [op |];
    [| reflexivity].
  intros H. apply negb_false_iff in H. now rewrite H.
Qed.

(** At a token of no class the loop body is the [invalid] exit. *)
Lemma operand_no_class (a : string) (arg1 : option string) (s : st)
  (w : world P) :
  no_class a = true ->
  operand P a arg1 s w
  = (Exit 1, mk_world (dev w) (out w)
                      (err w ++ "invalid operand: " ++ a ++ LF)
                      (log w) (width w) (pos w)).
Proof.
  unfold no_class. intros H.
  repeat (apply andb_true_iff in H; destruct H as [H ?]).
  repeat match goal with
         | H : negb _ = true |- _ => apply negb_true_iff in H
         end.
  unfold operand.
  rewrite H, (parseoperand_mode_no_class a s) by assumption.
  unfold parseoperand_key, parseoperand_int, parsespeed in *.
  destruct (lookup k_op keys a); [discriminate |].
  destruct (lookup i_op ints a); [discriminate |].
  unfold bind, ret.
  match goal with H : String.eqb a "line" = false |- _ => rewrite H end.
  destruct (lookup s_str speeds a); [discriminate |].
  reflexivity.
Qed.

Lemma operands_quiet (argv : list string) :
  forall (s s1 : st) (w w1 : world P),
    operands P argv s w = (Ret s1, w1) -> quiet w w1.
Proof.
  assert (Hn : forall n argv, (List.length argv <= n)%nat ->
               forall (s s1 : st) (w w1 : world P),
                 operands P argv s w = (Ret s1, w1) -> quiet w w1).
  { induction n as [| n IH]; intros [| a rest] Hlen s s1 w w1 H;
      try (simpl in Hlen; lia);
      try (unfold operands, ret in H; replace w1 with w by congruence;
           apply quiet_refl).
    cbn [operands] in H. apply bind_Ret in H.
    destruct H as ([s' c] & w' & Hop & H).
    apply operand_quiet in Hop. apply (quiet_trans _ _ _ Hop).
    simpl in Hlen. destruct c.
    - destruct rest as [| b rest']; [discriminate |].
      apply (IH rest') in H; [exact H | simpl in Hlen; lia].
    - apply (IH rest) in H; [exact H | lia]. }
  intros s s1 w w1. apply (Hn (List.length argv)). lia.
Qed.

(** Operands that were processed to the end are processed the same way
    when more operands follow. *)
Lemma operands_app (pre rest : list string) :
  forall (s s1 : st) (w w1 : world P),
    operands P pre s w = (Ret s1, w1) ->
    operands P (pre ++ rest) s w = operands P rest s1 w1.
Proof.
  assert (Hn : forall n pre, (List.length pre <= n)%nat ->
               forall (s s1 : st) (w w1 : world P),
                 operands P pre s w = (Ret s1, w1) ->
                 operands P (pre ++ rest) s w = operands P rest s1 w1).
  { induction n as [| n IH]; intros [| a pre'] Hlen s s1 w w1 H;
      try (simpl in Hlen; lia);
      try (unfold operands, ret in H; injection H as <- <-; reflexivity).
    cbn [operands] in H. apply bind_Ret in H.
    destruct H as ([s' c] & w' & Hop & H).
    cbn [app operands]. unfold bind at 1.
    destruct pre' as [| b pre''].
    - apply operand_lookahead in Hop. destruct Hop as [Hc Hany].
      cbn [snd] in Hc. subst c. cbn [operands] in H.
      unfold ret in H. injection H as <- <-.
      cbn [app]. now rewrite Hany.
    - cbn [app hd_error] in *. rewrite Hop. destruct c.
      + apply (IH pre''); [simpl in Hlen; lia | exact H].
      + apply (IH (b :: pre'')); [simpl in Hlen; simpl; lia | exact H]. }
  intros s s1 w w1. apply (Hn (List.length pre)). lia.
Qed.

End Loop.

(* ------------------------------------------------------------------ *)
(** * Further properties *)

(** ** Mode operands: decided by the token, never [abort()] *)

Lemma lookup_some {E : Type} (name : E -> string) (table : list E)
  (arg : string) (e : E) :
  lookup name table arg = Some e -> In e table /\ name e = arg.
Proof.
  unfold lookup. intros H. apply find_some in H. destruct H as [Hin Heq].
  split; [exact Hin |]. apply String.eqb_eq in Heq. now symmetry.
Qed.

Lemma setoperand_mode_some (unset : bool) (op : struct_mode) (s : st) :
  m_type op <> COMB -> exists s', setoperand_mode unset op s = Some s'.
Proof.
  intros H. unfold setoperand_mode.
  destruct (m_type op); simpl; try (eexists; reflexivity). now elim H.
Qed.

Lemma plan_step_not_comb (unset : bool) (fs fu : Z) (op : struct_mode)
  (e : bool * struct_mode) :
  In e (plan_step unset fs fu op) -> snd e = op /\ m_type op <> COMB.
Proof.
  unfold plan_step.
  destruct (m_type op) eqn:Ht; try (intros []);
    destruct (nz fu && nz (m_flags op .& fu));
    destruct (nz fs && nz (m_flags op .& fs)); simpl;
    intros H; repeat (destruct H as [<- | H]); try destruct H;
    (split; [reflexivity | congruence]).
Qed.

Lemma run_plan_total (p : list (bool * struct_mode)) :
  (forall e, In e p -> m_type (snd e) <> COMB) ->
  forall s, exists s', fold_left run_plan p (Some s) = Some s'.
Proof.
  induction p as [| e p IH]; intros Hp s; [now exists s |].
  cbn [fold_left]. rewrite run_plan_some.
  destruct (setoperand_mode_some (fst e) (snd e) s) as [s1 ->].
  - apply Hp. now left.
  - apply IH. intros e' He'. apply Hp. now right.
Qed.

Lemma propagate_total (unset : bool) (fs fu : Z) (s : st) :
  exists s', fold_left (propagate unset fs fu) modes (Some s) = Some s'.
Proof.
  rewrite propagate_plan. apply run_plan_total.
  intros e He. apply in_flat_map in He. destruct He as [op [_ He]].
  apply plan_step_not_comb in He. destruct He as [-> H]. exact H.
Qed.

(** X1: whether a token is a mode operand is decided by the token alone
    ([mode_class]), whatever the state; an accepted token always yields a
    new state, and [abort()] is never reached. *)
Theorem parseoperand_mode_decided (arg : string) (s : st) :
  (mode_class arg = true /\ exists s', parseoperand_mode arg s = Applied s')
  \/ (mode_class arg = false /\ parseoperand_mode arg s = NoMatch).
Proof.
  unfold mode_class, parseoperand_mode.
  destruct (lookup m_op modes (if is_minus arg then next arg else arg))
    as [op |]; [| now right].
  destruct (is_minus arg && negb (nz (m_flags op .& BOOL))); [now right |].
  left. split; [reflexivity |].
  destruct (m_type op) eqn:Ht;
    try (destruct (setoperand_mode_some (is_minus arg) op s) as [s' ->];
         [congruence | now exists s']).
  destruct (nz (m_clear op) || nz (m_set op)).
  - destruct (propagate_total (is_minus arg) (m_set op) (m_clear op) s)
      as [s' ->].
    eexists. reflexivity.
  - eexists. reflexivity.
Qed.

(** ** Mode operands keep the working copy well formed *)

Lemma word32_iff (x : Z) : word32 x <-> x .& Z.ones 32 = x.
Proof.
  unfold word32. rewrite Z.land_ones by lia. split.
  - intros H. now apply Z.mod_small.
  - intros <-. apply Z.mod_pos_bound. lia.
Qed.

Lemma word32_land (b x : Z) : word32 b -> word32 (b .& x).
Proof.
  rewrite !word32_iff. intros H.
  rewrite <- Z.land_assoc, (Z.land_comm x), Z.land_assoc. now rewrite H.
Qed.

Lemma word32_lor (a b : Z) : word32 a -> word32 b -> word32 (a .| b).
Proof.
  rewrite !word32_iff. intros Ha Hb.
  now rewrite Z.land_lor_distr_l, Ha, Hb.
Qed.

Lemma word32_0 : word32 0.
Proof. unfold word32. lia. Qed.

Lemma word32_spec_mutation (unset : bool) (set_bits clear_bits b : Z) :
  word32 b -> word32 set_bits ->
  word32 (spec_mutation unset set_bits clear_bits b).
Proof.
  intros Hb Hs. unfold spec_mutation.
  destruct unset; [| apply word32_lor; [| exact Hs]];
    repeat apply word32_land; exact Hb.
Qed.

Lemma modes_set_word32 (op : struct_mode) : In op modes -> word32 (m_set op).
Proof.
  revert op. apply Forall_forall.
  repeat (constructor; [unfold word32; cbn [m_set]; split; [discriminate | reflexivity] |]).
  constructor.
Qed.

Lemma store_cc_ok (i : nat) (v : Z) (l : list Z) :
  0 <= v < 256 -> cc_ok l -> cc_ok (store i v l).
Proof.
  intros Hv [Hlen Hall]. split; [now rewrite store_length |].
  clear Hlen. revert i. induction Hall as [| x l Hx Hl IH]; intros i.
  - destruct i; simpl; constructor.
  - destruct i; simpl; constructor; auto.
Qed.

Lemma kept_refl (m : termios) : kept m m.
Proof. unfold kept. tauto. Qed.

Lemma kept_trans (m1 m2 m3 : termios) : kept m1 m2 -> kept m2 m3 -> kept m1 m3.
Proof.
  unfold kept. intros (H1 & L1 & A1 & B1 & C1) (H2 & L2 & A2 & B2 & C2).
  split; [intros H; apply H2, H1, H | repeat split; congruence].
Qed.

Lemma kept_save (w : flagword) (v : Z) (m : termios) :
  (wf_termios m -> word32 v) -> kept m (save w v m).
Proof.
  intros Hv. unfold kept.
  split; [| destruct w; repeat split].
  intros Hwf. specialize (Hv Hwf).
  destruct Hwf as (Hi & Ho & Hc & Hl & Hcc).
  destruct w; unfold wf_termios; cbn; tauto.
Qed.

Lemma kept_set_cc (i : nat) (v : Z) (m : termios) :
  0 <= v < 256 -> kept m (set_cc i v m).
Proof.
  intros Hv. unfold kept, set_cc, set_ccs. cbn.
  split; [| rewrite store_length; repeat split].
  intros (Hi & Ho & Hc & Hl & Hcc).
  refine (conj Hi (conj Ho (conj Hc (conj Hl _)))). now apply store_cc_ok.
Qed.

Lemma wf_load (w : flagword) (m : termios) : wf_termios m -> word32 (load w m).
Proof. intros (Hi & Ho & Hc & Hl & _). now destruct w. Qed.

Lemma kept_set_iflag (v : Z) (m : termios) :
  (wf_termios m -> word32 v) -> kept m (set_iflag v m).
Proof. apply (kept_save w_iflag). Qed.

Lemma kept_set_oflag (v : Z) (m : termios) :
  (wf_termios m -> word32 v) -> kept m (set_oflag v m).
Proof. apply (kept_save w_oflag). Qed.

Lemma kept_set_cflag (v : Z) (m : termios) :
  (wf_termios m -> word32 v) -> kept m (set_cflag v m).
Proof. apply (kept_save w_cflag). Qed.

Lemma kept_set_lflag (v : Z) (m : termios) :
  (wf_termios m -> word32 v) -> kept m (set_lflag v m).
Proof. apply (kept_save w_lflag). Qed.

Ltac kept_word :=
  first [ apply kept_set_iflag | apply kept_set_oflag
        | apply kept_set_cflag | apply kept_set_lflag ];
  let H := fresh in
  intros H;
  repeat first
    [ apply word32_0
    | apply (wf_load w_iflag _ H) | apply (wf_load w_oflag _ H)
    | apply (wf_load w_cflag _ H) | apply (wf_load w_lflag _ H)
    | apply word32_land
    | apply word32_lor
    | (match goal with |- word32 (if ?c then _ else _) => destruct c end)
    | (unfold word32; split; [discriminate | reflexivity]) ].

Ltac kept_chain :=
  repeat first
    [ apply kept_refl
    | (eapply kept_trans; [| first [kept_word | apply kept_set_cc; split; [discriminate | reflexivity]]]) ].

Lemma kept_raw (unset : bool) (m : termios) : kept m (raw unset m).
Proof. unfold raw. destruct unset; cbn [negb]; cbv zeta; kept_chain. Qed.

Lemma kept_evenp (unset : bool) (m : termios) : kept m (evenp unset m).
Proof. unfold evenp. cbv zeta. kept_chain. Qed.

Lemma kept_oddp (unset : bool) (m : termios) : kept m (oddp unset m).
Proof. unfold oddp. cbv zeta. kept_chain. Qed.

Lemma kept_dec (unset : bool) (m : termios) : kept m (dec unset m).
Proof. unfold dec. cbv zeta. kept_chain. Qed.

Lemma kept_ek (unset : bool) (m : termios) : kept m (ek unset m).
Proof. unfold ek. cbv zeta. kept_chain. Qed.

Lemma kept_nl (unset : bool) (m : termios) : kept m (nl unset m).
Proof. unfold nl. destruct unset; cbv zeta; kept_chain. Qed.

Lemma kept_pass8 (unset : bool) (m : termios) : kept m (pass8 unset m).
Proof. unfold pass8. cbv zeta. kept_chain. Qed.

Lemma kept_tabs (unset : bool) (m : termios) : kept m (tabs unset m).
Proof. unfold tabs. cbv zeta. kept_chain. Qed.

Lemma kept_sane_keys (l : list struct_key) (m : termios) :
  Forall (fun op => 0 <= k_sanevalue op < 256) l ->
  kept m (fold_left (fun m op => set_cc (k_index op) (k_sanevalue op) m) l m).
Proof.
  intros H. revert m. induction H as [| op l Hop Hl IH]; intros m.
  - apply kept_refl.
  - cbn [fold_left]. eapply kept_trans; [| apply IH].
    now apply kept_set_cc.
Qed.

Lemma kept_sane (unset : bool) (m : termios) : kept m (sane unset m).
Proof.
  unfold sane. cbv zeta.
  eapply kept_trans; [| apply kept_set_cc; split; [discriminate | reflexivity]].
  eapply kept_trans; [| apply kept_set_cc; split; [discriminate | reflexivity]].
  apply kept_sane_keys.
  repeat (constructor; [split; [discriminate | reflexivity] |]). constructor.
Qed.

Lemma kept_call (f : modefun) (unset : bool) (s : st) :
  kept (mode s) (mode (call f unset s)).
Proof.
  destruct f; cbn [call]; rewrite ?mode_on_mode;
    first [ apply kept_raw | apply kept_evenp | apply kept_oddp | apply kept_dec
          | apply kept_ek | apply kept_nl | apply kept_pass8 | apply kept_tabs
          | apply kept_sane | apply kept_refl ].
Qed.

Lemma kept_setoperand_mode (unset : bool) (op : struct_mode) (s s' : st) :
  In op modes -> setoperand_mode unset op s = Some s' ->
  kept (mode s) (mode s').
Proof.
  intros Hin. unfold setoperand_mode.
  destruct (bitsp_of (m_type op)) as [[w |] |]; [| | discriminate];
    intros H; injection H as <-.
  - eapply kept_trans; [| destruct (m_fun op); [apply kept_call | apply kept_refl]].
    rewrite mode_on_mode. apply kept_save. intros Hwf.
    rewrite mutate_is_spec. apply word32_spec_mutation.
    + now apply wf_load.
    + now apply modes_set_word32.
  - destruct (m_fun op); [apply kept_call | apply kept_refl].
Qed.

Lemma kept_run_plan (p : list (bool * struct_mode)) :
  (forall e, In e p -> In (snd e) modes) ->
  forall s s', fold_left run_plan p (Some s) = Some s' ->
               kept (mode s) (mode s').
Proof.
  induction p as [| e p IH]; intros Hp s s' H.
  - injection H as <-. apply kept_refl.
  - cbn [fold_left] in H. rewrite run_plan_some in H.
    destruct (setoperand_mode (fst e) (snd e) s) as [s1 |] eqn:E;
      [| now rewrite run_plan_none in H].
    eapply kept_trans.
    + apply (kept_setoperand_mode _ _ _ _ (Hp e (or_introl eq_refl)) E).
    + apply (IH (fun e' He' => Hp e' (or_intror He')) _ _ H).
Qed.

(** X2: a mode operand, simple or combination, keeps the working copy
    well formed (four 32-bit flag words, [NCCS] control characters in
    0..255) and never touches the line discipline or either speed. *)
Theorem parseoperand_mode_keeps (arg : string) (s s' : st) :
  parseoperand_mode arg s = Applied s' ->
  (wf_termios (mode s) -> wf_termios (mode s'))
  /\ List.length (c_cc (mode s')) = List.length (c_cc (mode s))
  /\ c_line (mode s') = c_line (mode s)
  /\ c_ispeed (mode s') = c_ispeed (mode s)
  /\ c_ospeed (mode s') = c_ospeed (mode s).
Proof.
  change (parseoperand_mode arg s = Applied s' -> kept (mode s) (mode s')).
  unfold parseoperand_mode.
  destruct (lookup m_op modes (if is_minus arg then next arg else arg))
    as [op |] eqn:Hl; [| discriminate].
  apply lookup_some in Hl. destruct Hl as [Hin _].
  destruct (is_minus arg && negb (nz (m_flags op .& BOOL))); [discriminate |].
  assert (Hsimple : forall r,
             match setoperand_mode (is_minus arg) op s with
             | Some s0 => Applied s0
             | None => Aborted
             end = Applied r -> kept (mode s) (mode r)).
  { intros r. destruct (setoperand_mode (is_minus arg) op s) eqn:E;
      [| discriminate].
    intros H. injection H as <-.
    apply (kept_setoperand_mode _ _ _ _ Hin E). }
  destruct (m_type op); try apply Hsimple.
  assert (Hplan : forall s0,
             fold_left (propagate (is_minus arg) (m_set op) (m_clear op))
                       modes (Some s) = Some s0 ->
             kept (mode s) (mode s0)).
  { intros s0. rewrite propagate_plan. apply kept_run_plan.
    intros e He. apply in_flat_map in He. destruct He as [op' [Hin' He]].
    apply plan_step_not_comb in He. destruct He as [-> _]. exact Hin'. }
  destruct (nz (m_clear op) || nz (m_set op)).
  - destruct (fold_left _ modes (Some s)) as [s0 |] eqn:E; [| discriminate].
    intros H. injection H as <-.
    eapply kept_trans; [apply (Hplan s0 eq_refl) |].
    destruct (m_fun op); [apply kept_call | apply kept_refl].
  - intros H. injection H as <-.
    destruct (m_fun op); [apply kept_call | apply kept_refl].
Qed.

Lemma parseoperand_mode_keeps_witness :
  exists s',
    parseoperand_mode "echo" zero_st = Applied s'
    /\ wf_termios (mode s') /\ c_line (mode s') = 0.
Proof.
  assert (Hin : In (mk_mode "echo" LOCAL ECHO 0 None (BOOL .| SANE)) modes)
    by pick_entry.
  pose proof (parseoperand_mode_flag _ w_lflag zero_st Hin eq_refl) as H.
  eexists. split; [exact H |].
  destruct (parseoperand_mode_keeps _ _ _ H) as (Hwf & _ & Hl & _).
  split; [| exact Hl].
  apply Hwf. unfold wf_termios, word32, cc_ok. cbn.
  repeat split; try lia.
  repeat (constructor; [lia |]). constructor.
Defined.

(** ** Combination plans in closed form *)

Lemma termios_ext (a b : termios) :
  c_iflag a = c_iflag b -> c_oflag a = c_oflag b ->
  c_cflag a = c_cflag b -> c_lflag a = c_lflag b ->
  c_line a = c_line b -> c_cc a = c_cc b ->
  c_ispeed a = c_ispeed b -> c_ospeed a = c_ospeed b ->
  c_pad a = c_pad b -> a = b.
Proof. destruct a, b. cbn. intros. now subst. Qed.

Lemma flag_entry_bitsp (op : struct_mode) :
  flag_entry op = true -> exists w, bitsp_of (m_type op) = Some (Some w).
Proof.
  unfold flag_entry. destruct (m_type op); try discriminate; intros _;
    eexists; reflexivity.
Qed.

Lemma on_mode_compose (f g : termios -> termios) (s : st) :
  on_mode g (on_mode f s) = on_mode (fun m => g (f m)) s.
Proof. reflexivity. Qed.

Lemma apply_plan_cons (e : bool * struct_mode) (p : list (bool * struct_mode))
  (m : termios) :
  apply_plan (e :: p) m = apply_plan p (plain_step e m).
Proof. reflexivity. Qed.

(** Running a plan of plain flag entries is [apply_plan] on the working
    copy. *)
Lemma run_plan_closed (p : list (bool * struct_mode)) :
  plain_plan p ->
  forall s, fold_left run_plan p (Some s) = Some (on_mode (apply_plan p) s).
Proof.
  induction 1 as [| e p [Hin Hflag] Hp IH]; intros s.
  - now rewrite <- (on_mode_id s) at 1.
  - cbn [fold_left]. rewrite run_plan_some.
    destruct (flag_entry_bitsp _ Hflag) as [w Hw].
    destruct (flag_entry_plain _ Hin Hflag) as [Hf _].
    rewrite (setoperand_mode_flag _ _ w s Hw Hf), IH.
    rewrite on_mode_compose. unfold on_mode. do 2 f_equal.
    rewrite apply_plan_cons. unfold plain_step. now rewrite Hw.
Qed.

Lemma plan_in_modes (unset : bool) (fs fu : Z) (e : bool * struct_mode) :
  In e (flat_map (plan_step unset fs fu) modes) -> In (snd e) modes.
Proof.
  intros He. apply in_flat_map in He. destruct He as [op [Hin He]].
  apply plan_step_not_comb in He. destruct He as [-> _]. exact Hin.
Qed.

Lemma plain_plan_check (unset : bool) (fs fu : Z) :
  forallb (fun e => flag_entry (snd e))
          (flat_map (plan_step unset fs fu) modes) = true ->
  plain_plan (flat_map (plan_step unset fs fu) modes).
Proof.
  intros H. apply Forall_forall. intros e He. split.
  - now apply plan_in_modes in He.
  - rewrite forallb_forall in H. now apply H.
Qed.

Lemma plain_step_frame (e : bool * struct_mode) (m : termios) :
  c_cc (plain_step e m) = c_cc m /\ c_line (plain_step e m) = c_line m
  /\ c_ispeed (plain_step e m) = c_ispeed m
  /\ c_ospeed (plain_step e m) = c_ospeed m.
Proof.
  unfold plain_step.
  destruct (bitsp_of (m_type (snd e))) as [[w |] |]; try tauto.
  destruct w; cbn; tauto.
Qed.

Lemma apply_plan_frame (p : list (bool * struct_mode)) (m : termios) :
  c_cc (apply_plan p m) = c_cc m /\ c_line (apply_plan p m) = c_line m
  /\ c_ispeed (apply_plan p m) = c_ispeed m
  /\ c_ospeed (apply_plan p m) = c_ospeed m.
Proof.
  revert m. induction p as [| e p IH]; intros m; [cbn; tauto |].
  rewrite apply_plan_cons.
  destruct (IH (plain_step e m)) as (A & B & C & D).
  destruct (plain_step_frame e m) as (A' & B' & C' & D').
  repeat split; congruence.
Qed.

Lemma apply_plan_pad (p : list (bool * struct_mode)) (m : termios) :
  c_pad (apply_plan p m) = c_pad m.
Proof.
  revert m. induction p as [| e p IH]; intros m; [reflexivity |].
  rewrite apply_plan_cons, IH. unfold plain_step.
  destruct (bitsp_of (m_type (snd e))) as [[w |] |]; try reflexivity.
  destruct w; reflexivity.
Qed.

Lemma compose_kt (b k t a c : Z) :
  (((b .& k) .| t) .& a) .| c = (b .& (k .& a)) .| ((t .& a) .| c).
Proof.
  apply Z.bits_inj'. intros i _.
  rewrite ?Z.lor_spec, ?Z.land_spec, ?Z.lor_spec, ?Z.land_spec.
  destruct (Z.testbit b i), (Z.testbit k i), (Z.testbit t i),
           (Z.testbit a i), (Z.testbit c i); reflexivity.
Qed.

Lemma plain_step_word (w : flagword) (e : bool * struct_mode) (kt : Z * Z)
  (m : termios) (b : Z) :
  load w m = apply_kt kt b ->
  load w (plain_step e m) = apply_kt (kt_step w kt e) b.
Proof.
  intros Hm. unfold plain_step, kt_step.
  destruct (bitsp_of (m_type (snd e))) as [[w' |] |]; try exact Hm.
  destruct w, w'; cbn [load save set_cflag set_iflag set_oflag set_lflag
                       c_cflag c_iflag c_oflag c_lflag]; try exact Hm;
    cbn [load] in Hm; rewrite Hm; unfold spec_mutation, apply_kt;
    destruct (fst e); cbn [fst snd];
    rewrite <- ?compose_kt, ?Z.lor_0_r, ?Z.land_assoc; reflexivity.
Qed.

(** Each flag word after a plan is [(b & keep) | force] for the pair the
    plan's [summary] computes. *)
Lemma apply_plan_word (w : flagword) (p : list (bool * struct_mode))
  (m : termios) :
  load w (apply_plan p m) = apply_kt (summary w p) (load w m).
Proof.
  unfold summary.
  assert (H : forall kt m0 b, load w m0 = apply_kt kt b ->
                load w (apply_plan p m0)
                = apply_kt (fold_left (kt_step w) p kt) b).
  { induction p as [| e p IH]; intros kt m0 b Hm; [exact Hm |].
    rewrite apply_plan_cons. cbn [fold_left].
    apply IH. now apply plain_step_word. }
  apply H. unfold apply_kt. cbn [fst snd].
  now rewrite Z.land_m1_r, Z.lor_0_r.
Qed.

Lemma apply_kt_idem (kt : Z * Z) (b : Z) :
  apply_kt kt (apply_kt kt b) = apply_kt kt b.
Proof.
  unfold apply_kt. apply Z.bits_inj'. intros i _.
  rewrite ?Z.lor_spec, ?Z.land_spec, ?Z.lor_spec, ?Z.land_spec.
  destruct (Z.testbit b i), (Z.testbit (fst kt) i), (Z.testbit (snd kt) i);
    reflexivity.
Qed.

Lemma apply_plan_words_only (p : list (bool * struct_mode)) (m m' : termios) :
  (forall w, load w m' = load w m) ->
  forall w, load w (apply_plan p m') = load w (apply_plan p m).
Proof. intros H w. now rewrite !apply_plan_word, H. Qed.

(** ** [sane] *)

Lemma sane_plan_plain : plain_plan sane_plan.
Proof. apply plain_plan_check. reflexivity. Qed.

Lemma parse_sane (s : st) :
  parseoperand_mode "sane" s
  = Applied (on_mode (fun m => sane false (apply_plan sane_plan m)) s).
Proof.
  assert (E : parseoperand_mode "sane" s
              = match fold_left (propagate false SANE INSANE) modes (Some s) with
                | Some s3 => Applied (on_mode (sane false) s3)
                | None => Aborted
                end) by reflexivity.
  rewrite E, propagate_plan.
  change (flat_map (plan_step false SANE INSANE) modes) with sane_plan.
  rewrite (run_plan_closed sane_plan sane_plan_plain).
  cbv beta iota. rewrite on_mode_compose. reflexivity.
Qed.

(** The control characters after [sane()], as a function of those
    before. *)
Lemma set_cc_frame (i : nat) (v : Z) (m : termios) :
  c_cc (set_cc i v m) = store i v (c_cc m)
  /\ (forall w, load w (set_cc i v m) = load w m)
  /\ c_line (set_cc i v m) = c_line m
  /\ c_ispeed (set_cc i v m) = c_ispeed m
  /\ c_ospeed (set_cc i v m) = c_ospeed m.
Proof. repeat split. Qed.

Lemma sane_keys_frame (l : list struct_key) (m : termios) :
  c_cc (fold_left (fun m op => set_cc (k_index op) (k_sanevalue op) m) l m)
  = fold_left (fun a op => store (k_index op) (k_sanevalue op) a) l (c_cc m)
  /\ (forall w, load w (fold_left (fun m op =>
                                    set_cc (k_index op) (k_sanevalue op) m) l m)
                = load w m)
  /\ c_line (fold_left (fun m op => set_cc (k_index op) (k_sanevalue op) m) l m)
     = c_line m
  /\ c_ispeed (fold_left (fun m op =>
                            set_cc (k_index op) (k_sanevalue op) m) l m)
     = c_ispeed m
  /\ c_ospeed (fold_left (fun m op =>
                            set_cc (k_index op) (k_sanevalue op) m) l m)
     = c_ospeed m.
Proof.
  revert m. induction l as [| op l IH]; intros m.
  - cbn. repeat split.
  - cbn [fold_left].
    destruct (IH (set_cc (k_index op) (k_sanevalue op) m))
      as (A & B & C & D & E).
    destruct (set_cc_frame (k_index op) (k_sanevalue op) m)
      as (A' & B' & C' & D' & E').
    rewrite A, C, D, E, A', C', D', E'.
    split; [reflexivity |]. split; [| repeat split].
    intros w. now rewrite B, B'.
Qed.

Lemma sane_frame (unset : bool) (m : termios) :
  c_cc (sane unset m) = sane_cc (c_cc m)
  /\ (forall w, load w (sane unset m) = load w m)
  /\ c_line (sane unset m) = c_line m
  /\ c_ispeed (sane unset m) = c_ispeed m
  /\ c_ospeed (sane unset m) = c_ospeed m.
Proof.
  unfold sane, sane_cc. cbv zeta.
  set (m0 := fold_left (fun m op => set_cc (k_index op) (k_sanevalue op) m)
                       keys m).
  destruct (sane_keys_frame keys m) as (A & B & C & D & E). fold m0 in A, B, C, D, E.
  destruct (set_cc_frame VMIN 1 m0) as (A1 & B1 & C1 & D1 & E1).
  destruct (set_cc_frame VTIME 0 (set_cc VMIN 1 m0)) as (A2 & B2 & C2 & D2 & E2).
  rewrite A2, A1, A, C2, C1, C, D2, D1, D, E2, E1, E.
  split; [reflexivity |]. split; [| repeat split].
  intros w. now rewrite B2, B1, B.
Qed.

Lemma sane_pad (unset : bool) (m : termios) : c_pad (sane unset m) = c_pad m.
Proof.
  unfold sane. cbv zeta. cbn [set_cc set_ccs c_pad].
  generalize keys. intros l. revert m.
  induction l as [| op l IH]; intros m; [reflexivity |].
  cbn [fold_left]. now rewrite IH.
Qed.

Lemma sane_cc_idem (a : list Z) : sane_cc (sane_cc a) = sane_cc a.
Proof.
  do 17 (destruct a as [| ? a]; [reflexivity |]). reflexivity.
Qed.

Lemma idempotent_from_frames
  (F : termios -> termios) (kt : flagword -> Z * Z) (G : list Z -> list Z) :
  (forall m w, load w (F m) = apply_kt (kt w) (load w m)) ->
  (forall m, c_cc (F m) = G (c_cc m) /\ c_line (F m) = c_line m
             /\ c_ispeed (F m) = c_ispeed m /\ c_ospeed (F m) = c_ospeed m) ->
  (forall a, G (G a) = G a) ->
  (forall m, c_pad (F m) = c_pad m) ->
  forall m, F (F m) = F m.
Proof.
  intros Hw Hc HG Hpad m.
  destruct (Hc m) as (A & C & D & E).
  destruct (Hc (F m)) as (A2 & C2 & D2 & E2).
  pose proof (fun w => eq_trans (Hw (F m) w)
                         (eq_trans (f_equal (apply_kt (kt w)) (Hw m w))
                            (eq_trans (apply_kt_idem (kt w) (load w m))
                                      (eq_sym (Hw m w))))) as Hword.
  apply termios_ext;
    [ exact (Hword w_iflag) | exact (Hword w_oflag) | exact (Hword w_cflag)
    | exact (Hword w_lflag) | congruence | rewrite A2, A; apply HG
    | congruence | congruence | apply Hpad ].
Qed.

Lemma sane_step_frames (m : termios) :
  c_cc (sane false (apply_plan sane_plan m)) = sane_cc (c_cc m)
  /\ c_line (sane false (apply_plan sane_plan m)) = c_line m
  /\ c_ispeed (sane false (apply_plan sane_plan m)) = c_ispeed m
  /\ c_ospeed (sane false (apply_plan sane_plan m)) = c_ospeed m.
Proof.
  destruct (sane_frame false (apply_plan sane_plan m)) as (A & _ & C & D & E).
  destruct (apply_plan_frame sane_plan m) as (A' & C' & D' & E').
  rewrite A, C, D, E, A', C', D', E'. repeat split.
Qed.

Lemma sane_step_words (m : termios) (w : flagword) :
  load w (sane false (apply_plan sane_plan m))
  = apply_kt (summary w sane_plan) (load w m).
Proof.
  destruct (sane_frame false (apply_plan sane_plan m)) as (_ & B & _).
  now rewrite B, apply_plan_word.
Qed.

(** X3: [sane] is idempotent on the whole state: applying it to its own
    result changes nothing (flag words, control characters, VMIN, VTIME and
    the three counters). *)
Theorem sane_idempotent (s : st) :
  exists s1,
    parseoperand_mode "sane" s = Applied s1
    /\ parseoperand_mode "sane" s1 = Applied s1.
Proof.
  eexists. split; [apply parse_sane |].
  rewrite parse_sane, on_mode_compose. unfold on_mode. do 2 f_equal.
  exact (idempotent_from_frames
           (fun m => sane false (apply_plan sane_plan m))
           (fun w => summary w sane_plan) sane_cc
           sane_step_words sane_step_frames sane_cc_idem
           (fun m => eq_trans (sane_pad false _) (apply_plan_pad sane_plan m))
           (mode s)).
Qed.

(** ** [cooked] and [raw] *)

(** X4: [cooked] is [-raw] and [-cooked] is [raw]: on every state each
    pair gives the same result. *)
Theorem cooked_is_not_raw (s : st) :
  parseoperand_mode "cooked" s = parseoperand_mode "-raw" s
  /\ parseoperand_mode "-cooked" s = parseoperand_mode "raw" s.
Proof.
  assert (E : forall unset : bool,
             parseoperand_mode ((if unset then "-" else "") ++ "cooked") s
             = match fold_left (propagate unset COOKED 0) modes (Some s) with
               | Some s3 => Applied (on_mode (raw (negb unset)) s3)
               | None => Aborted
               end) by (intros u; destruct u; reflexivity).
  assert (R : forall unset : bool,
             parseoperand_mode ((if unset then "-" else "") ++ "raw") s
             = match fold_left (propagate unset 0 COOKED) modes (Some s) with
               | Some s3 => Applied (on_mode (raw unset) s3)
               | None => Aborted
               end) by (intros u; destruct u; reflexivity).
  pose proof (E false) as Ec. pose proof (E true) as Enc.
  pose proof (R false) as Rr. pose proof (R true) as Rnr.
  cbn [append negb] in Ec, Enc, Rr, Rnr.
  rewrite Ec, Enc, Rr, Rnr, !propagate_plan. split; reflexivity.
Qed.

(** ** The default display *)

(** One turn of the display loop in "differences" mode, by cases. *)
Lemma display_mode_diff (m : termios) (op : struct_mode) :
  display_mode m false op
  = if flag_entry op && negb (tagged DUP op)
    then if holds m op
         then if negb (isdefault (m_flags op)) then [m_op op] else []
         else if tagged BOOL op && isdefault (m_flags op)
              then ["-" ++ m_op op] else []
    else [].
Proof.
  unfold display_mode, flag_entry, holds, tagged.
  destruct (m_type op); cbn [bitsp_of andb orb]; try reflexivity;
    destruct (nz (m_flags op .& DUP)); cbn [negb]; try reflexivity;
    match goal with
    | |- context [if ?c then (if _ then [m_op op] else _) else _] =>
        destruct c; [reflexivity |]
    end;
    destruct (nz (m_flags op .& BOOL)); reflexivity.
Qed.

(** X5: in "differences" mode the mode section mentions a catalog entry
    bare exactly when the entry addresses a flag word, is not DUP-tagged,
    currently holds and is not a default; and hyphenated exactly when it
    addresses a flag word, is not DUP-tagged, is BOOL-tagged, does not hold
    and is a default. *)
Theorem display_differences_modes (m : termios) (op : struct_mode) :
  In op modes ->
  (In (m_op op) (display_modes m false)
   <-> flag_entry op && negb (tagged DUP op) && holds m op
       && negb (isdefault (m_flags op)) = true)
  /\ (In ("-" ++ m_op op) (display_modes m false)
      <-> flag_entry op && negb (tagged DUP op) && tagged BOOL op
          && negb (holds m op) && isdefault (m_flags op) = true).
Proof.
  intros Hin. unfold display_modes. rewrite !in_flat_map. split; split.
  - intros [op' [Hin' Htok]]. rewrite display_mode_diff in Htok.
    destruct (flag_entry op' && negb (tagged DUP op')) eqn:Hshow;
      [| destruct Htok].
    destruct (holds m op') eqn:Hh.
    + destruct (negb (isdefault (m_flags op'))) eqn:Hd; [| destruct Htok].
      destruct Htok as [E | []].
      assert (op' = op) by (apply modes_name_inj; auto). subst op'.
      now rewrite Hshow, Hh, Hd.
    + destruct (tagged BOOL op' && isdefault (m_flags op')); [| destruct Htok].
      destruct Htok as [E | []].
      elim (minus_name_differs op op' Hin). now symmetry.
  - intros H. exists op. split; [exact Hin |]. rewrite display_mode_diff.
    apply andb_true_iff in H. destruct H as [H ->].
    apply andb_true_iff in H. destruct H as [-> ->]. now left.
  - intros [op' [Hin' Htok]]. rewrite display_mode_diff in Htok.
    destruct (flag_entry op' && negb (tagged DUP op')) eqn:Hshow;
      [| destruct Htok].
    destruct (holds m op') eqn:Hh.
    + destruct (negb (isdefault (m_flags op'))); [| destruct Htok].
      destruct Htok as [E | []].
      elim (minus_name_differs op' op Hin'). exact E.
    + destruct (tagged BOOL op') eqn:Hb; [| destruct Htok].
      destruct (isdefault (m_flags op')) eqn:Hd; [| destruct Htok].
      destruct Htok as [E | []].
      assert (op' = op).
      { apply modes_name_inj; auto. now injection E. }
      subst op'. now rewrite Hshow, Hb, Hh, Hd.
  - intros H. exists op. split; [exact Hin |]. rewrite display_mode_diff.
    apply andb_true_iff in H. destruct H as [H Hd].
    apply andb_true_iff in H. destruct H as [H Hh].
    apply andb_true_iff in H. destruct H as [-> Hb].
    apply negb_true_iff in Hh. rewrite Hh, Hb, Hd. now left.
Qed.

Lemma display_differences_modes_witness :
  In "-echo" (display_modes zero_termios false)
  /\ ~ In "echo" (display_modes (set_lflag ECHO zero_termios) false).
Proof.
  assert (Hin : In (mk_mode "echo" LOCAL ECHO 0 None (BOOL .| SANE)) modes)
    by pick_entry.
  destruct (display_differences_modes zero_termios _ Hin) as [_ Hneg].
  destruct (display_differences_modes (set_lflag ECHO zero_termios) _ Hin)
    as [Hbare _].
  split.
  - apply Hneg. reflexivity.
  - intros H. apply Hbare in H. discriminate H.
Defined.

(** ** The display after [sane] *)

Lemma display_mode_tokens (m : termios) (all : bool) (op : struct_mode)
  (tok : string) :
  In tok (display_mode m all op) -> tok = m_op op \/ tok = "-" ++ m_op op.
Proof.
  unfold display_mode.
  repeat match goal with
         | |- context [match ?c with _ => _ end] => destruct c
         end; cbn [In]; intros H; intuition (subst; auto).
Qed.

Lemma masked_forced (b k t mask : Z) :
  k .& Z.lnot t .& mask = 0 -> apply_kt (k, t) b .& mask = t .& mask.
Proof.
  intros H. unfold apply_kt. cbn [fst snd].
  apply Z.bits_inj'. intros i Hi.
  assert (Hb : Z.testbit (k .& Z.lnot t .& mask) i = false)
    by (rewrite H; apply Z.bits_0).
  rewrite !Z.land_spec, Z.lnot_spec in Hb by assumption.
  rewrite !Z.land_spec, Z.lor_spec, Z.land_spec.
  destruct (Z.testbit b i), (Z.testbit k i), (Z.testbit t i),
           (Z.testbit mask i); try reflexivity; discriminate Hb.
Qed.

Lemma sane_silent_check :
  forallb (silent_after (fun w => summary w sane_plan))
          (filter (fun op => tagged SANE op || tagged INSANE op) modes) = true.
Proof. reflexivity. Qed.

(** A working copy whose flag words are forced as [silent_after] checks
    shows nothing for the entry in the default display. *)
Lemma silent_entry (m1 : termios) (kt : flagword -> Z * Z) (b : flagword -> Z)
  (op : struct_mode) :
  (forall w, load w m1 = apply_kt (kt w) (b w)) ->
  In op modes -> silent_after kt op = true ->
  ~ mentioned op (display_modes m1 false).
Proof.
  intros Hwords Hin Hall.
  unfold mentioned, display_modes. rewrite !in_flat_map.
  assert (Hown : forall tok, (tok = m_op op \/ tok = "-" ++ m_op op) ->
                 forall op', In op' modes -> In tok (display_mode m1 false op') ->
                 In tok (display_mode m1 false op)).
  { intros tok Htok op' Hin' H.
    assert (op' = op); [| now subst op'].
    destruct (display_mode_tokens _ _ _ _ H) as [E | E];
      destruct Htok as [-> | ->].
    - apply modes_name_inj; auto.
    - elim (minus_name_differs op' op Hin'). now symmetry.
    - elim (minus_name_differs op op' Hin). exact E.
    - apply modes_name_inj; auto. now injection E. }
  assert (Hnone : display_mode m1 false op = []).
  { rewrite display_mode_diff.
    destruct (flag_entry op && negb (tagged DUP op)) eqn:Hshow; [| reflexivity].
    unfold silent_after in Hall. unfold holds.
    apply andb_true_iff in Hshow. destruct Hshow as [Hflag _].
    destruct (flag_entry_bitsp op Hflag) as [w Hw]. rewrite Hw in *.
    apply andb_true_iff in Hall. destruct Hall as [Hk Hv].
    apply Z.eqb_eq in Hk.
    fold (display_mask op). rewrite Hwords.
    rewrite (surjective_pairing (kt w)).
    rewrite (masked_forced _ _ _ _ Hk).
    destruct (snd (kt w) .& display_mask op =? m_set op).
    - now rewrite Hv.
    - apply negb_true_iff in Hv. now rewrite Hv. }
  intros [[op' [Hin' H]] | [op' [Hin' H]]].
  - apply (Hown _ (or_introl eq_refl)) in H; [| exact Hin'].
    rewrite Hnone in H. destruct H.
  - apply (Hown _ (or_intror eq_refl)) in H; [| exact Hin'].
    rewrite Hnone in H. destruct H.
Qed.

Lemma mode_after_sane (s s1 : st) :
  parseoperand_mode "sane" s = Applied s1 ->
  mode s1 = sane false (apply_plan sane_plan (mode s)).
Proof.
  rewrite parse_sane. intros H. injection H as H. now rewrite <- H.
Qed.

(** X6: after [sane], whatever the state before, the default display
    mentions no mode that is tagged SANE or INSANE, neither bare nor
    hyphenated. *)
Theorem sane_leaves_no_difference (s s1 : st) (op : struct_mode) :
  parseoperand_mode "sane" s = Applied s1 ->
  In op modes ->
  tagged SANE op || tagged INSANE op = true ->
  ~ mentioned op (display_modes (mode s1) false).
Proof.
  intros Hs Hin Htag.
  apply (silent_entry (mode s1) (fun w => summary w sane_plan)
                      (fun w => load w (mode s))); [| exact Hin |].
  - intros w. rewrite (mode_after_sane s s1 Hs). apply sane_step_words.
  - pose proof sane_silent_check as Hall. rewrite forallb_forall in Hall.
    apply Hall. apply filter_In. now split.
Qed.

Lemma sane_leaves_no_difference_witness :
  ~ mentioned (mk_mode "echo" LOCAL ECHO 0 None (BOOL .| SANE))
      (display_modes
         (sane false (apply_plan sane_plan zero_termios)) false).
Proof.
  apply (sane_leaves_no_difference zero_st
           (on_mode (fun m => sane false (apply_plan sane_plan m)) zero_st)).
  - apply parse_sane.
  - pick_entry.
  - reflexivity.
Defined.

Lemma for_each_silent {P : platform} {A : Type} (f : A -> M P unit)
  (l : list A) (w : world P) :
  (forall a, In a l -> f a w = (Ret tt, w)) ->
  for_each P f l w = (Ret tt, w).
Proof.
  induction l as [| a l IH]; intros H; [reflexivity |].
  cbn [for_each]. unfold bind. rewrite (H a (or_introl eq_refl)).
  apply IH. intros b Hb. apply H. now right.
Qed.

(** X7: after [sane] on a working copy with its [NCCS] control
    characters, every key operand is at its sane value, VMIN is 1 and
    VTIME is 0, so the default display prints no control-character
    token. *)
Theorem sane_resets_keys (P : platform) (s s1 : st) (w : world P) :
  parseoperand_mode "sane" s = Applied s1 ->
  List.length (c_cc (mode s)) = NCCS ->
  (forall kbd, In kbd keys -> cc (mode s1) (k_index kbd) = k_sanevalue kbd)
  /\ cc (mode s1) VMIN = 1
  /\ cc (mode s1) VTIME = 0
  /\ for_each P (display_key P (mode s1) false) keys w = (Ret tt, w).
Proof.
  intros Hs Hlen.
  assert (Hcc : c_cc (mode s1) = sane_cc (c_cc (mode s))).
  { rewrite (mode_after_sane s s1 Hs). apply sane_step_frames. }
  clear Hs. generalize dependent (mode s1). intros m1 Hcc.
  assert (Hkeys : forall kbd, In kbd keys ->
                    cc m1 (k_index kbd) = k_sanevalue kbd).
  { unfold cc. rewrite Hcc. clear Hcc. revert Hlen.
    generalize (c_cc (mode s)). intros l Hlen.
    do 32 (destruct l as [| ? l]; [discriminate Hlen |]).
    intros kbd Hin.
    repeat (destruct Hin as [<- | Hin]; [reflexivity |]). destruct Hin. }
  assert (Hmin : cc m1 VMIN = 1 /\ cc m1 VTIME = 0).
  { unfold cc. rewrite Hcc. clear Hcc Hkeys. revert Hlen.
    generalize (c_cc (mode s)). intros l Hlen.
    do 32 (destruct l as [| ? l]; [discriminate Hlen |]).
    split; reflexivity. }
  split; [exact Hkeys |].
  split; [exact (proj1 Hmin) |]. split; [exact (proj2 Hmin) |].
  apply for_each_silent. intros kbd Hin. unfold display_key.
  rewrite (Hkeys kbd Hin), Z.eqb_refl. reflexivity.
Qed.

Lemma sane_resets_keys_witness :
  cc (sane false (apply_plan sane_plan zero_termios)) VERASE = CERASE.
Proof.
  destruct (sane_resets_keys sim zero_st
              (on_mode (fun m => sane false (apply_plan sane_plan m)) zero_st)
              (sim_world zero_termios)) as [H _].
  - apply parse_sane.
  - reflexivity.
  - apply (H (mk_key "erase" VERASE CERASE)). pick_entry.
Defined.

(** ** Control characters as text *)

Lemma key_text_nat
  (P : platform) (op : struct_key) (n : nat) (m : termios) (w : world P) :
  lookup k_op keys (k_op op) = Some op -> (n < 128)%nat ->
  exists str,
    keytostr (Z.of_nat n) = Some str
    /\ parseoperand_key P (k_op op) (Some str) m w
       = (Ret (Some (set_cc (k_index op) (Z.of_nat n) m)), w).
Proof.
  intros Hl Hn. unfold parseoperand_key. rewrite Hl.
  do 128 (destruct n as [| n]; [eexists; split; reflexivity |]).
  lia.
Qed.

(** X8: what [keytostr] prints for a 7-bit control character is accepted
    back by every key operand, and the control character the operand
    addresses then reads as that same character: "undef" for 0, [^X]
    below 32, the character itself up to 126, [^?] for 127.  The other
    control characters are as they were. *)
Theorem key_text_roundtrip
  (P : platform) (op : struct_key) (v : Z) (m : termios) (w : world P) :
  In op keys -> 0 <= v < 128 ->
  List.length (c_cc m) = NCCS ->
  exists str m',
    keytostr v = Some str
    /\ parseoperand_key P (k_op op) (Some str) m w = (Ret (Some m'), w)
    /\ cc m' (k_index op) = v
    /\ (forall j, j <> k_index op -> cc m' j = cc m j).
Proof.
  intros Hin Hv Hlen.
  destruct (key_text_nat P op (Z.to_nat v) m w) as (str & Hs & Hp);
    [now apply lookup_keys_self | lia |].
  rewrite Z2Nat.id in Hs, Hp by lia.
  exists str, (set_cc (k_index op) v m).
  split; [exact Hs |]. split; [exact Hp |]. split.
  - apply cc_set_cc_same. rewrite Hlen. now apply keys_in_range.
  - intros j Hj. apply cc_set_cc_other. congruence.
Qed.

Lemma key_text_roundtrip_witness :
  cc (set_cc VINTR 28 zero_termios) VINTR = 28
  /\ exists str m',
       keytostr 3 = Some str
       /\ parseoperand_key sim "intr" (Some str) (set_cc VINTR 28 zero_termios)
                           (sim_world zero_termios)
          = (Ret (Some m'), sim_world zero_termios)
       /\ cc m' VINTR = 3.
Proof.
  split; [reflexivity |].
  destruct (key_text_roundtrip sim (mk_key "intr" VINTR CINTR) 3
              (set_cc VINTR 28 zero_termios) (sim_world zero_termios))
    as (str & m' & Hs & Hp & Hc & _).
  - pick_entry.
  - lia.
  - reflexivity.
  - exists str, m'. split; [exact Hs |]. split; [exact Hp | exact Hc].
Defined.

(** ** Speeds and line disciplines as text *)

(** X9: the name [baudtostr] gives for the value of any catalog entry
    parses back, with [parsespeed], to an entry of the same value; a value
    that no entry denotes is printed as "0", which parses as B0. *)
Theorem baud_text_roundtrip (baud : Z) :
  (forall sp, In sp speeds -> s_speed sp = baud ->
     exists sp', parsespeed (baudtostr baud) = Some sp'
                 /\ s_speed sp' = baud)
  /\ ((forall sp, In sp speeds -> s_speed sp <> baud) ->
      baudtostr baud = "0"
      /\ parsespeed (baudtostr baud) = Some (mk_speed "0" B0)).
Proof.
  split.
  - intros sp Hin <-.
    repeat (destruct Hin as [<- | Hin];
            [eexists; split; reflexivity |]).
    destruct Hin.
  - intros Hnone. unfold baudtostr.
    destruct (find (fun sp => s_speed sp =? baud) speeds) as [sp |] eqn:E.
    + apply find_some in E. destruct E as [Hin Heq].
      apply Z.eqb_eq in Heq. now elim (Hnone sp Hin).
    + split; reflexivity.
Qed.

Lemma baud_text_roundtrip_witness :
  exists sp', parsespeed (baudtostr B38400) = Some sp'
              /\ s_speed sp' = B38400.
Proof.
  destruct (baud_text_roundtrip B38400) as [H _].
  apply (H (mk_speed "extb" B38400)).
  - pick_entry.
  - reflexivity.
Defined.

(** X10: every named line discipline survives the trip through its
    name: [linetostr] of an entry's value is the entry's name, and [line]
    on that name stores the value without reading a number. *)
Theorem line_text_roundtrip
  (P : platform) (ln : struct_line) (m : termios) (w : world P) :
  In ln lines ->
  linetostr (l_value ln) = Some (l_str ln)
  /\ line P (l_str ln) m w = (Ret (set_line (l_value ln) m), w).
Proof.
  intros Hin.
  repeat (destruct Hin as [<- | Hin]; [split; reflexivity |]).
  destruct Hin.
Qed.

Lemma line_text_roundtrip_witness :
  line sim "ppp" zero_termios (sim_world zero_termios)
  = (Ret (set_line N_PPP zero_termios), sim_world zero_termios).
Proof.
  apply (line_text_roundtrip sim (mk_line "ppp" N_PPP)). pick_entry.
Defined.

(** ** Numbers and key values *)

(** X11: [estrtonum_anyradix] either returns the number [strtoll] read,
    which then lies between [minval] and [maxval], and leaves the world as
    it is, or ends the process with status 1; it never returns a number out
    of range. *)
Theorem estrtonum_anyradix_bounds
  (P : platform) (numstr : string) (minval maxval : Z) (w : world P) :
  (exists n,
      estrtonum_anyradix P numstr minval maxval w = (Ret n, w)
      /\ n = sl_value (strtoll P numstr 0)
      /\ minval <= n <= maxval)
  \/ (exists w',
         estrtonum_anyradix P numstr minval maxval w = (Exit 1, w')
         /\ out w' = out w /\ log w' = log w).
Proof.
  unfold estrtonum_anyradix, eprintf, ret.
  destruct ((sl_ep (strtoll P numstr 0) =? 0)%nat
            || negb (Ascii.eqb (char_at numstr (sl_ep (strtoll P numstr 0)))
                               zero));
    [right; eexists; repeat split |].
  destruct (Z.ltb_spec (sl_value (strtoll P numstr 0)) minval) as [Hlo | Hlo].
  { rewrite orb_true_r. right. eexists. repeat split. }
  rewrite orb_false_r.
  destruct ((sl_value (strtoll P numstr 0) =? LLONG_MIN)
            && sl_erange (strtoll P numstr 0));
    [right; eexists; repeat split |].
  destruct (Z.gtb_spec (sl_value (strtoll P numstr 0)) maxval) as [Hhi | Hhi].
  { rewrite orb_true_r. right. eexists. repeat split. }
  rewrite orb_false_r.
  destruct ((sl_value (strtoll P numstr 0) =? LLONG_MAX)
            && sl_erange (strtoll P numstr 0));
    [right; eexists; repeat split |].
  left. eexists. split; [reflexivity |]. split; [reflexivity | lia].
Qed.

Lemma to_cc_range (x : Z) : 0 <= to_cc x < 256.
Proof. unfold to_cc. apply Z.mod_pos_bound. lia. Qed.

(** What a key operand that returns has done: the value it stored lies
    between 0 and 255 and is fixed by the two tokens, whatever the working
    copy. *)
Lemma parseoperand_key_value
  (P : platform) (arg0 arg1 : string) (m m' : termios) (w w' : world P) :
  parseoperand_key P arg0 (Some arg1) m w = (Ret (Some m'), w') ->
  exists op v,
    In op keys /\ k_op op = arg0
    /\ 0 <= v < 256
    /\ w' = w
    /\ forall n, parseoperand_key P arg0 (Some arg1) n w
                 = (Ret (Some (set_cc (k_index op) v n)), w).
Proof.
  intros H. pose proof (parseoperand_key_same P _ _ _ _ _ _ H) as ->.
  unfold parseoperand_key in *.
  destruct (lookup k_op keys arg0) as [op |] eqn:Hl; [| discriminate H].
  apply lookup_some in Hl. destruct Hl as [Hin Hname].
  apply bind_Ret in H. destruct H as (v & w1 & Hv & Hr).
  unfold ret in Hr. injection Hr as _ ->.
  assert (Hrange : 0 <= v < 256).
  { repeat match type of Hv with
           | (if ?c then _ else _) _ = _ => destruct c
           end;
      try (unfold ret in Hv; injection Hv as <-;
           first [apply to_cc_range | unfold _POSIX_VDISABLE; lia | lia]).
    apply bind_Ret in Hv. destruct Hv as (n & w2 & _ & Hr).
    unfold ret in Hr. injection Hr as <- _. apply to_cc_range. }
  exists op, v.
  split; [exact Hin |]. split; [exact Hname |]. split; [exact Hrange |].
  split; [reflexivity |].
  intros n. unfold bind at 1. rewrite Hv. reflexivity.
Qed.

(** X12: a key operand that returns has stored one value between 0 and
    255 in the control character of its catalog entry: that character
    reads as the value afterwards, and the value is fixed by the two
    tokens, whatever the working copy was.  Nothing else is changed: the
    other control characters, the flag words, the line discipline, the
    speeds and the padding are as before, a well-formed working copy stays
    well formed, and the world is untouched. *)
Theorem parseoperand_key_stores_one_byte
  (P : platform) (arg0 arg1 : string) (m m' : termios) (w w' : world P) :
  parseoperand_key P arg0 (Some arg1) m w = (Ret (Some m'), w') ->
  List.length (c_cc m) = NCCS ->
  exists op v,
    In op keys /\ k_op op = arg0
    /\ 0 <= v < 256
    /\ cc m' (k_index op) = v
    /\ (forall j, j <> k_index op -> cc m' j = cc m j)
    /\ List.length (c_cc m') = NCCS
    /\ (c_iflag m' = c_iflag m /\ c_oflag m' = c_oflag m
        /\ c_cflag m' = c_cflag m /\ c_lflag m' = c_lflag m)
    /\ (c_line m' = c_line m /\ c_ispeed m' = c_ispeed m
        /\ c_ospeed m' = c_ospeed m /\ c_pad m' = c_pad m)
    /\ (wf_termios m -> wf_termios m')
    /\ w' = w
    /\ (forall n, List.length (c_cc n) = NCCS ->
        exists n',
          parseoperand_key P arg0 (Some arg1) n w = (Ret (Some n'), w)
          /\ cc n' (k_index op) = v).
Proof.
  intros H Hlen.
  destruct (parseoperand_key_value P _ _ _ _ _ _ H)
    as (op & v & Hin & Hname & Hrange & -> & Hall).
  assert (Hm : m' = set_cc (k_index op) v m).
  { rewrite Hall in H. now injection H as <-. }
  pose proof (keys_in_range op Hin) as Hidx.
  exists op, v.
  split; [exact Hin |]. split; [exact Hname |]. split; [exact Hrange |].
  subst m'.
  split; [apply cc_set_cc_same; rewrite Hlen; exact Hidx |].
  split; [intros j Hj; apply cc_set_cc_other; congruence |].
  split; [unfold set_cc, set_ccs; cbn [c_cc]; now rewrite store_length |].
  split; [repeat split |]. split; [repeat split |].
  split; [exact (proj1 (kept_set_cc (k_index op) v m Hrange)) |].
  split; [reflexivity |].
  intros n Hn. exists (set_cc (k_index op) v n).
  split; [apply Hall |].
  apply cc_set_cc_same. rewrite Hn. exact Hidx.
Qed.

Lemma parseoperand_key_stores_one_byte_witness :
  cc zero_termios VEOF = 0
  /\ exists op v,
       In op keys /\ k_op op = "eof" /\ 0 <= v < 256
       /\ cc (set_cc VEOF 4 zero_termios) (k_index op) = v
       /\ cc (set_cc VEOF 4 zero_termios) VEOF = 4.
Proof.
  split; [reflexivity |].
  destruct (parseoperand_key_stores_one_byte sim "eof" "^D" zero_termios
              (set_cc VEOF 4 zero_termios)
              (sim_world zero_termios) (sim_world zero_termios))
    as (op & v & Hin & Hn & Hv & Hm & _).
  - reflexivity.
  - reflexivity.
  - exists op, v. split; [exact Hin |]. split; [exact Hn |].
    split; [exact Hv |]. split; [exact Hm | reflexivity].
Defined.

(** ** Tokens that are rejected *)

Lemma names_plain {E : Type} (name : E -> string) (table : list E)
  (a : string) :
  forallb (fun e => negb (is_minus (name e))) table = true ->
  is_minus a = true -> lookup name table a = None.
Proof.
  intros Hall Ha. destruct (lookup name table a) as [e |] eqn:Hl;
    [| reflexivity].
  apply lookup_some in Hl. destruct Hl as [Hin <-].
  rewrite forallb_forall in Hall. apply Hall in Hin.
  rewrite Ha in Hin. discriminate Hin.
Qed.

(** X13: a token that begins with a hyphen is a negated mode or nothing:
    unless it is the hyphenated name of a BOOL-tagged catalog entry, the
    loop body ends the process with status 1 and the line naming the
    token.  In particular the unset polarity of a non-negatable entry
    ([-cs8], [-sane], [-speed]) is an invalid operand. *)
Theorem hyphen_token_is_mode_or_invalid
  (P : platform) (a : string) (arg1 : option string) (s : st) (w : world P) :
  is_minus a = true ->
  mode_class a = false ->
  operand P a arg1 s w
  = (Exit 1, mk_world (dev w) (out w)
                      (err w ++ "invalid operand: " ++ a ++ LF)
                      (log w) (width w) (pos w)).
Proof.
  intros Hminus Hclass. apply operand_no_class.
  unfold no_class, parsespeed. rewrite Hclass.
  rewrite (names_plain k_op keys a eq_refl Hminus).
  rewrite (names_plain i_op ints a eq_refl Hminus).
  rewrite (names_plain s_str speeds a eq_refl Hminus).
  unfold is_minus in Hminus. apply Ascii.eqb_eq in Hminus.
  destruct a as [| c a]; [discriminate Hminus |].
  cbn [char0] in *. subst c. reflexivity.
Qed.

Lemma hyphen_token_is_mode_or_invalid_witness :
  fst (operand sim "-cs8" None zero_st (sim_world zero_termios)) = Exit 1.
Proof.
  rewrite (hyphen_token_is_mode_or_invalid sim "-cs8" None zero_st
             (sim_world zero_termios)); reflexivity.
Defined.

Lemma lookup_name_cases {E : Type} (name : E -> string) (table : list E)
  (a : string) :
  is_some (lookup name table a) = true -> In a (map name table).
Proof.
  destruct (lookup name table a) as [e |] eqn:Hl; [| discriminate].
  intros _. apply lookup_some in Hl. destruct Hl as [Hin <-].
  now apply in_map.
Qed.

(** X14: a key operand, an integer-valued operand or [line] that is the
    last token of the command line ends the process with status 1 and the
    line "missing argument for operand: <name>"; nothing was changed. *)
Theorem missing_argument_exit
  (P : platform) (a : string) (s : st) (w : world P) :
  is_some (lookup k_op keys a) || is_some (lookup i_op ints a)
  || String.eqb a "line" = true ->
  operand P a None s w
  = (Exit 1, mk_world (dev w) (out w)
                      (err w ++ "missing argument for operand: " ++ a ++ LF)
                      (log w) (width w) (pos w)).
Proof.
  intros H.
  assert (Hcases : In a (map k_op keys ++ map i_op ints ++ ["line"])%list).
  { apply orb_true_iff in H. destruct H as [H | H].
    - apply orb_true_iff in H. destruct H as [H | H].
      + apply in_or_app. left. now apply lookup_name_cases.
      + apply in_or_app. right. apply in_or_app. left.
        now apply lookup_name_cases.
    - apply String.eqb_eq in H. subst a.
      apply in_or_app. right. apply in_or_app. right. now left. }
  clear H. cbn in Hcases.
  repeat (destruct Hcases as [<- | Hcases]; [reflexivity |]).
  destruct Hcases.
Qed.

Lemma missing_argument_exit_witness :
  operand sim "min" None zero_st (sim_world zero_termios)
  = (Exit 1, mk_world (P := sim) (mk_tty zero_termios (mk_winsize 24 80 0 0)) ""
                      ("missing argument for operand: min" ++ LF) [] 0 0).
Proof.
  apply (missing_argument_exit sim "min" zero_st (sim_world zero_termios)).
  reflexivity.
Defined.

(** ** Raw state literals *)

Lemma decodehex_covers (dest : list byte) :
  forall p, String.length p = (2 * List.length dest)%nat ->
  exists img,
    List.length img = List.length dest
    /\ forall dest', List.length dest' = List.length dest ->
                     decodehex dest' p = Some img.
Proof.
  induction dest as [| d dest IH]; intros p Hp.
  - destruct p; [| discriminate Hp]. exists []. split; [reflexivity |].
    intros [| ? ?] H; [reflexivity | discriminate H].
  - destruct p as [| hi p]; [simpl in Hp; lia |].
    destruct p as [| lo rest]; [simpl in Hp; lia |].
    destruct (IH rest) as [img [Hlen Himg]]; [simpl in Hp; lia |].
    eexists (_ :: img). split; [simpl; now rewrite Hlen |].
    intros [| d' dest'] H; [discriminate H |].
    cbn [decodehex]. rewrite Himg by (simpl in H; lia). reflexivity.
Qed.

(** X15: a token [=p] is accepted exactly when [p] has twice
    [sizeof(struct termios)] characters, all hexadecimal digits.  When it
    is, the new working copy is made from [p] alone, whatever the working
    copy was; when it is not, the process ends with status 1 and the line
    naming the token. *)
Theorem raw_literal_overwrites
  (P : platform) (p : string) (arg1 : option string) (w : world P) :
  (forall m, Z.of_nat (List.length (to_bytes P m)) = sizeof_termios P) ->
  (literal_ok (sizeof_termios P) p = true ->
   exists img,
     Z.of_nat (List.length img) = sizeof_termios P
     /\ forall s, operand P ("=" ++ p) arg1 s w
                  = (Ret (with_mode (of_bytes P img) s, false), w))
  /\ (literal_ok (sizeof_termios P) p = false ->
      forall s, operand P ("=" ++ p) arg1 s w
                = (Exit 1, mk_world (dev w) (out w)
                                    (err w ++ "invalid operand: " ++ ("=" ++ p)
                                           ++ LF)
                                    (log w) (width w) (pos w))).
Proof.
  intros Hsize. unfold literal_ok. split; intros Hok.
  - apply negb_true_iff in Hok.
    assert (Hlen : String.length p
                   = (2 * Z.to_nat (sizeof_termios P))%nat).
    { apply orb_false_iff in Hok. destruct Hok as [Hl _].
      apply negb_false_iff, Z.eqb_eq in Hl. unfold strlen in Hl.
      pose proof (Hsize zero_termios). lia. }
    destruct (decodehex_covers (repeat x00 (Z.to_nat (sizeof_termios P))) p)
      as [img [Hilen Himg]]; [now rewrite repeat_length |].
    rewrite repeat_length in Hilen, Himg.
    exists img. split; [pose proof (Hsize zero_termios); lia |].
    intros s. unfold operand.
    change (char0 ("=" ++ p)) with "="%char.
    change (next ("=" ++ p)) with p.
    cbn [Ascii.eqb Bool.eqb andb]. rewrite Hok.
    rewrite Himg; [reflexivity |].
    pose proof (Hsize (mode s)). lia.
  - apply negb_false_iff in Hok. intros s. unfold operand.
    change (char0 ("=" ++ p)) with "="%char.
    change (next ("=" ++ p)) with p.
    cbn [Ascii.eqb Bool.eqb andb]. now rewrite Hok.
Qed.

Lemma sim_layout (m : termios) :
  Z.of_nat (List.length (to_bytes sim m)) = sizeof_termios sim.
Proof.
  cbn [to_bytes sizeof_termios sim]. unfold sim_to_bytes, pad_cc, pad3.
  rewrite !length_app, length_map, !length_firstn, !length_app, repeat_length.
  cbn [List.length le32]. unfold NCCS. lia.
Qed.

Lemma raw_literal_overwrites_witness :
  fst (operand sim "=00ff" None zero_st (sim_world zero_termios)) = Exit 1.
Proof.
  destruct (raw_literal_overwrites sim "00ff" None (sim_world zero_termios)
              sim_layout) as [_ H].
  rewrite H; reflexivity.
Defined.

(** ** The flag loop *)

(** X16: the flag loop consumes a prefix made of [-a], [-g], [-ag] and
    [-ga] only, followed by at most one [--]; flags are recognised nowhere
    else.  Without [--] the first operand left is neither a flag nor [--].
    [aflag] and [gflag] end up set exactly when a token of the prefix sets
    them (or they were set before). *)
Theorem flags_prefix (args : list string) (aflag gflag : Z) :
  exists pre rest,
    snd (flags args aflag gflag) = rest
    /\ forallb flag_token pre = true
    /\ (args = (pre ++ "--" :: rest)%list
        \/ (args = (pre ++ rest)%list
            /\ match rest with
               | [] => True
               | t :: _ => flag_token t = false /\ t <> "--"
               end))
    /\ fst (fst (flags args aflag gflag))
       = (if existsb sets_a pre then 1 else aflag)
    /\ snd (fst (flags args aflag gflag))
       = (if existsb sets_g pre then 1 else gflag).
Proof.
  revert aflag gflag. induction args as [| a args IH]; intros aflag gflag.
  - exists [], []. cbn. repeat split. now right.
  - assert (Hstep : forall a' g' sa sg,
               sets_a a = sa -> sets_g a = sg -> sa || sg = true ->
               a' = (if sa then 1 else aflag) -> g' = (if sg then 1 else gflag) ->
               exists pre rest,
                 snd (flags args a' g') = rest
                 /\ forallb flag_token pre = true
                 /\ ((a :: args) = (pre ++ "--" :: rest)%list
                     \/ ((a :: args) = (pre ++ rest)%list
                         /\ match rest with
                            | [] => True
                            | t :: _ => flag_token t = false /\ t <> "--"
                            end))
                 /\ fst (fst (flags args a' g'))
                    = (if existsb sets_a pre then 1 else aflag)
                 /\ snd (fst (flags args a' g'))
                    = (if existsb sets_g pre then 1 else gflag)).
    { intros a' g' sa sg Hsa Hsg Hflag -> ->.
      destruct (IH (if sa then 1 else aflag) (if sg then 1 else gflag))
        as (pre & rest & Hr & Hp & Hs & Ha & Hg).
      exists (a :: pre), rest.
      split; [exact Hr |].
      split; [cbn [forallb]; unfold flag_token at 1;
              now rewrite Hsa, Hsg, Hflag, Hp |].
      split; [destruct Hs as [-> | [-> Hm]];
              [left; reflexivity | right; split; [reflexivity | exact Hm]] |].
      cbn [existsb]. rewrite Hsa, Hsg, Ha, Hg.
      split; [destruct sa, (existsb sets_a pre)
             | destruct sg, (existsb sets_g pre)]; reflexivity. }
    cbn [flags].
    destruct (String.eqb a "-ag" || String.eqb a "-ga") eqn:Hag.
    { apply (Hstep 1 1 true true); try reflexivity.
      - unfold sets_a. apply orb_true_iff in Hag.
        destruct Hag as [-> | ->]; now rewrite ?orb_true_r.
      - unfold sets_g. apply orb_true_iff in Hag.
        destruct Hag as [-> | ->]; now rewrite ?orb_true_r. }
    apply orb_false_iff in Hag. destruct Hag as [Hag Hga].
    destruct (String.eqb a "-g") eqn:Hg1.
    { apply (Hstep aflag 1 false true); try reflexivity.
      - apply String.eqb_eq in Hg1. now subst a.
      - unfold sets_g. now rewrite Hg1. }
    destruct (String.eqb a "-a") eqn:Ha1.
    { apply (Hstep 1 gflag true false); try reflexivity.
      - unfold sets_a. now rewrite Ha1.
      - apply String.eqb_eq in Ha1. now subst a. }
    destruct (String.eqb a "--") eqn:Hdd.
    { apply String.eqb_eq in Hdd. subst a.
      exists [], args. cbn. repeat split. now left. }
    exists [], (a :: args). cbn [snd fst forallb existsb app].
    repeat split. right. split; [reflexivity |]. split.
    + unfold flag_token, sets_a, sets_g.
      now rewrite Hag, Hga, Hg1, Ha1.
    + intros ->. discriminate Hdd.
Qed.

(** ** What reaches the device *)

Section Frames.

Variable P : platform.
Variable R : world P -> world P -> Prop.
Hypothesis R_refl : forall w, R w w.
Hypothesis R_trans : forall w1 w2 w3, R w1 w2 -> R w2 w3 -> R w1 w3.

Lemma always_bind {A B : Type} (c : M P A) (k : A -> M P B) :
  always R c -> (forall a, always R (k a)) -> always R (bind c k).
Proof.
  intros Hc Hk w. unfold bind. specialize (Hc w).
  destruct (c w) as [[a | n | |] w1]; cbn [snd] in *; try exact Hc.
  apply (R_trans _ _ _ Hc). apply Hk.
Qed.

Lemma always_ret {A : Type} (a : A) : always R (ret (P := P) a).
Proof. intros w. apply R_refl. Qed.

Lemma always_bind_ret {A B : Type} (a : A) (k : A -> M P B) :
  always R (k a) -> always R (bind (ret a) k).
Proof. intros H w. exact (H w). Qed.

Lemma always_for_each {A : Type} (f : A -> M P unit) (l : list A) :
  (forall a, always R (f a)) -> always R (for_each P f l).
Proof.
  intros Hf. induction l as [| a l IH]; cbn [for_each].
  - apply always_ret.
  - apply always_bind; [apply Hf | intros _; exact IH].
Qed.

End Frames.

Lemma untouched_refl (P : platform) (w : world P) : untouched w w.
Proof. now split. Qed.

Lemma untouched_trans (P : platform) (w1 w2 w3 : world P) :
  untouched w1 w2 -> untouched w2 w3 -> untouched w1 w3.
Proof. intros [A B] [C D]. split; congruence. Qed.

Lemma calm_refl (P : platform) (w : world P) : calm w w.
Proof. exists []. split; [now rewrite app_nil_r | reflexivity]. Qed.

Lemma calm_trans (P : platform) (w1 w2 w3 : world P) :
  calm w1 w2 -> calm w2 w3 -> calm w1 w3.
Proof.
  intros (e1 & L1 & C1) (e2 & L2 & C2). exists (e1 ++ e2)%list. split.
  - now rewrite L2, L1, app_assoc.
  - now rewrite forallb_app, C1, C2.
Qed.

Lemma untouched_calm (P : platform) (w w' : world P) :
  untouched w w' -> calm w w'.
Proof.
  intros [_ H]. exists []. split; [now rewrite app_nil_r | reflexivity].
Qed.

Lemma untouched_bind (P : platform) {A B : Type} (c : M P A) (k : A -> M P B) :
  always untouched c -> (forall a, always untouched (k a)) ->
  always untouched (bind c k).
Proof. apply always_bind. apply untouched_trans. Qed.

Lemma untouched_ret (P : platform) {A : Type} (a : A) :
  always untouched (ret (P := P) a).
Proof. apply always_ret. apply untouched_refl. Qed.

Lemma untouched_for_each (P : platform) {A : Type} (f : A -> M P unit)
  (l : list A) :
  (forall a, always untouched (f a)) -> always untouched (for_each P f l).
Proof.
  apply always_for_each; [apply untouched_refl | apply untouched_trans].
Qed.

(** Steps that only write text or move the counters of [printtoken]. *)
Ltac text_step :=
  let w := fresh "w" in
  intros w; split; reflexivity.

Ltac untouched_steps :=
  repeat first
    [ apply untouched_ret
    | (apply untouched_bind; [| intros ?])
    | (apply untouched_for_each; intros ?)
    | text_step
    | progress cbv zeta
    | match goal with
      | |- always _ (if ?c then _ else _) => destruct c
      | |- always _ (match ?x with _ => _ end) => destruct x
      end ].

Lemma untouched_printtoken_width (P : platform) :
  always untouched (printtoken_width P).
Proof. unfold printtoken_width. untouched_steps. Qed.

Lemma untouched_printtoken_break (P : platform) :
  always untouched (printtoken_break P).
Proof.
  unfold printtoken_break.
  apply untouched_bind; [apply untouched_printtoken_width | intros _].
  untouched_steps.
Qed.

Lemma untouched_printtoken (P : platform) (tok : string) :
  always untouched (printtoken P tok).
Proof.
  unfold printtoken.
  apply untouched_bind; [apply untouched_printtoken_width | intros _].
  untouched_steps.
Qed.

Lemma untouched_display_key (P : platform) (m : termios) (all : bool)
  (kbd : struct_key) :
  always untouched (display_key P m all kbd).
Proof.
  unfold display_key.
  destruct (all || negb (cc m (k_index kbd) =? k_sanevalue kbd));
    [| apply untouched_ret].
  destruct (keytostr (cc m (k_index kbd)));
    [apply untouched_printtoken | text_step].
Qed.

Ltac display_steps :=
  repeat first
    [ apply untouched_printtoken
    | apply untouched_printtoken_break
    | apply untouched_ret
    | (apply untouched_bind; [| intros ?])
    | (apply untouched_for_each; intros ?)
    | apply untouched_display_key
    | text_step
    | match goal with
      | |- always _ (if ?c then _ else _) => destruct c
      | |- always _ (match ?x with _ => _ end) => destruct x
      end ].

Lemma untouched_displaysettings (P : platform) (m : termios) (all : bool) :
  always untouched (displaysettings P m all).
Proof. unfold displaysettings. cbv zeta. display_steps. Qed.

Lemma differ_same (a : list byte) : differ a a = false.
Proof.
  induction a as [| x a IH]; [reflexivity |].
  cbn [differ]. rewrite IH, orb_false_r.
  apply negb_false_iff. destruct x; reflexivity.
Qed.

(** [main], with its last part folded into [report]. *)
Lemma main_report (P : platform) (argv0 : string) (args : list string) :
  main P argv0 args
  = let '(aflag, gflag, argv) := flags args 0 0 in
    bind (if nz aflag && nz gflag then usage P argv0 else ret tt)
      (fun _ =>
         bind (get_dev P)
           (fun d =>
              match tcgetattr P d with
              | None => eprintf "tcgetattr <stdin>:"
              | Some mode0 =>
                  bind (operands P argv (mk_st 0 0 1 mode0))
                    (fun s =>
                       bind (commit P s mode0)
                         (fun _ => report P aflag gflag argv s))
              end)).
Proof. reflexivity. Qed.

Lemma untouched_report (P : platform) (aflag gflag : Z) (argv : list string)
  (s : st) :
  always untouched (report P aflag gflag argv s).
Proof.
  unfold report.
  repeat first
    [ apply untouched_displaysettings
    | apply untouched_ret
    | (apply untouched_bind; [| intros ?])
    | text_step
    | match goal with
      | |- always _ (if ?c then _ else _) => destruct c
      | |- always _ (match ?x with _ => _ end) => destruct x
      end ].
Qed.

(** X17: a run without operands (only flags, or nothing at all) never
    changes the device: whatever the flags and however the run ends, no
    [tcsetattr] and no TIOCSWINSZ call is made and the device is as it
    was. *)
Theorem query_leaves_device_alone
  (P : platform) (argv0 : string) (args : list string) (w : world P) :
  snd (flags args 0 0) = [] ->
  dev (snd (main P argv0 args w)) = dev w
  /\ log (snd (main P argv0 args w)) = log w.
Proof.
  intros Hrest. change (untouched w (snd (main P argv0 args w))).
  revert w. change (always untouched (main P argv0 args)).
  rewrite main_report. destruct (flags args 0 0) as [[aflag gflag] argv].
  cbn [snd] in Hrest. subst argv.
  apply untouched_bind; [| intros _].
  { destruct (nz aflag && nz gflag); [text_step | apply untouched_ret]. }
  apply untouched_bind; [text_step | intros d].
  destruct (tcgetattr P d) as [mode0 |]; [| text_step].
  cbn [operands]. apply always_bind_ret.
  apply untouched_bind; [| intros _; apply untouched_report].
  unfold commit. cbn [mode]. rewrite differ_same.
  apply untouched_ret.
Qed.

Lemma query_leaves_device_alone_witness :
  log (snd (main sim "stty" ["-a"] (sim_world zero_termios))) = []
  /\ fst (main sim "stty" ["-a"] (sim_world zero_termios)) = Ret 0.
Proof.
  destruct (query_leaves_device_alone sim "stty" ["-a"]
              (sim_world zero_termios)) as [_ H].
  - reflexivity.
  - split; [exact H | reflexivity].
Defined.

Lemma calm_bind (P : platform) {A B : Type} (c : M P A) (k : A -> M P B) :
  always calm c -> (forall a, always calm (k a)) -> always calm (bind c k).
Proof. apply always_bind. apply calm_trans. Qed.

Lemma calm_ret (P : platform) {A : Type} (a : A) :
  always calm (ret (P := P) a).
Proof. apply always_ret. apply calm_refl. Qed.

Lemma calm_of_untouched (P : platform) {A : Type} (c : M P A) :
  always untouched c -> always calm c.
Proof. intros H w. apply untouched_calm. apply H. Qed.

Lemma calm_eprintf (P : platform) {A : Type} (msg : string) :
  always calm (eprintf (P := P) (A := A) msg).
Proof. apply calm_of_untouched. intros w. split; reflexivity. Qed.

Lemma calm_setwinsize (P : platform) (y x : Z) : always calm (setwinsize P y x).
Proof.
  intros w. unfold setwinsize, bind, get_dev, note.
  destruct (tiocgwinsz P STDIN_FILENO (dev w)) as [ws |];
    [| apply calm_eprintf].
  match goal with
  | |- context [tiocswinsz P ?v (dev w)] =>
      destruct (tiocswinsz P v (dev w)) as [d' |]; cbn [dev snd log]
  end;
    (eexists; split; [reflexivity | reflexivity]).
Qed.

Ltac calm_steps :=
  repeat first
    [ apply calm_ret
    | apply calm_eprintf
    | apply calm_setwinsize
    | (apply calm_bind; [| intros ?])
    | progress cbv zeta
    | match goal with
      | |- always _ (if ?c then _ else _) => destruct c
      | |- always _ (match ?x with _ => _ end) => destruct x
      end ].

Lemma calm_e_strtonum (P : platform) (arg : string) (lo hi : Z) :
  always calm (e_strtonum P arg lo hi).
Proof. unfold e_strtonum. calm_steps. Qed.

Lemma calm_estrtonum_anyradix (P : platform) (arg : string) (lo hi : Z) :
  always calm (estrtonum_anyradix P arg lo hi).
Proof. unfold estrtonum_anyradix. calm_steps. Qed.

Lemma calm_parseoperand_key (P : platform) (a : string) (arg1 : option string)
  (m : termios) :
  always calm (parseoperand_key P a arg1 m).
Proof.
  unfold parseoperand_key.
  repeat first [apply calm_estrtonum_anyradix | calm_steps].
Qed.

Lemma calm_call_int (P : platform) (f : intfun) (arg : string) (m : termios) :
  always calm (call_int P f arg m).
Proof.
  destruct f; cbn [call_int];
    unfold cols, min, rows, stime, ispeed, ospeed, eparsespeed;
    repeat first [apply calm_e_strtonum | calm_steps].
Qed.

Lemma calm_parseoperand_int (P : platform) (a : string) (arg1 : option string)
  (m : termios) :
  always calm (parseoperand_int P a arg1 m).
Proof.
  unfold parseoperand_int.
  repeat first [apply calm_call_int | calm_steps].
Qed.

Lemma calm_line (P : platform) (arg : string) (m : termios) :
  always calm (line P arg m).
Proof. unfold line. repeat first [apply calm_e_strtonum | calm_steps]. Qed.

Lemma calm_operand (P : platform) (a : string) (arg1 : option string) (s : st) :
  always calm (operand P a arg1 s).
Proof.
  unfold operand, invalid, abort, undefined.
  repeat first
    [ apply calm_parseoperand_key | apply calm_parseoperand_int
    | apply calm_line
    | (intros w0; apply calm_refl)
    | calm_steps ].
Qed.

Lemma calm_operands (P : platform) (argv : list string) (s : st) :
  always calm (operands P argv s).
Proof.
  assert (Hn : forall n argv, (List.length argv <= n)%nat ->
               forall s, always calm (operands P argv s)).
  { induction n as [| n IH]; intros [| a rest] Hlen s0;
      try (simpl in Hlen; lia); try apply calm_ret.
    cbn [operands]. apply calm_bind; [apply calm_operand |].
    intros [s' c]. destruct c.
    - destruct rest as [| b rest'].
      + intros w0. apply calm_refl.
      + apply IH. simpl in Hlen. lia.
    - apply IH. simpl in Hlen. lia. }
  apply (Hn (List.length argv)). lia.
Qed.

(** X18: in every run, whatever the arguments and however it ends,
    [tcsetattr] is called at most once, and if it is called it is the last
    call that changes the device: every call before it only sets the window
    size, and nothing after it touches the device. *)
Theorem main_commits_at_most_once
  (P : platform) (argv0 : string) (args : list string) (w : world P) :
  exists evs tail,
    log (snd (main P argv0 args w)) = (log w ++ evs ++ tail)%list
    /\ forallb (fun e => negb (is_commit e)) evs = true
    /\ (tail = [] \/ exists actions t, tail = [ev_tcsetattr actions t]).
Proof.
  rewrite main_report. destruct (flags args 0 0) as [[aflag gflag] argv].
  unfold bind at 1.
  assert (Hstart : exists w0,
             (if nz aflag && nz gflag then usage P argv0 else ret tt) w
             = (Ret tt, w0)
             /\ log w0 = log w).
  { destruct (nz aflag && nz gflag); eexists; split; reflexivity. }
  destruct Hstart as (w0 & -> & Hl0). rewrite <- Hl0. clear Hl0 w.
  rename w0 into w.
  assert (Hcalm : forall w', calm w w' ->
            exists evs tail,
              log w' = (log w ++ evs ++ tail)%list
              /\ forallb (fun e => negb (is_commit e)) evs = true
              /\ (tail = [] \/ exists actions t, tail = [ev_tcsetattr actions t])).
  { intros w' (evs & Hl & Hc). exists evs, [].
    rewrite app_nil_r. split; [exact Hl |]. split; [exact Hc | now left]. }
  unfold bind at 1. unfold get_dev at 1.
  destruct (tcgetattr P (dev w)) as [mode0 |];
    [| apply Hcalm; apply (calm_eprintf P _ w)].
  unfold bind at 1.
  pose proof (calm_operands P argv (mk_st 0 0 1 mode0) w) as Hops.
  destruct (operands P argv (mk_st 0 0 1 mode0) w) as [[s | n | |] w1];
    cbn [snd] in Hops; try (apply Hcalm; exact Hops).
  destruct Hops as (evs & Hlog & Hevs).
  unfold bind at 1.
  match goal with
  | |- context [commit P s mode0 w1] =>
      assert (Hcommit :
                (log (snd (commit P s mode0 w1)) = log w1
                 \/ exists actions t,
                      log (snd (commit P s mode0 w1))
                      = (log w1 ++ [ev_tcsetattr actions t])%list))
  end.
  { unfold commit.
    destruct (differ (to_bytes P (mode s)) (to_bytes P mode0));
      [| now left].
    right. exists (if nz (drain_requested s) then TCSADRAIN else TCSANOW), (mode s).
    unfold bind, get_dev, note. cbn [dev].
    destruct (tcsetattr P _ (mode s) (dev w1)) as [d' |]; [| reflexivity].
    destruct (tcgetattr P d') as [mode2 |]; [| reflexivity].
    destruct (differ (to_bytes P (mode s)) (to_bytes P mode2)); reflexivity. }
  destruct (commit P s mode0 w1) as [r w2]. cbn [snd] in Hcommit.
  assert (Hw3 : log (snd (match r with
                          | Ret _ => report P aflag gflag argv s w2
                          | Exit n0 => (Exit n0, w2)
                          | Abort => (Abort, w2)
                          | Undefined => (Undefined, w2)
                          end)) = log w2).
  { destruct r; try reflexivity.
    exact (proj2 (untouched_report P aflag gflag argv s w2)). }
  cbv beta iota. rewrite Hw3.
  destruct Hcommit as [Hsame | (actions & t & Hone)].
  - exists evs, []. rewrite app_nil_r, Hsame.
    split; [exact Hlog |]. split; [exact Hevs | now left].
  - exists evs, [ev_tcsetattr actions t]. rewrite Hone, Hlog, app_assoc.
    split; [reflexivity |]. split; [exact Hevs |]. right. now exists actions, t.
Qed.

(** ** Commit and verify *)

Lemma bind_Ret_l (P : platform) {A B : Type} (c : M P A) (k : A -> M P B)
  (a : A) (w w1 : world P) :
  c w = (Ret a, w1) -> bind c k w = k a w1.
Proof. intros H. unfold bind. now rewrite H. Qed.

(** [main] up to the commit, when the flags are not both set, the device
    can be read and the operand loop returns. *)
Lemma main_after_operands
  (P : platform) (argv0 : string) (args argv : list string)
  (aflag gflag : Z) (m0 : termios) (s : st) (w w1 : world P) :
  flags args 0 0 = (aflag, gflag, argv) ->
  nz aflag && nz gflag = false ->
  tcgetattr P (dev w) = Some m0 ->
  operands P argv (mk_st 0 0 1 m0) w = (Ret s, w1) ->
  main P argv0 args w
  = bind (commit P s m0) (fun _ => report P aflag gflag argv s) w1.
Proof.
  intros Hflags Hboth Hget Hops.
  rewrite main_report, Hflags, Hboth.
  unfold bind at 1. unfold ret at 1.
  unfold bind at 1. unfold get_dev at 1. rewrite Hget.
  now rewrite (bind_Ret_l P _ _ _ _ _ Hops).
Qed.

(** ** The object representation of the simulated terminal *)

Lemma byte_of_Z_of_byte (b : byte) : byte_of_Z (Z_of_byte b) = b.
Proof. destruct b; reflexivity. Qed.

Lemma Z_of_byte_range (b : byte) : 0 <= Z_of_byte b < 256.
Proof. destruct b; split; first [discriminate | reflexivity]. Qed.

Lemma byte_of_Z_low (a : byte) (y : Z) :
  byte_of_Z (Z_of_byte a + 256 * y) = a.
Proof.
  unfold byte_of_Z. rewrite (Z.mul_comm 256 y), Z_mod_plus_full.
  change (byte_of_Z (Z_of_byte a) = a). apply byte_of_Z_of_byte.
Qed.

Lemma shiftr8_low (a : byte) (y : Z) :
  Z.shiftr (Z_of_byte a + 256 * y) 8 = y.
Proof.
  pose proof (Z_of_byte_range a) as Ha.
  rewrite Z.shiftr_div_pow2 by lia. change (2 ^ 8) with 256.
  rewrite Z.add_comm, (Z.mul_comm 256 y), Z.div_add_l by lia.
  rewrite Z.div_small by lia. lia.
Qed.

Lemma le32_un_le (a b c d : byte) : le32 (un_le [a; b; c; d]) = [a; b; c; d].
Proof.
  unfold le32. cbn [un_le].
  change 16 with (8 + 8). change 24 with (8 + 8 + 8).
  rewrite <- !Z.shiftr_shiftr by lia.
  now rewrite !shiftr8_low, !byte_of_Z_low.
Qed.

Lemma sim_exact : exact_layout sim.
Proof.
  split; [exact sim_layout |].
  intros img Hlen. cbn [sizeof_termios sim] in Hlen.
  do 60 (destruct img as [| ? img]; [cbn [List.length] in Hlen; lia |]).
  destruct img; [| cbn [List.length] in Hlen; lia].
  cbn [to_bytes of_bytes sim]. unfold sim_to_bytes, sim_of_bytes, slice.
  cbn [c_iflag c_oflag c_cflag c_lflag c_line c_cc c_ispeed c_ospeed c_pad
       firstn skipn].
  rewrite !le32_un_le. cbn [un_le]. rewrite byte_of_Z_low.
  unfold pad_cc, pad3, NCCS. cbn [map app firstn]. 
  now rewrite !byte_of_Z_of_byte.
Qed.

(** X19: once the operands are processed, [tcsetattr] is called exactly
    when the bytes of the working copy differ from the snapshot taken at
    the start, the bytes outside the members (which only a raw literal
    can set) among them, and then with the working copy itself; it waits
    for pending output (TCSADRAIN) unless [-drain] cleared
    [drain_requested]. *)
Theorem commit_iff_changed
  (P : platform) (argv0 : string) (args argv : list string)
  (aflag gflag : Z) (m0 : termios) (s : st) (w w1 : world P) :
  flags args 0 0 = (aflag, gflag, argv) ->
  nz aflag && nz gflag = false ->
  tcgetattr P (dev w) = Some m0 ->
  operands P argv (mk_st 0 0 1 m0) w = (Ret s, w1) ->
  log (snd (main P argv0 args w))
  = (log w1
     ++ (if differ (to_bytes P (mode s)) (to_bytes P m0)
         then [ev_tcsetattr (if nz (drain_requested s)
                             then TCSADRAIN else TCSANOW) (mode s)]
         else []))%list.
Proof.
  intros Hflags Hboth Hget Hops.
  rewrite (main_after_operands P argv0 args argv aflag gflag m0 s w w1)
    by assumption.
  unfold bind at 1.
  assert (Hc : log (snd (commit P s m0 w1))
               = (log w1
                  ++ (if differ (to_bytes P (mode s)) (to_bytes P m0)
                      then [ev_tcsetattr (if nz (drain_requested s)
                                          then TCSADRAIN else TCSANOW) (mode s)]
                      else []))%list).
  { unfold commit.
    destruct (differ (to_bytes P (mode s)) (to_bytes P m0));
      [| cbn [snd ret]; now rewrite app_nil_r].
    unfold bind, get_dev, note. cbn [dev].
    destruct (tcsetattr P _ (mode s) (dev w1)) as [d' |]; [| reflexivity].
    destruct (tcgetattr P d') as [mode2 |]; [| reflexivity].
    destruct (differ (to_bytes P (mode s)) (to_bytes P mode2)); reflexivity. }
  destruct (commit P s m0 w1) as [[u | n | |] w2]; cbn [snd] in *;
    try exact Hc.
  rewrite <- Hc. exact (proj2 (untouched_report P aflag gflag argv s w2)).
Qed.

Lemma commit_iff_changed_witness :
  differ (to_bytes sim (set_pad [x01; x00; x00] zero_termios))
         (to_bytes sim zero_termios) = true
  /\ log (snd (main sim "stty" [padded_literal] (sim_world zero_termios)))
     = [ev_tcsetattr TCSADRAIN (set_pad [x01; x00; x00] zero_termios)]
  /\ fst (main sim "stty" [padded_literal] (sim_world zero_termios)) = Exit 1.
Proof.
  split; [reflexivity |]. split; [| reflexivity].
  rewrite (commit_iff_changed sim "stty" [padded_literal] [padded_literal]
             0 0 zero_termios
             (mk_st 0 0 1 (set_pad [x01; x00; x00] zero_termios))
             (sim_world zero_termios) (sim_world zero_termios));
    reflexivity.
Defined.

(** X20: when the driver accepts the commit but the state read back
    differs from the working copy, the run ends with status 1 and the line
    "tcsetattr <stdin>: unable to apply all operands"; the device stays as
    the driver left it (no rollback), and nothing is written to standard
    output. *)
Theorem verification_failure_exit
  (P : platform) (argv0 : string) (args argv : list string)
  (aflag gflag : Z) (m0 m2 : termios) (s : st) (w w1 : world P) (d' : Dev P) :
  flags args 0 0 = (aflag, gflag, argv) ->
  nz aflag && nz gflag = false ->
  tcgetattr P (dev w) = Some m0 ->
  operands P argv (mk_st 0 0 1 m0) w = (Ret s, w1) ->
  differ (to_bytes P (mode s)) (to_bytes P m0) = true ->
  tcsetattr P (if nz (drain_requested s) then TCSADRAIN else TCSANOW)
            (mode s) (dev w1) = Some d' ->
  tcgetattr P d' = Some m2 ->
  differ (to_bytes P (mode s)) (to_bytes P m2) = true ->
  main P argv0 args w
  = (Exit 1,
     mk_world d' (out w1)
       (err w1 ++ "tcsetattr <stdin>: unable to apply all operands" ++ LF)
       (log w1 ++ [ev_tcsetattr (if nz (drain_requested s)
                                 then TCSADRAIN else TCSANOW) (mode s)])%list
       (width w1) (pos w1)).
Proof.
  intros Hflags Hboth Hget Hops Hdiff Hset Hget2 Hdiff2.
  rewrite (main_after_operands P argv0 args argv aflag gflag m0 s w w1)
    by assumption.
  unfold bind at 1. unfold commit. rewrite Hdiff.
  unfold bind, get_dev, note. cbn [dev]. rewrite Hset, Hget2, Hdiff2.
  reflexivity.
Qed.

Lemma verification_failure_exit_witness :
  fst (main sim_rigid "stty" ["echo"] (rigid_world zero_termios)) = Exit 1
  /\ dev (snd (main sim_rigid "stty" ["echo"] (rigid_world zero_termios)))
     = mk_tty zero_termios (mk_winsize 24 80 0 0).
Proof.
  rewrite (verification_failure_exit sim_rigid "stty" ["echo"] ["echo"] 0 0
             zero_termios zero_termios
             (mk_st 0 0 1 (set_lflag ECHO zero_termios))
             (rigid_world zero_termios) (rigid_world zero_termios)
             (mk_tty zero_termios (mk_winsize 24 80 0 0)));
    try reflexivity.
  split; reflexivity.
Defined.

(** ** Forced line breaks *)

Lemma width_settles (P : platform) (w : world P) :
  exists wd,
    printtoken_width P w
    = (Ret tt, mk_world (dev w) (out w) (err w) (log w) wd (pos w))
    /\ nz wd = true.
Proof.
  unfold printtoken_width, bind, get_width, get_dev, set_width, ret.
  destruct (nz (width w)) eqn:Hw.
  - exists (width w). split; [now destruct w | exact Hw].
  - destruct (tiocgwinsz P STDOUT_FILENO (dev w)) as [ws |].
    + destruct (Z.gtb_spec (ws_col ws) 40) as [Hgt | Hle].
      * assert (Hnz : nz (ws_col ws) = true)
          by (unfold nz; apply negb_true_iff, Z.eqb_neq; lia).
        rewrite Hnz. eexists. split; [reflexivity | exact Hnz].
      * rewrite Hw. eexists. split; reflexivity.
    + rewrite Hw. eexists. split; reflexivity.
Qed.

(** X21: the forced break is idempotent: a second [printtoken("\n")]
    right after the first writes nothing and changes nothing. *)
Theorem forced_break_idempotent (P : platform) (w : world P) :
  bind (printtoken_break P) (fun _ => printtoken_break P) w
  = printtoken_break P w.
Proof.
  assert (Hbreak : forall w0 wd,
             printtoken_width P w0
             = (Ret tt, mk_world (dev w0) (out w0) (err w0) (log w0) wd (pos w0)) ->
             printtoken_break P w0
             = (Ret tt, mk_world (dev w0)
                                 (if nz (pos w0) then out w0 ++ LF else out w0)
                                 (err w0) (log w0) wd 0)).
  { intros w0 wd H. unfold printtoken_break.
    rewrite (bind_Ret_l P _ _ _ _ _ H).
    unfold bind, get_pos, printf, set_pos, ret. cbn.
    now destruct (nz (pos w0)). }
  destruct (width_settles P w) as (wd & Hwd & Hnz).
  rewrite (bind_Ret_l P _ _ _ _ _ (Hbreak w wd Hwd)).
  rewrite (Hbreak w wd Hwd).
  set (w1 := mk_world (dev w) (if nz (pos w) then out w ++ LF else out w)
                      (err w) (log w) wd 0).
  assert (Hw1 : printtoken_width P w1
                = (Ret tt, mk_world (dev w1) (out w1) (err w1) (log w1) wd
                                    (pos w1))).
  { unfold printtoken_width, bind, get_width, ret. cbn [width w1].
    now rewrite Hnz. }
  rewrite (Hbreak w1 wd Hw1). reflexivity.
Qed.


(** ** Decoding any accepted literal *)

Lemma hexval_is_digit (c : ascii) :
  isxdigit c = true ->
  (0 <=? hexval c) && (hexval c <? 16)
  && Ascii.eqb (hexdigit (hexval c)) (lower c) = true.
Proof.
  destruct c as [b0 b1 b2 b3 b4 b5 b6 b7].
  destruct b0, b1, b2, b3, b4, b5, b6, b7;
    intros H; first [discriminate H | reflexivity].
Qed.

Lemma hex_pairs_table :
  forallb (fun h =>
             forallb (fun l =>
                        String.eqb
                          (printf_02x (byte_of_Z (Z.shiftl (Z.of_nat h) 4
                                                  .| Z.of_nat l)))
                          (String (hexdigit (Z.of_nat h))
                                  (String (hexdigit (Z.of_nat l)) EmptyString)))
                     (seq 0 16))
          (seq 0 16) = true.
Proof. reflexivity. Qed.

Lemma hex_pair_printed (h l : Z) :
  0 <= h < 16 -> 0 <= l < 16 ->
  printf_02x (byte_of_Z (Z.shiftl h 4 .| l))
  = String (hexdigit h) (String (hexdigit l) EmptyString).
Proof.
  intros Hh Hl. pose proof hex_pairs_table as T.
  rewrite forallb_forall in T.
  specialize (T (Z.to_nat h)). rewrite forallb_forall in T.
  assert (Hin : forall x, 0 <= x < 16 -> In (Z.to_nat x) (seq 0 16))
    by (intros x Hx; apply in_seq; lia).
  specialize (T (Hin h Hh) (Z.to_nat l) (Hin l Hl)).
  apply String.eqb_eq in T. now rewrite !Z2Nat.id in T by lia.
Qed.

Lemma decodehex_lower (dest : list byte) (p : string) :
  all_xdigit p = true ->
  String.length p = (2 * List.length dest)%nat ->
  exists img,
    decodehex dest p = Some img
    /\ encodehex img = lower_string p.
Proof.
  revert p. induction dest as [| d dest IH]; intros p Hx Hp.
  - destruct p; [| discriminate Hp]. now exists [].
  - destruct p as [| hi p]; [simpl in Hp; lia |].
    destruct p as [| lo rest]; [simpl in Hp; lia |].
    cbn [all_xdigit] in Hx.
    destruct (isxdigit hi) eqn:Hhi; [| discriminate Hx].
    destruct (isxdigit lo) eqn:Hlo; [| discriminate Hx].
    cbn [negb] in Hx.
    destruct (IH rest Hx) as [img [Hdec Henc]]; [simpl in Hp; lia |].
    eexists. cbn [decodehex]. rewrite Hdec. split; [reflexivity |].
    apply hexval_is_digit in Hhi, Hlo.
    apply andb_true_iff in Hhi, Hlo.
    destruct Hhi as [Hhr Hhc], Hlo as [Hlr Hlc].
    apply andb_true_iff in Hhr, Hlr.
    apply Ascii.eqb_eq in Hhc, Hlc.
    cbn [encodehex lower_string]. rewrite hex_pair_printed by lia.
    cbn [append]. now rewrite Henc, Hhc, Hlc.
Qed.

(** X22: a literal that passes the digit guard and covers the object
    decodes to the bytes whose hex text is the literal in lower case: with
    the round trip of the encoder, hex texts of the right length and byte
    images correspond one to one, and upper-case digits are accepted. *)
Theorem decode_then_encode (dest : list byte) (p : string) :
  all_xdigit p = true ->
  String.length p = (2 * List.length dest)%nat ->
  exists img,
    decodehex dest p = Some img
    /\ encodehex img = lower_string p.
Proof. exact (decodehex_lower dest p). Qed.

Lemma decode_then_encode_witness :
  exists img,
    decodehex [x00; x00] "0AfF" = Some img /\ encodehex img = "0aff".
Proof.
  destruct (decode_then_encode [x00; x00] "0AfF") as [img H];
    [reflexivity | reflexivity |].
  exists img. exact H.
Defined.

(** X26: an accepted raw literal replaces every byte of the working copy,
    the bytes that belong to no member included: on a platform whose
    object representation is exact, the bytes of the working copy after
    [=p] are the bytes [p] decodes to, so what [-g] prints for it is [p]
    itself in lower case. *)
Theorem raw_literal_keeps_every_byte
  (P : platform) (p : string) (arg1 : option string) (s : st)
  (r : st * bool) (w w' : world P) :
  exact_layout P ->
  operand P ("=" ++ p) arg1 s w = (Ret r, w') ->
  exists img,
    decodehex (to_bytes P (mode s)) p = Some img
    /\ to_bytes P (mode (fst r)) = img
    /\ encodehex (to_bytes P (mode (fst r))) = lower_string p
    /\ snd r = false /\ w' = w.
Proof.
  intros [Hsize Hexact]. unfold operand, invalid.
  change (char0 ("=" ++ p)) with "="%char.
  change (next ("=" ++ p)) with p.
  cbn [Ascii.eqb Bool.eqb andb].
  destruct (negb (strlen p =? sizeof_termios P * 2) || negb (isxnumber p))
    eqn:Hguard; [intros H; now apply eprintf_not_Ret in H |].
  apply orb_false_iff in Hguard. destruct Hguard as [Hl Hx].
  apply negb_false_iff in Hl, Hx. apply Z.eqb_eq in Hl. unfold strlen in Hl.
  assert (Hall : all_xdigit p = true)
    by (destruct p; [discriminate Hx | exact Hx]).
  pose proof (Hsize (mode s)) as Hs.
  destruct (decodehex_covers (to_bytes P (mode s)) p) as (img0 & Hlen & Hcov);
    [lia |].
  destruct (decodehex_lower (to_bytes P (mode s)) p Hall) as (img & Hdec & Henc);
    [lia |].
  rewrite (Hcov _ eq_refl) in Hdec. injection Hdec as ->.
  rewrite (Hcov _ eq_refl). unfold ret. intros H. injection H as <- <-.
  exists img. cbn [fst snd]. unfold with_mode, on_mode. cbn [mode].
  rewrite Hexact by lia.
  split; [reflexivity |]. split; [reflexivity |].
  split; [exact Henc |]. split; reflexivity.
Qed.

Lemma raw_literal_keeps_every_byte_witness :
  exists img,
    decodehex (to_bytes sim zero_termios) (next padded_literal) = Some img
    /\ to_bytes sim (set_pad [x01; x00; x00] zero_termios) = img
    /\ encodehex (to_bytes sim (set_pad [x01; x00; x00] zero_termios))
       = lower_string (next padded_literal)
    /\ nth 49 img x00 = x01.
Proof.
  destruct (raw_literal_keeps_every_byte sim (next padded_literal) None
              (mk_st 0 0 1 zero_termios)
              (mk_st 0 0 1 (set_pad [x01; x00; x00] zero_termios), false)
              (sim_world zero_termios) (sim_world zero_termios))
    as (img & Hdec & Hb & Henc & _).
  - exact sim_exact.
  - reflexivity.
  - exists img. cbn [fst mode] in Hb, Henc.
    split; [exact Hdec |]. split; [exact Hb |]. split; [exact Henc |].
    rewrite <- Hb. reflexivity.
Defined.

(** ** Line wrapping *)

Lemma sappend_assoc (a b c : string) : (a ++ b) ++ c = a ++ b ++ c.
Proof. induction a as [| x a IH]; [reflexivity |]. cbn [append]. now rewrite IH. Qed.

Lemma sappend_nil_r (a : string) : a ++ "" = a.
Proof. induction a as [| x a IH]; [reflexivity |]. cbn [append]. now rewrite IH. Qed.

Lemma scan_app (a b : string) (acc : Z * Z) :
  scan (a ++ b) acc = scan b (scan a acc).
Proof.
  revert acc. induction a as [| c a IH]; intros acc; [reflexivity |].
  cbn [append scan]. destruct (Ascii.eqb c (chr 10)); apply IH.
Qed.

Lemma scan_token (tok : string) (acc : Z * Z) :
  no_break tok = true -> scan tok acc = (fst acc + strlen tok, snd acc).
Proof.
  revert acc. induction tok as [| c t IH]; intros acc H.
  - unfold strlen. cbn. rewrite Z.add_0_r. now destruct acc.
  - cbn [no_break] in H. apply andb_true_iff in H. destruct H as [Hc Ht].
    apply negb_true_iff in Hc. cbn [scan]. rewrite Hc, IH by exact Ht.
    unfold strlen. cbn [String.length fst snd]. f_equal. lia.
Qed.

Lemma wrap_size_small (x : Z) : 0 <= x < 2 ^ 64 -> wrap_size x = x.
Proof. intros H. unfold wrap_size. now apply Z.mod_small. Qed.

Lemma strlen_nonneg (s : string) : 0 <= strlen s.
Proof. unfold strlen. lia. Qed.

(** One token on a terminal of known width. *)
Lemma printtoken_fits (P : platform) (W : Z) (tok : string) (w : world P) :
  0 < W < 2 ^ 32 -> width w = W -> fits W tok = true ->
  within W (pos w) (out w) ->
  exists w' sep,
    printtoken P tok w = (Ret tt, w')
    /\ is_sep sep = true /\ out w' = out w ++ sep ++ tok
    /\ width w' = W /\ within W (pos w') (out w')
    /\ dev w' = dev w /\ err w' = err w /\ log w' = log w.
Proof.
  intros HW Hwidth Hfit (Hpos & Hle & Hmax).
  unfold fits in Hfit.
  apply andb_true_iff in Hfit. destruct Hfit as [Hfit Hbuf].
  apply andb_true_iff in Hfit. destruct Hfit as [Hnb Hlen].
  apply Z.leb_le in Hlen. apply Z.ltb_lt in Hbuf.
  pose proof (strlen_nonneg tok) as Hnn.
  assert (Hp0 : 0 <= pos w).
  { rewrite <- Hpos. clear. generalize (out w). intros s.
    assert (H : forall acc, 0 <= fst acc -> 0 <= fst (scan s acc)).
    { induction s as [| c s IH]; intros acc Hacc; [exact Hacc |].
      cbn [scan]. destruct (Ascii.eqb c (chr 10)); apply IH; cbn; lia. }
    apply H. cbn. lia. }
  unfold printtoken, printtoken_width, bind, get_width, get_pos, ret.
  assert (HnzW : nz W = true)
    by (unfold nz; apply negb_true_iff, Z.eqb_neq; lia).
  rewrite Hwidth, HnzW.
  replace (strlen tok <? 0) with false by (symmetry; apply Z.ltb_ge; lia).
  replace (strlen tok >=? BUFSIZ) with false
    by (symmetry; rewrite Z.geb_leb; apply Z.leb_gt; lia).
  cbn [orb]. rewrite Hwidth.
  assert (Hb : 0 <= b2z (nz (pos w)) <= 1) by (destruct (nz (pos w)); cbn; lia).
  rewrite wrap_size_small by lia.
  destruct (Z.gtb_spec (pos w + b2z (nz (pos w)) + strlen tok) W) as [Hgt | Hfits].
  - unfold printf, set_pos. cbn [dev out err log width pos].
    rewrite wrap_size_small by lia.
    eexists. exists LF. split; [reflexivity |]. cbn [dev out err log width pos].
    split; [reflexivity |]. split; [now rewrite sappend_assoc |].
    repeat split; try reflexivity; try lia.
    + rewrite !scan_app, (scan_token tok) by exact Hnb.
      cbn [fst scan LF str1]. rewrite Ascii.eqb_refl. cbn [fst]. lia.
    + rewrite !scan_app, (scan_token tok) by exact Hnb.
      cbn [snd scan LF str1]. rewrite Ascii.eqb_refl. cbn [snd fst]. lia.
  - destruct (nz (pos w)) eqn:Hnz; cbn [b2z] in *.
    + unfold printf, set_pos. cbn [dev out err log width pos].
      rewrite (wrap_size_small (pos w + 1)) by lia.
      rewrite wrap_size_small by lia.
      eexists. exists " ". split; [reflexivity |].
      cbn [dev out err log width pos].
      split; [reflexivity |]. split; [now rewrite sappend_assoc |].
      repeat split; try reflexivity; try lia.
      * rewrite !scan_app, (scan_token tok) by exact Hnb.
        cbn [fst scan]. cbn. lia.
      * rewrite !scan_app, (scan_token tok) by exact Hnb.
        cbn [snd scan]. cbn. lia.
    + unfold printf, set_pos. cbn [dev out err log width pos].
      rewrite !wrap_size_small by lia.
      eexists. exists "". split; [reflexivity |].
      cbn [dev out err log width pos].
      split; [reflexivity |]. split; [reflexivity |].
      repeat split; try reflexivity; try lia.
      * rewrite !scan_app, (scan_token tok) by exact Hnb. cbn [fst]. lia.
      * rewrite !scan_app, (scan_token tok) by exact Hnb. cbn [snd]. lia.
Qed.

Lemma for_each_fits (P : platform) (W : Z) (toks : list string) (w : world P) :
  0 < W < 2 ^ 32 -> width w = W -> forallb (fits W) toks = true ->
  within W (pos w) (out w) ->
  exists w' seps,
    for_each P (printtoken P) toks w = (Ret tt, w')
    /\ List.length seps = List.length toks
    /\ forallb is_sep seps = true
    /\ out w' = out w ++ joined seps toks
    /\ width w' = W /\ within W (pos w') (out w')
    /\ dev w' = dev w /\ err w' = err w /\ log w' = log w.
Proof.
  intros HW. revert w.
  induction toks as [| tok toks IH]; intros w Hwidth Hfit Hin.
  - exists w, []. cbn [for_each joined]. unfold ret.
    rewrite sappend_nil_r. auto 12.
  - cbn [forallb] in Hfit. apply andb_true_iff in Hfit.
    destruct Hfit as [Hfit Hrest].
    destruct (printtoken_fits P W tok w HW Hwidth Hfit Hin)
      as (w1 & sep & E1 & Hsep & Ho1 & Hw1 & Hin1 & Hd1 & He1 & Hl1).
    destruct (IH w1 Hw1 Hrest Hin1)
      as (w2 & seps & E2 & Hn & Hseps & Ho2 & Hw2 & Hin2 & Hd2 & He2 & Hl2).
    exists w2, (sep :: seps). cbn [for_each]. unfold bind. rewrite E1.
    split; [exact E2 |].
    split; [cbn [List.length]; now rewrite Hn |].
    split; [cbn [forallb]; now rewrite Hsep, Hseps |].
    split; [cbn [joined]; now rewrite Ho2, Ho1, !sappend_assoc |].
    split; [exact Hw2 |]. split; [exact Hin2 |].
    split; [congruence |]. split; congruence.
Qed.

Lemma fits_wider (W W' : Z) (tok : string) :
  W <= W' -> fits W tok = true -> fits W' tok = true.
Proof.
  unfold fits. intros HW H.
  apply andb_true_iff in H. destruct H as [H Hbuf].
  apply andb_true_iff in H. destruct H as [Hnb Hlen].
  apply Z.leb_le in Hlen.
  rewrite Hnb, Hbuf, andb_true_r. cbn [andb]. apply Z.leb_le. lia.
Qed.

Lemma mode_names_fit :
  forallb (fun op => fits 40 (m_op op) && fits 40 ("-" ++ m_op op)) modes
  = true.
Proof. reflexivity. Qed.

Lemma display_modes_fit (W : Z) (m : termios) (all : bool) :
  40 < W -> forallb (fits W) (display_modes m all) = true.
Proof.
  intros HW. apply forallb_forall. intros tok Hin.
  unfold display_modes in Hin. apply in_flat_map in Hin.
  destruct Hin as (op & Hop & Htok).
  pose proof (proj1 (forallb_forall _ _) mode_names_fit op Hop) as Hfit.
  cbv beta in Hfit. apply andb_true_iff in Hfit. destruct Hfit as [Hp Hm].
  apply (fits_wider 40); [lia |].
  destruct (display_mode_tokens m all op tok Htok) as [-> | ->]; assumption.
Qed.

(** X23: on a terminal whose width is known, tokens that hold no line
    feed, are no longer than the width and are shorter than [BUFSIZ] are
    all printed: the output grows by the tokens in their order, each with
    nothing, one space or one line feed before it.  No line of the output
    becomes longer than the width, and the cursor column the program keeps
    is the length of the last line.  The device, the error stream and the
    request log are left as they were. *)
Theorem lines_within_width (P : platform) (W : Z) (toks : list string)
  (w : world P) :
  0 < W < 2 ^ 32 -> width w = W -> forallb (fits W) toks = true ->
  within W (pos w) (out w) ->
  exists w' seps,
    for_each P (printtoken P) toks w = (Ret tt, w')
    /\ List.length seps = List.length toks
    /\ forallb is_sep seps = true
    /\ out w' = out w ++ joined seps toks
    /\ width w' = W /\ within W (pos w') (out w')
    /\ dev w' = dev w /\ err w' = err w /\ log w' = log w.
Proof. exact (for_each_fits P W toks w). Qed.

Lemma lines_within_width_witness :
  exists w' seps,
    for_each sim (printtoken sim) ["speed"; "38400"; "baud;"; "line"; "= 0;"]
             (mk_world (P := sim) (mk_tty zero_termios (mk_winsize 24 80 0 0))
                       "" "" [] 12 0)
    = (Ret tt, w')
    /\ List.length seps = 5%nat
    /\ forallb is_sep seps = true
    /\ out w' = "" ++ joined seps ["speed"; "38400"; "baud;"; "line"; "= 0;"]
    /\ width w' = 12 /\ within 12 (pos w') (out w')
    /\ dev w' = mk_tty zero_termios (mk_winsize 24 80 0 0)
    /\ err w' = "" /\ log w' = [].
Proof.
  apply (lines_within_width sim 12
           ["speed"; "38400"; "baud;"; "line"; "= 0;"]
           (mk_world (P := sim) (mk_tty zero_termios (mk_winsize 24 80 0 0))
                     "" "" [] 12 0)).
  - lia.
  - reflexivity.
  - reflexivity.
  - unfold within. cbn. lia.
Defined.

(** X24: the mode section of a display fits every width the program
    adopts: on a terminal wider than 40 columns every token of the mode
    section is printed, in the order of the catalog, each with nothing,
    one space or one line feed before it, and no output line is longer
    than the width. *)
Theorem mode_section_within_width (P : platform) (W : Z) (m : termios)
  (all : bool) (w : world P) :
  40 < W < 2 ^ 32 -> width w = W -> within W (pos w) (out w) ->
  exists w' seps,
    for_each P (printtoken P) (display_modes m all) w = (Ret tt, w')
    /\ List.length seps = List.length (display_modes m all)
    /\ forallb is_sep seps = true
    /\ out w' = out w ++ joined seps (display_modes m all)
    /\ within W (pos w') (out w').
Proof.
  intros HW Hwidth Hin.
  destruct (for_each_fits P W (display_modes m all) w)
    as (w' & seps & E & Hn & Hs & Ho & _ & H & _);
    [lia | exact Hwidth | apply display_modes_fit; lia | exact Hin |].
  exists w', seps. auto.
Qed.

Lemma mode_section_within_width_witness :
  exists w' seps,
    for_each sim (printtoken sim) (display_modes zero_termios true)
             (mk_world (P := sim) (mk_tty zero_termios (mk_winsize 24 80 0 0))
                       "" "" [] 41 0)
    = (Ret tt, w')
    /\ List.length seps = List.length (display_modes zero_termios true)
    /\ forallb is_sep seps = true
    /\ out w' = "" ++ joined seps (display_modes zero_termios true)
    /\ within 41 (pos w') (out w').
Proof.
  apply (mode_section_within_width sim 41 zero_termios true).
  - lia.
  - reflexivity.
  - unfold within. cbn. lia.
Defined.

(** ** The three counters *)

Lemma held_refl (D : Prop) (s : st) : held D s s.
Proof. unfold held. auto. Qed.

Lemma held_trans (D : Prop) (s1 s2 s3 : st) :
  held D s1 s2 -> held D s2 s3 -> held D s1 s3.
Proof. unfold held. intros (A1 & B1 & C1) (A2 & B2 & C2). auto 7. Qed.

Lemma held_weaken (D D' : Prop) (s s' : st) :
  (D' -> D) -> held D s s' -> held D' s s'.
Proof. unfold held. intros HD (A & B & C). auto 7. Qed.

Lemma held_on_mode (D : Prop) (f : termios -> termios) (s : st) :
  held D s (on_mode f s).
Proof. unfold held, on_mode. cbn. auto. Qed.

Lemma held_call (f : modefun) (unset : bool) (s : st) :
  held (f = fn_drain -> unset = false) s (call f unset s).
Proof.
  unfold held. destruct f; cbn; repeat split; auto.
  intros H _. now rewrite (H eq_refl).
Qed.

Lemma held_setoperand_mode (unset : bool) (op : struct_mode) (s s' : st) :
  setoperand_mode unset op s = Some s' ->
  held (is_drain op = true -> unset = false) s s'.
Proof.
  unfold setoperand_mode, is_drain.
  destruct (bitsp_of (m_type op)) as [[w |] |]; [| | discriminate];
    intros H; injection H as <-.
  - eapply held_trans; [apply held_on_mode |].
    destruct (m_fun op) as [f |]; [| apply held_refl].
    eapply held_weaken; [| apply held_call].
    intros HD Hf. apply HD. now rewrite Hf.
  - destruct (m_fun op) as [f |]; [| apply held_refl].
    eapply held_weaken; [| apply held_call].
    intros HD Hf. apply HD. now rewrite Hf.
Qed.

Lemma held_run_plan (p : list (bool * struct_mode)) :
  (forall e, In e p -> is_drain (snd e) = false) ->
  forall s s', fold_left run_plan p (Some s) = Some s' -> held True s s'.
Proof.
  induction p as [| e p IH]; intros Hp s s' H.
  - injection H as <-. apply held_refl.
  - cbn [fold_left] in H. rewrite run_plan_some in H.
    destruct (setoperand_mode (fst e) (snd e) s) as [s1 |] eqn:E;
      [| now rewrite run_plan_none in H].
    eapply held_trans.
    + eapply held_weaken; [| apply (held_setoperand_mode _ _ _ _ E)].
      intros _ Hd. rewrite (Hp e (or_introl eq_refl)) in Hd. discriminate Hd.
    + apply (IH (fun e' He' => Hp e' (or_intror He')) _ _ H).
Qed.

Lemma plan_step_selected (unset : bool) (fs fu : Z) (op : struct_mode)
  (e : bool * struct_mode) :
  In e (plan_step unset fs fu op) ->
  nz (m_flags op .& fs) || nz (m_flags op .& fu) = true.
Proof.
  unfold plan_step.
  destruct (m_type op); try (intros []);
    destruct (nz (m_flags op .& fu)), (nz (m_flags op .& fs));
    try reflexivity; rewrite !andb_false_r; intros [].
Qed.

(** No combination reaches the entry of [drain]. *)
Lemma combinations_spare_drain :
  forallb (fun comb =>
    match m_type comb with
    | COMB =>
        forallb (fun op =>
          negb (is_drain op
                && (nz (m_flags op .& m_set comb)
                    || nz (m_flags op .& m_clear comb)))) modes
    | _ => true
    end) modes = true.
Proof. reflexivity. Qed.

Lemma drain_entry_name :
  forallb (fun op => negb (is_drain op) || String.eqb (m_op op) "drain") modes
  = true.
Proof. reflexivity. Qed.

Lemma drain_unset_token (arg : string) (op : struct_mode) :
  In op modes ->
  m_op op = (if is_minus arg then next arg else arg) ->
  arg <> "-drain" -> is_drain op = true -> is_minus arg = false.
Proof.
  intros Hin Hname Hne Hd.
  pose proof (proj1 (forallb_forall _ _) drain_entry_name op Hin) as Hn.
  cbv beta in Hn. rewrite Hd in Hn. cbn [negb orb] in Hn.
  apply String.eqb_eq in Hn. rewrite Hn in Hname.
  destruct (is_minus arg) eqn:Hm; [| reflexivity].
  exfalso. apply Hne. unfold is_minus in Hm.
  destruct arg as [| c t]; [discriminate Hm |].
  cbn [char0] in Hm. apply Ascii.eqb_eq in Hm. cbn [next] in Hname.
  now subst.
Qed.

Lemma held_parseoperand_mode (arg : string) (s s' : st) :
  parseoperand_mode arg s = Applied s' -> held (arg <> "-drain") s s'.
Proof.
  unfold parseoperand_mode.
  destruct (lookup m_op modes (if is_minus arg then next arg else arg))
    as [op |] eqn:Hl; [| discriminate].
  apply lookup_some in Hl. destruct Hl as [Hin Hname].
  destruct (is_minus arg && negb (nz (m_flags op .& BOOL))); [discriminate |].
  assert (Hfun : forall s0,
             held (arg <> "-drain") s0
                  (match m_fun op with
                   | Some f => call f (is_minus arg) s0
                   | None => s0
                   end)).
  { intros s0. destruct (m_fun op) as [f |] eqn:Hf; [| apply held_refl].
    eapply held_weaken; [| apply held_call].
    intros Hne ->. apply (drain_unset_token arg op Hin Hname Hne).
    unfold is_drain. now rewrite Hf. }
  assert (Hsimple : forall r,
             match setoperand_mode (is_minus arg) op s with
             | Some s0 => Applied s0
             | None => Aborted
             end = Applied r -> held (arg <> "-drain") s r).
  { intros r. destruct (setoperand_mode (is_minus arg) op s) eqn:E;
      [| discriminate].
    intros H. injection H as <-.
    eapply held_weaken; [| apply (held_setoperand_mode _ _ _ _ E)].
    intros Hne. apply (drain_unset_token arg op Hin Hname Hne). }
  destruct (m_type op) eqn:Ht; try apply Hsimple.
  assert (Hplan : forall s0,
             fold_left (propagate (is_minus arg) (m_set op) (m_clear op))
                       modes (Some s) = Some s0 ->
             held (arg <> "-drain") s s0).
  { intros s0 H0. rewrite propagate_plan in H0.
    apply (held_weaken True); [auto |].
    refine (held_run_plan _ _ _ _ H0).
    intros e He. apply in_flat_map in He. destruct He as [op' [Hin' He]].
    pose proof (plan_step_selected _ _ _ _ _ He) as Hsel.
    apply plan_step_not_comb in He. destruct He as [-> _].
    pose proof (proj1 (forallb_forall _ _) combinations_spare_drain op Hin)
      as Hc.
    cbv beta in Hc. rewrite Ht in Hc.
    pose proof (proj1 (forallb_forall _ _) Hc op' Hin') as Hd.
    cbv beta in Hd. rewrite Hsel, andb_true_r in Hd.
    now apply negb_true_iff in Hd. }
  destruct (nz (m_clear op) || nz (m_set op)).
  - destruct (fold_left _ modes (Some s)) as [s0 |] eqn:E; [| discriminate].
    intros H. injection H as <-.
    eapply held_trans; [apply (Hplan s0 eq_refl) | apply Hfun].
  - intros H. injection H as <-. apply Hfun.
Qed.

Lemma held_operand (P : platform) (a : string) (arg1 : option string)
  (s : st) (r : st * bool) (w w1 : world P) :
  operand P a arg1 s w = (Ret r, w1) -> held (a <> "-drain") s (fst r).
Proof.
  unfold operand, invalid, with_mode.
  destruct (Ascii.eqb (char0 a) "=").
  - destruct (negb (strlen (next a) =? sizeof_termios P * 2)
              || negb (isxnumber (next a)));
      [intros H; now apply eprintf_not_Ret in H |].
    destruct (decodehex (to_bytes P (mode s)) (next a));
      [| discriminate].
    unfold ret. intros H. injection H as <- _. apply held_on_mode.
  - destruct (parseoperand_mode a s) as [s' | |] eqn:Hm; [| | discriminate].
    + unfold ret. intros H. injection H as <- _.
      now apply held_parseoperand_mode.
    + intros H. apply bind_Ret in H. destruct H as (rk & wk & Hk & H).
      destruct rk as [m' |].
      { unfold ret in H. injection H as <- _. apply held_on_mode. }
      apply bind_Ret in H. destruct H as (ri & wi & Hi & H).
      destruct ri as [m' |].
      { unfold ret in H. injection H as <- _. apply held_on_mode. }
      destruct (String.eqb a "line").
      * destruct arg1 as [b |]; [| now apply eprintf_not_Ret in H].
        apply bind_Ret in H. destruct H as (m' & wl & Hl & H).
        unfold ret in H. injection H as <- _. apply held_on_mode.
      * destruct (parsespeed a) as [sp |]; [| now apply eprintf_not_Ret in H].
        destruct (cfsetispeed P (mode s) (s_speed sp)) as [m1 |];
          [| now apply eprintf_not_Ret in H].
        destruct (cfsetospeed P m1 (s_speed sp)) as [m2 |];
          [| now apply eprintf_not_Ret in H].
        unfold ret in H. injection H as <- _. apply held_on_mode.
Qed.

(** X25: through any operand list that is processed to its end, a request
    for the size or the speed output, once made, is never withdrawn, and
    the request to drain is kept unless [-drain] is among the tokens. *)
Theorem requests_never_withdrawn (P : platform) (argv : list string)
  (s s' : st) (w w' : world P) :
  operands P argv s w = (Ret s', w') ->
  (output_size_requested s = 1 -> output_size_requested s' = 1)
  /\ (output_speed_requested s = 1 -> output_speed_requested s' = 1)
  /\ (~ In "-drain" argv ->
      drain_requested s = 1 -> drain_requested s' = 1).
Proof.
  change (operands P argv s w = (Ret s', w') ->
          held (~ In "-drain" argv) s s').
  assert (Hn : forall n argv, (List.length argv <= n)%nat ->
               forall s w, operands P argv s w = (Ret s', w') ->
                           held (~ In "-drain" argv) s s').
  { clear. induction n as [| n IH]; intros [| a rest] Hlen s0 w0 H;
      try (simpl in Hlen; lia);
      try (unfold operands, ret in H; injection H as <- _; apply held_refl).
    cbn [operands] in H. apply bind_Ret in H.
    destruct H as ([s1 c] & w1 & Ho & H).
    apply held_operand in Ho. cbn [fst] in Ho.
    eapply held_trans.
    - eapply held_weaken; [| exact Ho].
      intros Hno ->. apply Hno. now left.
    - destruct c.
      + destruct rest as [| b rest']; [discriminate H |].
        eapply held_weaken; [| apply (IH rest' ltac:(simpl in Hlen; lia) _ _ H)].
        intros Hno Hin. apply Hno. right. now right.
      + eapply held_weaken; [| apply (IH rest ltac:(simpl in Hlen; lia) _ _ H)].
        intros Hno Hin. apply Hno. now right. }
  apply (Hn (List.length argv)). lia.
Qed.

Lemma requests_never_withdrawn_witness :
  (output_size_requested (mk_st 1 0 1 zero_termios) = 1 ->
   output_size_requested (mk_st 1 1 1 (set_lflag ECHO zero_termios)) = 1)
  /\ (output_speed_requested (mk_st 1 0 1 zero_termios) = 1 ->
      output_speed_requested (mk_st 1 1 1 (set_lflag ECHO zero_termios)) = 1)
  /\ (~ In "-drain" ["speed"; "echo"; "drain"] ->
      drain_requested (mk_st 1 0 1 zero_termios) = 1 ->
      drain_requested (mk_st 1 1 1 (set_lflag ECHO zero_termios)) = 1).
Proof.
  apply (requests_never_withdrawn sim ["speed"; "echo"; "drain"]
           (mk_st 1 0 1 zero_termios)
           (mk_st 1 1 1 (set_lflag ECHO zero_termios))
           (sim_world zero_termios) (sim_world zero_termios)).
  reflexivity.
Defined.

(** ** [main] *)





(** ** What the operands before an invalid token have done *)

Section Operand_frame.

Variable P : platform.
Variable R : world P -> world P -> Prop.
Hypothesis R_refl : forall w, R w w.
Hypothesis R_trans : forall w1 w2 w3, R w1 w2 -> R w2 w3 -> R w1 w3.
Hypothesis R_eprintf :
  forall (A : Type) (msg : string), always R (eprintf (P := P) (A := A) msg).
Hypothesis R_setwinsize : forall y x, always R (setwinsize P y x).

Ltac frame_steps :=
  repeat first
    [ apply always_ret; exact R_refl
    | apply R_eprintf
    | apply R_setwinsize
    | (apply always_bind; [exact R_trans | | intros ?])
    | progress cbv zeta
    | match goal with
      | |- always _ (if ?c then _ else _) => destruct c
      | |- always _ (match ?x with _ => _ end) => destruct x
      end ].

Lemma frame_e_strtonum (arg : string) (lo hi : Z) :
  always R (e_strtonum P arg lo hi).
Proof. unfold e_strtonum. frame_steps. Qed.

Lemma frame_estrtonum_anyradix (arg : string) (lo hi : Z) :
  always R (estrtonum_anyradix P arg lo hi).
Proof. unfold estrtonum_anyradix. frame_steps. Qed.

Lemma frame_parseoperand_key (a : string) (arg1 : option string)
  (m : termios) :
  always R (parseoperand_key P a arg1 m).
Proof.
  unfold parseoperand_key.
  repeat first [apply frame_estrtonum_anyradix | frame_steps].
Qed.

Lemma frame_call_int (f : intfun) (arg : string) (m : termios) :
  always R (call_int P f arg m).
Proof.
  destruct f; cbn [call_int];
    unfold cols, min, rows, stime, ispeed, ospeed, eparsespeed;
    repeat first [apply frame_e_strtonum | frame_steps].
Qed.

Lemma frame_parseoperand_int (a : string) (arg1 : option string)
  (m : termios) :
  always R (parseoperand_int P a arg1 m).
Proof.
  unfold parseoperand_int.
  repeat first [apply frame_call_int | frame_steps].
Qed.

Lemma frame_line (arg : string) (m : termios) : always R (line P arg m).
Proof. unfold line. repeat first [apply frame_e_strtonum | frame_steps]. Qed.

Lemma frame_operand (a : string) (arg1 : option string) (s : st) :
  always R (operand P a arg1 s).
Proof.
  unfold operand, invalid, abort, undefined.
  repeat first
    [ apply frame_parseoperand_key | apply frame_parseoperand_int
    | apply frame_line
    | (intros w0; apply R_refl)
    | frame_steps ].
Qed.

Lemma frame_operands (argv : list string) (s : st) :
  always R (operands P argv s).
Proof.
  assert (Hn : forall n argv, (List.length argv <= n)%nat ->
               forall s, always R (operands P argv s)).
  { induction n as [| n IH]; intros [| a rest] Hlen s0;
      try (simpl in Hlen; lia); try (apply always_ret; exact R_refl).
    cbn [operands]. apply always_bind;
      [exact R_trans | apply frame_operand |].
    intros [s' c]. destruct c.
    - destruct rest as [| b rest'].
      + intros w0. apply R_refl.
      + apply IH. simpl in Hlen. lia.
    - apply IH. simpl in Hlen. lia. }
  apply (Hn (List.length argv)). lia.
Qed.

End Operand_frame.

Lemma same_attrs_operands (P : platform) (argv : list string) (s : st) :
  winsize_apart P -> always same_attrs (operands P argv s).
Proof.
  intros Hapart. apply frame_operands.
  - intros w. reflexivity.
  - intros w1 w2 w3 H12 H23. unfold same_attrs in *. congruence.
  - intros A msg w. reflexivity.
  - intros y x w. unfold same_attrs, setwinsize, bind, get_dev, note.
    destruct (tiocgwinsz P STDIN_FILENO (dev w)) as [ws |]; [| reflexivity].
    cbn [dev].
    match goal with
    | |- context [tiocswinsz P ?v (dev w)] =>
        destruct (tiocswinsz P v (dev w)) as [d' |] eqn:E; cbn [dev snd]
    end; [exact (Hapart _ _ _ E) | reflexivity].
Qed.

(** C7: when the resolver stands at a token of no operand class (the
    flags are not both set, the device could be read, the operands before
    the token were processed to the end), [main] ends with status 1, adds
    the one line naming the token to standard error, writes nothing to
    standard output and does not look at what follows the token.  No call
    made during the run commits attributes to the device: the calls that
    reached it set the window size, and where those leave the attributes
    alone the device still reports the attributes read at the start. *)
Theorem invalid_operand_no_commit
  (P : platform) (argv0 : string) (args pre post : list string)
  (tok : string) (aflag gflag : Z) (m0 : termios) (s1 : st)
  (w w1 : world P) :
  flags args 0 0 = (aflag, gflag, (pre ++ tok :: post)%list) ->
  nz aflag && nz gflag = false ->
  tcgetattr P (dev w) = Some m0 ->
  operands P pre (mk_st 0 0 1 m0) w = (Ret s1, w1) ->
  no_class tok = true ->
  main P argv0 args w
  = (Exit 1,
     mk_world (dev w1) (out w)
              (err w ++ "invalid operand: " ++ tok ++ LF)
              (log w1) (width w) (pos w))
  /\ (exists evs,
        log w1 = (log w ++ evs)%list
        /\ forallb (fun e => negb (is_commit e)) evs = true)
  /\ (winsize_apart P ->
      tcgetattr P (dev (snd (main P argv0 args w))) = Some m0).
Proof.
  intros Hflags Hboth Hget Hpre Hnone.
  pose proof (operands_quiet P pre _ _ _ _ Hpre)
    as (Ho & He & Hw & Hp & Hlog).
  assert (Hmain : main P argv0 args w
                  = (Exit 1,
                     mk_world (dev w1) (out w)
                              (err w ++ "invalid operand: " ++ tok ++ LF)
                              (log w1) (width w) (pos w))).
  { unfold main. rewrite Hflags, Hboth.
    unfold bind at 1. unfold ret at 1.
    unfold bind at 1. unfold get_dev at 1. rewrite Hget.
    unfold bind at 1.
    rewrite (operands_app P pre (tok :: post) _ _ _ _ Hpre).
    cbn [operands]. unfold bind at 1.
    rewrite (operand_no_class P tok _ s1 w1 Hnone).
    now rewrite Ho, He, Hw, Hp. }
  split; [exact Hmain |]. split; [exact Hlog |].
  intros Hapart. rewrite Hmain. cbn [snd dev].
  pose proof (same_attrs_operands P pre (mk_st 0 0 1 m0) Hapart w) as Hsame.
  rewrite Hpre in Hsame. cbn [snd] in Hsame. unfold same_attrs in Hsame.
  now rewrite Hsame.
Qed.

Lemma invalid_operand_no_commit_witness :
  fst (main sim "stty" ["-echo"; "rows"; "10"; "bogus"; "raw"]
            (sim_world zero_termios)) = Exit 1
  /\ err (snd (main sim "stty" ["-echo"; "rows"; "10"; "bogus"; "raw"]
                    (sim_world zero_termios)))
     = "invalid operand: bogus" ++ LF
  /\ tiocgwinsz sim STDIN_FILENO
       (dev (snd (main sim "stty" ["-echo"; "rows"; "10"; "bogus"; "raw"]
                       (sim_world zero_termios))))
     = Some (mk_winsize 10 80 0 0)
  /\ tcgetattr sim
       (dev (snd (main sim "stty" ["-echo"; "rows"; "10"; "bogus"; "raw"]
                       (sim_world zero_termios))))
     = Some zero_termios.
Proof.
  destruct (invalid_operand_no_commit sim "stty"
              ["-echo"; "rows"; "10"; "bogus"; "raw"]
              ["-echo"; "rows"; "10"] ["raw"] "bogus" 0 0 zero_termios
              (mk_st 0 0 1 zero_termios)
              (sim_world zero_termios)
              (mk_world (P := sim)
                        (mk_tty zero_termios (mk_winsize 10 80 0 0)) "" ""
                        [ev_tiocswinsz (mk_winsize 10 80 0 0)] 0 0))
    as (H & _ & Hattr).
  - reflexivity.
  - reflexivity.
  - reflexivity.
  - reflexivity.
  - reflexivity.
  - split; [now rewrite H |]. split; [now rewrite H |].
    split; [now rewrite H |].
    apply Hattr. intros ws d d' E. injection E as <-. reflexivity.
Defined.
